(** * Food-blog recipe store: the data-access layer of [database.py]

    A shallow embedding of [src/database.py] (the [sqlite3]-backed data-access
    layer of the food-blog command-line program) and of the part of SQLite it
    drives: query texts are built as strings exactly as the Python code builds
    them, handed to a small model of the SQLite front end (tokenizer, parser
    for the statement shapes this module issues) and executed on a store of
    six tables.  Of [src/blog.py], the program that drives the module, the
    handling of the command line and the set-up of the tables are embedded
    as well. *)

From Stdlib Require Import ZArith Lia Ascii DecimalString DecimalNat DecimalFacts.
From stdpp Require Import base option strings list gmap.

Local Open Scope Z_scope.

(** ** Python values and exceptions *)

(** The scalar values the module receives as positional arguments. *)
Inductive pyval :=
| PNone
| PInt (n : Z)
| PStr (s : string).

#[global] Instance pyval_eq_dec : EqDecision pyval.
Proof. solve_decision. Defined.

(** [str(v)], as used by f-string interpolation. *)
Definition py_str (v : pyval) : string :=
  match v with
  | PNone => "None"
  | PInt n => NilZero.string_of_int (Z.to_int n)
  | PStr s => s
  end.

(** [str(n)] for a length. *)
Definition py_str_nat (n : nat) : string :=
  NilZero.string_of_uint (Nat.to_uint n).

(** [sep.join(items)]. *)
Fixpoint join (sep : string) (items : list string) : string :=
  match items with
  | [] => ""
  | x :: rest =>
      match rest with
      | [] => x
      | _ :: _ => x +:+ sep +:+ join sep rest
      end
  end.

(** The exceptions that can leave the module.  [ValueError] carries its
    message; the [sqlite3] exception classes are kept apart by class only. *)
Inductive exn :=
| ValueError (msg : string)
| TypeError
| AttributeError
| ProgrammingError
| OperationalError
| IntegrityError.

#[global] Instance exn_eq_dec : EqDecision exn.
Proof. solve_decision. Defined.

Inductive outcome (A : Type) :=
| Returned (a : A)
| Raised (e : exn).
Arguments Returned {A} a.
Arguments Raised {A} e.

(** ** SQL values *)

Inductive value :=
| VNull
| VInt (n : Z)
| VText (s : string).

#[global] Instance value_eq_dec : EqDecision value.
Proof. solve_decision. Defined.

(** The [sqlite3] adapter for bound parameters. *)
Definition adapt (v : pyval) : value :=
  match v with
  | PNone => VNull
  | PInt n => VInt n
  | PStr s => VText s
  end.

Definition bindings := list (string * value).

(** ** The SQLite front end: tokens *)

Inductive token :=
| TWord (w : string)        (* bare word: keyword or name, as written *)
| TBracket (w : string)     (* [name] *)
| TText (s : string)        (* 'literal' *)
| TNumber (digits : string)
| TParam (name : string)    (* :name *)
| TLParen | TRParen | TComma | TSemi | TEq | TDot | TStar.

#[global] Instance token_eq_dec : EqDecision token.
Proof. solve_decision. Defined.

Inductive lex_mode :=
| LTop
| LWord (acc : string)
| LNumber (acc : string)
| LText (acc : string)
| LTextQuote (acc : string)   (* inside a literal, just after a quote *)
| LBracket (acc : string)
| LParam (acc : string).

Definition char_code (c : ascii) : N := N_of_ascii c.

Definition is_space (c : ascii) : bool :=
  let n := char_code c in
  ((n =? 32) || (n =? 9) || (n =? 10) || (n =? 12) || (n =? 13))%N.

Definition is_digit (c : ascii) : bool :=
  let n := char_code c in ((48 <=? n) && (n <=? 57))%N.

(** Letters, underscore and every byte above 127 start a name. *)
Definition is_name_start (c : ascii) : bool :=
  let n := char_code c in
  (((65 <=? n) && (n <=? 90)) || ((97 <=? n) && (n <=? 122))
   || (n =? 95) || (128 <=? n))%N.

Definition is_name_char (c : ascii) : bool :=
  is_name_start c || is_digit c || (char_code c =? 36)%N.

Definition snoc (acc : string) (c : ascii) : string :=
  acc +:+ String c "".

Definition lex_top (c : ascii) : option (list token * lex_mode) :=
  if is_space c then Some ([], LTop)
  else if is_name_start c then Some ([], LWord (String c ""))
  else if is_digit c then Some ([], LNumber (String c ""))
  else if Ascii.eqb c "'" then Some ([], LText "")
  else if Ascii.eqb c "[" then Some ([], LBracket "")
  else if Ascii.eqb c ":" then Some ([], LParam "")
  else if Ascii.eqb c "(" then Some ([TLParen], LTop)
  else if Ascii.eqb c ")" then Some ([TRParen], LTop)
  else if Ascii.eqb c "," then Some ([TComma], LTop)
  else if Ascii.eqb c ";" then Some ([TSemi], LTop)
  else if Ascii.eqb c "=" then Some ([TEq], LTop)
  else if Ascii.eqb c "." then Some ([TDot], LTop)
  else if Ascii.eqb c "*" then Some ([TStar], LTop)
  else None.

(** A token that ends at [c]: emit it, then read [c] afresh. *)
Definition lex_emit (t : token) (c : ascii) : option (list token * lex_mode) :=
  '(out, m) ← lex_top c; Some (t :: out, m).

Definition lex_step (m : lex_mode) (c : ascii) : option (list token * lex_mode) :=
  match m with
  | LTop => lex_top c
  | LWord acc =>
      if is_name_char c then Some ([], LWord (snoc acc c))
      else lex_emit (TWord acc) c
  | LNumber acc =>
      if is_digit c then Some ([], LNumber (snoc acc c))
      else if is_name_char c then None
      else lex_emit (TNumber acc) c
  | LText acc =>
      if Ascii.eqb c "'" then Some ([], LTextQuote acc)
      else Some ([], LText (snoc acc c))
  | LTextQuote acc =>
      if Ascii.eqb c "'" then Some ([], LText (snoc acc c))
      else lex_emit (TText acc) c
  | LBracket acc =>
      if Ascii.eqb c "]" then Some ([TBracket acc], LTop)
      else Some ([], LBracket (snoc acc c))
  | LParam acc =>
      if is_name_char c then Some ([], LParam (snoc acc c))
      else match acc with
           | "" => None
           | _ => lex_emit (TParam acc) c
           end
  end.

Fixpoint scan (m : lex_mode) (s : string) : option (list token * lex_mode) :=
  match s with
  | "" => Some ([], m)
  | String c rest =>
      '(out, m1) ← lex_step m c;
      '(more, m2) ← scan m1 rest;
      Some (out ++ more, m2)
  end.

(** End of input: an open literal or bracket is an error. *)
Definition lex_flush (m : lex_mode) : option (list token) :=
  match m with
  | LTop => Some []
  | LWord acc => Some [TWord acc]
  | LNumber acc => Some [TNumber acc]
  | LText _ => None
  | LTextQuote acc => Some [TText acc]
  | LBracket _ => None
  | LParam "" => None
  | LParam acc => Some [TParam acc]
  end.

Definition tokenize (s : string) : option (list token) :=
  '(toks, m) ← scan LTop s;
  last ← lex_flush m;
  Some (toks ++ last).

(** ** The SQLite front end: statements

    The parser recognises the statement shapes that [database.py] issues:
    single-table INSERT / DELETE / UPDATE / SELECT *, and a SELECT of one
    column over a chain of inner joins with WHERE, GROUP BY and HAVING.  A
    condition is a conjunction of units, a unit being one comparison or a
    parenthesised disjunction of comparisons.  Any other text is refused, as
    a syntax error is. *)

Record colref := ColRef { cr_table : option string; cr_column : string }.

Inductive operand :=
| OText (s : string)
| ONumber (n : Z)
| OParam (name : string)
| OColumn (c : colref)
| OCountDistinct (c : colref).

Inductive comparison :=
| CEq (a b : operand)
| CIn (a : operand) (items : list operand).

(** A conjunction of disjunctions. *)
Definition condition := list (list comparison).

Inductive projection :=
| PStar
| PColumn (c : colref).

Record table_ref := TableRef { tr_table : string; tr_alias : option string }.

Record join_clause := JoinClause { jn_table : table_ref; jn_on : condition }.

Record select_stmt := SelectStmt {
  sel_proj : projection;
  sel_from : table_ref;
  sel_joins : list join_clause;
  sel_where : option condition;
  sel_group : option colref;
  sel_having : option condition
}.

Inductive statement :=
| SInsert (table : string) (columns : list string) (vals : list operand)
| SDelete (table : string) (cond : option condition)
| SUpdate (table : string) (column : string) (val : operand)
          (cond : option condition)
| SSelect (q : select_stmt).

#[global] Instance colref_eq_dec : EqDecision colref.
Proof. solve_decision. Defined.
#[global] Instance operand_eq_dec : EqDecision operand.
Proof. solve_decision. Defined.
#[global] Instance comparison_eq_dec : EqDecision comparison.
Proof. solve_decision. Defined.

(** Names and keywords are matched without regard to ASCII case. *)
Definition lower_char (c : ascii) : ascii :=
  let n := char_code c in
  if ((65 <=? n) && (n <=? 90))%N then ascii_of_N (n + 32) else c.

Fixpoint lower (s : string) : string :=
  match s with
  | "" => ""
  | String c rest => String (lower_char c) (lower rest)
  end.

(** The keywords SQLite does not accept as a bare name. *)
Definition reserved_words : list string :=
  ["add"; "all"; "alter"; "and"; "as"; "autoincrement"; "between"; "case";
   "check"; "collate"; "commit"; "constraint"; "create"; "default";
   "deferrable"; "delete"; "distinct"; "drop"; "else"; "escape"; "except";
   "exists"; "foreign"; "from"; "group"; "having"; "in"; "index"; "insert";
   "intersect"; "into"; "is"; "isnull"; "join"; "limit"; "not"; "nothing";
   "notnull"; "null"; "on"; "or"; "order"; "primary"; "references";
   "returning"; "select"; "set"; "table"; "then"; "to"; "transaction";
   "union"; "unique"; "update"; "using"; "values"; "when"; "where"].

Definition is_reserved (w : string) : bool :=
  existsb (String.eqb w) reserved_words.

Definition is_kw (k : string) (t : token) : bool :=
  match t with
  | TWord w => String.eqb (lower w) k
  | _ => false
  end.

Definition parse_name (t : token) : option string :=
  match t with
  | TWord w => let l := lower w in if is_reserved l then None else Some l
  | TBracket w => Some (lower w)
  | _ => None
  end.

Definition number_of_digits (d : string) : option Z :=
  u ← NilEmpty.uint_of_string d; Some (Z.of_nat (Nat.of_uint u)).

Definition parse_literal (t : token) : option operand :=
  match t with
  | TText s => Some (OText s)
  | TNumber d => n ← number_of_digits d; Some (ONumber n)
  | TParam p => Some (OParam p)
  | _ => None
  end.

Definition parse_colref (ts : list token) : option (colref * list token) :=
  match ts with
  | t1 :: TDot :: t2 :: r =>
      a ← parse_name t1; c ← parse_name t2; Some (ColRef (Some a) c, r)
  | t1 :: r => c ← parse_name t1; Some (ColRef None c, r)
  | [] => None
  end.

Definition parse_operand (ts : list token) : option (operand * list token) :=
  match ts with
  | TText s :: r => Some (OText s, r)
  | TNumber d :: r => n ← number_of_digits d; Some (ONumber n, r)
  | TParam p :: r => Some (OParam p, r)
  | TWord w :: TLParen :: d :: r =>
      if String.eqb (lower w) "count" && is_kw "distinct" d then
        '(c, r1) ← parse_colref r;
        match r1 with
        | TRParen :: r2 => Some (OCountDistinct c, r2)
        | _ => None
        end
      else None
  | _ => '(c, r) ← parse_colref ts; Some (OColumn c, r)
  end.

(** The items of a parenthesised list, after its first item. *)
Fixpoint parse_items_tail (ts : list token) : option (list operand * list token) :=
  match ts with
  | TRParen :: r => Some ([], r)
  | TComma :: t :: r =>
      o ← parse_literal t;
      '(os, r1) ← parse_items_tail r;
      Some (o :: os, r1)
  | _ => None
  end.

(** [item, ..., item )], the list possibly empty (SQLite accepts [IN ()]). *)
Definition parse_items (ts : list token) : option (list operand * list token) :=
  match ts with
  | TRParen :: r => Some ([], r)
  | t :: r =>
      o ← parse_literal t;
      '(os, r1) ← parse_items_tail r;
      Some (o :: os, r1)
  | [] => None
  end.

Definition parse_comparison (ts : list token)
  : option (comparison * list token) :=
  '(a, r) ← parse_operand ts;
  match r with
  | TEq :: r1 => '(b, r2) ← parse_operand r1; Some (CEq a b, r2)
  | k :: TLParen :: r1 =>
      if is_kw "in" k then
        '(items, r2) ← parse_items r1; Some (CIn a items, r2)
      else None
  | _ => None
  end.

Fixpoint parse_disjunction (fuel : nat) (ts : list token)
  : option (list comparison * list token) :=
  match fuel with
  | O => None
  | S fuel' =>
      '(c, r) ← parse_comparison ts;
      match r with
      | k :: r1 =>
          if is_kw "or" k then
            '(cs, r2) ← parse_disjunction fuel' r1; Some (c :: cs, r2)
          else Some ([c], r)
      | [] => Some ([c], r)
      end
  end.

Definition parse_unit (fuel : nat) (ts : list token)
  : option (list comparison * list token) :=
  match ts with
  | TLParen :: r =>
      '(d, r1) ← parse_disjunction fuel r;
      match r1 with
      | TRParen :: r2 => Some (d, r2)
      | _ => None
      end
  | _ => '(c, r) ← parse_comparison ts; Some ([c], r)
  end.

Fixpoint parse_condition (fuel : nat) (ts : list token)
  : option (condition * list token) :=
  match fuel with
  | O => None
  | S fuel' =>
      '(u, r) ← parse_unit fuel ts;
      match r with
      | k :: r1 =>
          if is_kw "and" k then
            '(us, r2) ← parse_condition fuel' r1; Some (u :: us, r2)
          else Some ([u], r)
      | [] => Some ([u], r)
      end
  end.

Definition parse_table_ref (ts : list token)
  : option (table_ref * list token) :=
  match ts with
  | t :: r =>
      n ← parse_name t;
      match r with
      | a :: r1 =>
          match parse_name a with
          | Some al => Some (TableRef n (Some al), r1)
          | None => Some (TableRef n None, r)
          end
      | [] => Some (TableRef n None, r)
      end
  | [] => None
  end.

Fixpoint parse_joins (fuel : nat) (ts : list token)
  : option (list join_clause * list token) :=
  match fuel with
  | O => None
  | S fuel' =>
      match ts with
      | k :: r =>
          if is_kw "join" k then
            '(t, r1) ← parse_table_ref r;
            match r1 with
            | o :: r2 =>
                if is_kw "on" o then
                  '(c, r3) ← parse_condition fuel' r2;
                  '(js, r4) ← parse_joins fuel' r3;
                  Some (JoinClause t c :: js, r4)
                else None
            | [] => None
            end
          else Some ([], ts)
      | [] => Some ([], ts)
      end
  end.

Definition parse_where (fuel : nat) (ts : list token)
  : option (option condition * list token) :=
  match ts with
  | k :: r =>
      if is_kw "where" k then
        '(c, r1) ← parse_condition fuel r; Some (Some c, r1)
      else Some (None, ts)
  | [] => Some (None, ts)
  end.

Definition parse_group (ts : list token)
  : option (option colref * list token) :=
  match ts with
  | g :: b :: r =>
      if is_kw "group" g then
        if is_kw "by" b then '(c, r1) ← parse_colref r; Some (Some c, r1)
        else None
      else Some (None, ts)
  | _ => Some (None, ts)
  end.

Definition parse_having (fuel : nat) (ts : list token)
  : option (option condition * list token) :=
  match ts with
  | k :: r =>
      if is_kw "having" k then
        '(c, r1) ← parse_condition fuel r; Some (Some c, r1)
      else Some (None, ts)
  | [] => Some (None, ts)
  end.

(** A statement ends at the end of the text, after an optional [;]. *)
Definition parse_end (ts : list token) : option unit :=
  match ts with
  | [] | [TSemi] => Some tt
  | _ => None
  end.

Definition parse_projection (ts : list token)
  : option (projection * list token) :=
  match ts with
  | TStar :: r => Some (PStar, r)
  | _ => '(c, r) ← parse_colref ts; Some (PColumn c, r)
  end.

Definition parse_select (fuel : nat) (ts : list token) : option statement :=
  '(p, r) ← parse_projection ts;
  match r with
  | f :: r1 =>
      if is_kw "from" f then
        '(t, r2) ← parse_table_ref r1;
        '(js, r3) ← parse_joins fuel r2;
        '(w, r4) ← parse_where fuel r3;
        '(g, r5) ← parse_group r4;
        '(h, r6) ← parse_having fuel r5;
        _ ← parse_end r6;
        Some (SSelect (SelectStmt p t js w g h))
      else None
  | [] => None
  end.

(** [name, ..., name )]. *)
Fixpoint parse_names (ts : list token) : option (list string * list token) :=
  match ts with
  | t :: TRParen :: r => n ← parse_name t; Some ([n], r)
  | t :: TComma :: r =>
      n ← parse_name t; '(ns, r1) ← parse_names r; Some (n :: ns, r1)
  | _ => None
  end.

Definition parse_insert (ts : list token) : option statement :=
  match ts with
  | i :: t :: TLParen :: r =>
      if is_kw "into" i then
        n ← parse_name t;
        '(cols, r1) ← parse_names r;
        match r1 with
        | v :: TLParen :: r2 =>
            if is_kw "values" v then
              '(vals, r3) ← parse_items r2;
              _ ← parse_end r3;
              Some (SInsert n cols vals)
            else None
        | _ => None
        end
      else None
  | _ => None
  end.

Definition parse_delete (fuel : nat) (ts : list token) : option statement :=
  match ts with
  | f :: t :: r =>
      if is_kw "from" f then
        n ← parse_name t;
        '(w, r1) ← parse_where fuel r;
        _ ← parse_end r1;
        Some (SDelete n w)
      else None
  | _ => None
  end.

Definition parse_update (fuel : nat) (ts : list token) : option statement :=
  match ts with
  | t :: s :: c :: TEq :: r =>
      if is_kw "set" s then
        n ← parse_name t;
        col ← parse_name c;
        '(v, r1) ← parse_operand r;
        '(w, r2) ← parse_where fuel r1;
        _ ← parse_end r2;
        Some (SUpdate n col v w)
      else None
  | _ => None
  end.

Definition parse_statement (ts : list token) : option statement :=
  let fuel := length ts in
  match ts with
  | k :: r =>
      if is_kw "select" k then parse_select fuel r
      else if is_kw "insert" k then parse_insert r
      else if is_kw "delete" k then parse_delete fuel r
      else if is_kw "update" k then parse_update fuel r
      else None
  | [] => None
  end.

(** Text to statement; [None] is a syntax error. *)
Definition parse_sql (text : string) : option statement :=
  ts ← tokenize text; parse_statement ts.


(** ** The store: six tables

    A column holds SQL values; type affinity conversions are not modelled
    (the module binds text to TEXT columns and integers to INTEGER ones). *)

Inductive sql_type := TyInteger | TyText.

Record column_def := ColumnDef {
  col_name : string;
  col_type : sql_type;
  col_not_null : bool;
  col_unique : bool
}.

Record foreign_key := ForeignKey {
  fk_column : string;
  fk_parent : string;
  fk_parent_column : string
}.

Record table_schema := TableSchema {
  ts_columns : list column_def;
  ts_primary : string;          (* the INTEGER PRIMARY KEY column *)
  ts_autoincrement : bool;
  ts_foreign_keys : list foreign_key
}.

Definition row := list value.

Record table := Table {
  tbl_schema : table_schema;
  tbl_sequence : Z;             (* largest key ever given out (AUTOINCREMENT) *)
  tbl_rows : list row
}.

#[global] Instance sql_type_eq_dec : EqDecision sql_type.
Proof. solve_decision. Defined.
#[global] Instance column_def_eq_dec : EqDecision column_def.
Proof. solve_decision. Defined.
#[global] Instance foreign_key_eq_dec : EqDecision foreign_key.
Proof. solve_decision. Defined.
#[global] Instance table_schema_eq_dec : EqDecision table_schema.
Proof. solve_decision. Defined.
#[global] Instance table_eq_dec : EqDecision table.
Proof. solve_decision. Defined.

(** Tables by (lower-case) name. *)
Abbreviation database := (gmap string table).

(** The tables of the script in [generate_tables], in its order. *)
Definition key_column (name : string) : column_def :=
  ColumnDef name TyInteger false true.

Definition meals_schema : table_schema :=
  TableSchema [key_column "meal_id"; ColumnDef "meal_name" TyText true true]
              "meal_id" false [].

Definition ingredients_schema : table_schema :=
  TableSchema [key_column "ingredient_id";
               ColumnDef "ingredient_name" TyText true true]
              "ingredient_id" false [].

Definition measures_schema : table_schema :=
  TableSchema [key_column "measure_id";
               ColumnDef "measure_name" TyText false true]
              "measure_id" false [].

Definition recipes_schema : table_schema :=
  TableSchema [key_column "recipe_id";
               ColumnDef "recipe_name" TyText true false;
               ColumnDef "recipe_description" TyText false false]
              "recipe_id" false [].

Definition serve_schema : table_schema :=
  TableSchema [key_column "serve_id";
               ColumnDef "recipe_id" TyInteger true false;
               ColumnDef "meal_id" TyInteger true false]
              "serve_id" true
              [ForeignKey "recipe_id" "recipes" "recipe_id";
               ForeignKey "meal_id" "meals" "meal_id"].

Definition quantity_schema : table_schema :=
  TableSchema [key_column "quantity_id";
               ColumnDef "quantity" TyInteger true false;
               ColumnDef "recipe_id" TyInteger true false;
               ColumnDef "measure_id" TyInteger true false;
               ColumnDef "ingredient_id" TyInteger true false]
              "quantity_id" true
              [ForeignKey "measure_id" "measures" "measure_id";
               ForeignKey "ingredient_id" "ingredients" "ingredient_id";
               ForeignKey "recipe_id" "recipes" "recipe_id"].

Definition schema_script : list (string * table_schema) :=
  [("meals", meals_schema); ("ingredients", ingredients_schema);
   ("measures", measures_schema); ("recipes", recipes_schema);
   ("serve", serve_schema); ("quantity", quantity_schema)].

(** ** The SQLite back end: executing a statement *)

Definition column_names (t : table) : list string :=
  map col_name (ts_columns (tbl_schema t)).

Fixpoint index_of (c : string) (names : list string) : option nat :=
  match names with
  | [] => None
  | n :: rest => if String.eqb c n then Some O else S <$> index_of c rest
  end.

Definition cell (r : row) (j : nat) : value := default VNull (r !! j).

(** SQL equality: never true on NULL. *)
Definition sql_eq (a b : value) : bool :=
  match a, b with
  | VNull, _ | _, VNull => false
  | _, _ => bool_decide (a = b)
  end.

(** A joined row: one row per table of the FROM clause, in its order. *)
Definition jrow := list row.

Definition fetch (r : jrow) (i j : nat) : value := cell (default [] (r !! i)) j.

(** Operands after name resolution and parameter binding. *)
Inductive roperand :=
| RConst (v : value)
| RCol (i j : nat)
| RCountDistinct (i j : nat).

Inductive rcomparison :=
| REq (a b : roperand)
| RIn (a : roperand) (items : list roperand).

Definition rcondition := list (list rcomparison).

(** The tables in scope: alias (or table name) and column names. *)
Definition header := list (string * list string).

Fixpoint resolve_qualified (h : header) (a c : string) (i : nat)
  : option (nat * nat) :=
  match h with
  | [] => None
  | (alias, cols) :: rest =>
      if String.eqb a alias then j ← index_of c cols; Some (i, j)
      else resolve_qualified rest a c (S i)
  end.

Fixpoint resolve_all (h : header) (c : string) (i : nat) : list (nat * nat) :=
  match h with
  | [] => []
  | (_, cols) :: rest =>
      match index_of c cols with
      | Some j => (i, j) :: resolve_all rest c (S i)
      | None => resolve_all rest c (S i)
      end
  end.

(** An unqualified name must belong to exactly one table in scope. *)
Definition resolve (h : header) (c : colref) : option (nat * nat) :=
  match cr_table c with
  | Some a => resolve_qualified h a (cr_column c) O
  | None =>
      match resolve_all h (cr_column c) O with
      | [p] => Some p
      | _ => None
      end
  end.

Fixpoint lookup_binding (name : string) (b : bindings) : option value :=
  match b with
  | [] => None
  | (n, v) :: rest => if String.eqb name n then Some v else lookup_binding name rest
  end.

(** Unknown columns and misplaced aggregates are [OperationalError]; a
    placeholder without a bound value is [ProgrammingError]. *)
Definition compile_operand (aggregates : bool) (h : header) (b : bindings)
    (o : operand) : outcome roperand :=
  match o with
  | OText s => Returned (RConst (VText s))
  | ONumber n => Returned (RConst (VInt n))
  | OParam p =>
      match lookup_binding p b with
      | Some v => Returned (RConst v)
      | None => Raised ProgrammingError
      end
  | OColumn c =>
      match resolve h c with
      | Some (i, j) => Returned (RCol i j)
      | None => Raised OperationalError
      end
  | OCountDistinct c =>
      if aggregates then
        match resolve h c with
        | Some (i, j) => Returned (RCountDistinct i j)
        | None => Raised OperationalError
        end
      else Raised OperationalError
  end.

Fixpoint compile_operands (aggregates : bool) (h : header) (b : bindings)
    (os : list operand) : outcome (list roperand) :=
  match os with
  | [] => Returned []
  | o :: rest =>
      match compile_operand aggregates h b o with
      | Raised e => Raised e
      | Returned r =>
          match compile_operands aggregates h b rest with
          | Raised e => Raised e
          | Returned rs => Returned (r :: rs)
          end
      end
  end.

Definition compile_comparison (aggregates : bool) (h : header) (b : bindings)
    (c : comparison) : outcome rcomparison :=
  match c with
  | CEq x y =>
      match compile_operand aggregates h b x with
      | Raised e => Raised e
      | Returned rx =>
          match compile_operand aggregates h b y with
          | Raised e => Raised e
          | Returned ry => Returned (REq rx ry)
          end
      end
  | CIn x items =>
      match compile_operand aggregates h b x with
      | Raised e => Raised e
      | Returned rx =>
          match compile_operands aggregates h b items with
          | Raised e => Raised e
          | Returned ritems => Returned (RIn rx ritems)
          end
      end
  end.

Fixpoint compile_disjunction (aggregates : bool) (h : header) (b : bindings)
    (d : list comparison) : outcome (list rcomparison) :=
  match d with
  | [] => Returned []
  | c :: rest =>
      match compile_comparison aggregates h b c with
      | Raised e => Raised e
      | Returned rc =>
          match compile_disjunction aggregates h b rest with
          | Raised e => Raised e
          | Returned rcs => Returned (rc :: rcs)
          end
      end
  end.

Fixpoint compile_condition (aggregates : bool) (h : header) (b : bindings)
    (c : condition) : outcome rcondition :=
  match c with
  | [] => Returned []
  | d :: rest =>
      match compile_disjunction aggregates h b d with
      | Raised e => Raised e
      | Returned rd =>
          match compile_condition aggregates h b rest with
          | Raised e => Raised e
          | Returned rds => Returned (rd :: rds)
          end
      end
  end.

Definition compile_where (aggregates : bool) (h : header) (b : bindings)
    (c : option condition) : outcome rcondition :=
  match c with
  | None => Returned []
  | Some c => compile_condition aggregates h b c
  end.

(** Evaluation on a joined row [r]; [g] is the group the row stands for. *)
Definition non_null (v : value) : bool :=
  match v with VNull => false | _ => true end.

Definition count_distinct (g : list jrow) (i j : nat) : Z :=
  Z.of_nat (length (remove_dups (filter (λ v, non_null v = true)
                                         (map (λ r, fetch r i j) g)))).

Definition eval_operand (g : list jrow) (r : jrow) (o : roperand) : value :=
  match o with
  | RConst v => v
  | RCol i j => fetch r i j
  | RCountDistinct i j => VInt (count_distinct g i j)
  end.

Definition eval_comparison (g : list jrow) (r : jrow) (c : rcomparison) : bool :=
  match c with
  | REq a b => sql_eq (eval_operand g r a) (eval_operand g r b)
  | RIn a items =>
      existsb (λ o, sql_eq (eval_operand g r a) (eval_operand g r o)) items
  end.

Definition eval_condition (g : list jrow) (r : jrow) (c : rcondition) : bool :=
  forallb (existsb (eval_comparison g r)) c.

Definition holds (c : rcondition) (r : jrow) : bool := eval_condition [] r c.

#[global] Instance outcome_ret : MRet outcome := λ A a, Returned a.
#[global] Instance outcome_bind : MBind outcome := λ A B f m,
  match m with
  | Returned a => f a
  | Raised e => Raised e
  end.

(** *** SELECT *)

Record plan := Plan {
  pl_from : list row;
  pl_joins : list (list row * rcondition);
  pl_where : rcondition;
  pl_group : option (nat * nat);
  pl_having : rcondition;
  pl_proj : option (nat * nat)       (* [None]: every column *)
}.

Definition scope_entry (t : table_ref) (tb : table) : string * list string :=
  (default (tr_table t) (tr_alias t), column_names tb).

Definition find_table (db : database) (name : string) : outcome table :=
  match db !! name with
  | Some tb => Returned tb
  | None => Raised OperationalError      (* no such table *)
  end.

(** An ON clause sees the tables joined so far and the one being joined. *)
Fixpoint compile_joins (db : database) (b : bindings) (h : header)
    (js : list join_clause) : outcome (header * list (list row * rcondition)) :=
  match js with
  | [] => Returned (h, [])
  | j :: rest =>
      tb ← find_table db (tr_table (jn_table j));
      let h1 := h ++ [scope_entry (jn_table j) tb] in
      on ← compile_condition false h1 b (jn_on j);
      '(h2, more) ← compile_joins db b h1 rest;
      Returned (h2, (tbl_rows tb, on) :: more)
  end.

Definition resolve_column (h : header) (c : colref) : outcome (nat * nat) :=
  match resolve h c with
  | Some p => Returned p
  | None => Raised OperationalError      (* no such column *)
  end.

Definition compile_select (db : database) (b : bindings) (q : select_stmt)
  : outcome plan :=
  tb ← find_table db (tr_table (sel_from q));
  '(h, joins) ← compile_joins db b [scope_entry (sel_from q) tb] (sel_joins q);
  w ← compile_where false h b (sel_where q);
  g ← match sel_group q with
      | Some c => k ← resolve_column h c; Returned (Some k)
      | None => Returned None
      end;
  hv ← match sel_having q, g with
       | Some c, Some _ => compile_condition true h b c
       | Some _, None => Raised OperationalError
       | None, _ => Returned []
       end;
  p ← match sel_proj q with
      | PStar => Returned None
      | PColumn c => k ← resolve_column h c; Returned (Some k)
      end;
  Returned (Plan (tbl_rows tb) joins w g hv p).

(** Nested-loop inner join. *)
Definition join_step (left : list jrow) (right : list row) (on : rcondition)
  : list jrow :=
  r ← left; r2 ← right; if holds on (r ++ [r2]) then [r ++ [r2]] else [].

Definition joined (p : plan) : list jrow :=
  foldl (λ acc j, join_step acc j.1 j.2) ((λ r, [r]) <$> pl_from p) (pl_joins p).

Definition matching (p : plan) : list jrow :=
  filter (λ r, holds (pl_where p) r) (joined p).

Definition group_key (k : nat * nat) (r : jrow) : value := fetch r k.1 k.2.

(** The rows that share a GROUP BY key (NULLs share one). *)
Definition groups (k : nat * nat) (rows : list jrow) : list (list jrow) :=
  (λ v, filter (λ r, group_key k r = v) rows)
    <$> remove_dups (group_key k <$> rows).

Definition project (p : option (nat * nat)) (r : jrow) : row :=
  match p with
  | Some (i, j) => [fetch r i j]
  | None => concat r
  end.

Section Engine.

(** SQLite leaves two things open in a grouped query: which row of a group a
    bare column is read from, and the order of the groups. *)
Variable choose : list jrow → jrow.
Variable arrange : list (list jrow) → list (list jrow).

Definition passing_groups (p : plan) (k : nat * nat) : list (list jrow) :=
  filter (λ g, eval_condition g (choose g) (pl_having p))
         (groups k (matching p)).

Definition run_select (p : plan) : list row :=
  match pl_group p with
  | None => project (pl_proj p) <$> matching p
  | Some k => (λ g, project (pl_proj p) (choose g)) <$> arrange (passing_groups p k)
  end.

(** *** INSERT, DELETE, UPDATE *)

Definition keys_of (pk : nat) (rows : list row) : list Z :=
  omap (λ r, match cell r pk with VInt k => Some k | _ => None end) rows.

(** One more than the largest key in use (and than the largest ever used,
    for an AUTOINCREMENT key). *)
Definition next_key (t : table) (pk : nat) : Z :=
  let top := match keys_of pk (tbl_rows t) with
             | [] => 0
             | k :: rest => foldr Z.max k rest
             end in
  1 + (if ts_autoincrement (tbl_schema t) then Z.max top (tbl_sequence t)
       else top).

(** Rows are kept in key order, the order of a table scan. *)
Fixpoint place_row (pk : nat) (k : Z) (r : row) (rows : list row) : list row :=
  match rows with
  | [] => [r]
  | r1 :: rest =>
      match cell r1 pk with
      | VInt k1 => if k <? k1 then r :: rows else r1 :: place_row pk k r rest
      | _ => r1 :: place_row pk k r rest
      end
  end.

Definition indexed_columns (t : table) : list (nat * column_def) :=
  zip (seq 0 (length (ts_columns (tbl_schema t)))) (ts_columns (tbl_schema t)).

Definition null_in_not_null (t : table) (r : row) : bool :=
  existsb (λ jc, col_not_null jc.2 && negb (non_null (cell r jc.1)))
          (indexed_columns t).

(** [r] repeats a value another row already has in a UNIQUE column. *)
Definition repeats_unique (t : table) (r : row) (others : list row) : bool :=
  existsb (λ jc, col_unique jc.2
                 && existsb (λ r', sql_eq (cell r' jc.1) (cell r jc.1)) others)
          (indexed_columns t).

Definition dangling_ref (db : database) (t : table) (k : foreign_key) (r : row)
  : bool :=
  match index_of (fk_column k) (column_names t) with
  | None => false
  | Some j =>
      non_null (cell r j)
      && negb match db !! fk_parent k with
              | None => false
              | Some p =>
                  match index_of (fk_parent_column k) (column_names p) with
                  | None => false
                  | Some pj =>
                      existsb (λ pr, sql_eq (cell pr pj) (cell r j)) (tbl_rows p)
                  end
              end
  end.

Definition dangling_in (db : database) (t : table) : nat :=
  sum_list ((λ k, length (filter (λ r, dangling_ref db t k r) (tbl_rows t)))
              <$> ts_foreign_keys (tbl_schema t)).

Definition dangling (db : database) : nat :=
  sum_list (dangling_in db <$> (map_to_list db).*2).

(** With foreign keys enforced, a statement may not leave more dangling
    references than it found. *)
Definition keeps_references (enforce : bool) (old new : database) : bool :=
  if enforce then (dangling new <=? dangling old)%nat else true.

Definition build_row (cols : list string) (vals : list value)
    (names : list string) : row :=
  (λ n, match index_of n cols with
        | Some i => default VNull (vals !! i)
        | None => VNull
        end) <$> names.

Definition with_rows (t : table) (rows : list row) : table :=
  Table (tbl_schema t) (tbl_sequence t) rows.

Definition run_insert (enforce : bool) (b : bindings) (db : database)
    (name : string) (cols : list string) (vals : list operand)
  : outcome database :=
  t ← find_table db name;
  let names := column_names t in
  if negb (forallb (λ c, bool_decide (is_Some (index_of c names))) cols)
  then Raised OperationalError
  else if negb (length cols =? length vals)%nat then Raised OperationalError
  else
    rvals ← compile_operands false [] b vals;
    let r0 := build_row cols (eval_operand [] [] <$> rvals) names in
    match index_of (ts_primary (tbl_schema t)) names with
    | None => Raised OperationalError
    | Some pk =>
        keyed ← match cell r0 pk with
                | VNull =>
                    let k := next_key t pk in
                    Returned (k, <[pk := VInt k]> r0)
                | VInt k =>
                    if bool_decide (k ∈ keys_of pk (tbl_rows t))
                    then Raised IntegrityError
                    else Returned (k, r0)
                | VText _ => Raised IntegrityError
                end;
        let '(k, r) := keyed in
        if null_in_not_null t r then Raised IntegrityError
        else if repeats_unique t r (tbl_rows t) then Raised IntegrityError
        else
          let t' := Table (tbl_schema t)
                          (if ts_autoincrement (tbl_schema t)
                           then Z.max k (tbl_sequence t) else tbl_sequence t)
                          (place_row pk k r (tbl_rows t)) in
          let db' := <[name := t']> db in
          if keeps_references enforce db db' then Returned db'
          else Raised IntegrityError
    end.

Definition table_condition (b : bindings) (name : string) (t : table)
    (c : option condition) : outcome rcondition :=
  compile_where false [(name, column_names t)] b c.

Definition run_delete (enforce : bool) (b : bindings) (db : database)
    (name : string) (c : option condition) : outcome database :=
  t ← find_table db name;
  w ← table_condition b name t c;
  let db' := <[name := with_rows t (filter (λ r, negb (holds w [r])) (tbl_rows t))]> db in
  if keeps_references enforce db db' then Returned db'
  else Raised IntegrityError.

(** No row may repeat a value of a UNIQUE column. *)
Fixpoint all_unique (t : table) (rows : list row) : bool :=
  match rows with
  | [] => true
  | r :: rest => negb (repeats_unique t r rest) && all_unique t rest
  end.

Definition run_update (enforce : bool) (b : bindings) (db : database)
    (name col : string) (val : operand) (c : option condition)
  : outcome database :=
  t ← find_table db name;
  w ← table_condition b name t c;
  v ← compile_operand false [(name, column_names t)] b val;
  match index_of col (column_names t) with
  | None => Raised OperationalError
  | Some j =>
      let rows := (λ r, if holds w [r] then <[j := eval_operand [] [r] v]> r
                        else r) <$> tbl_rows t in
      if existsb (null_in_not_null t) rows then Raised IntegrityError
      else if negb (all_unique t rows) then Raised IntegrityError
      else
        let db' := <[name := with_rows t rows]> db in
        if keeps_references enforce db db' then Returned db'
        else Raised IntegrityError
  end.

(** The store after the statement, and the rows it yields. *)
Definition run_statement (enforce : bool) (b : bindings) (db : database)
    (st : statement) : outcome (database * list row) :=
  match st with
  | SInsert name cols vals =>
      db' ← run_insert enforce b db name cols vals; Returned (db', [])
  | SDelete name c =>
      db' ← run_delete enforce b db name c; Returned (db', [])
  | SUpdate name col val c =>
      db' ← run_update enforce b db name col val c; Returned (db', [])
  | SSelect q =>
      p ← compile_select db b q; Returned (db, run_select p)
  end.

End Engine.

(** ** The [sqlite3] connection and the world the module runs in *)

(** A handle.  Every handle of a run is on the one store file (the path in
    the module global [db_name], from which [blog.py] opens its own). *)
Record Connection := MkConnection {
  conn_database : string;
  conn_closed : bool;
  conn_foreign_keys : bool       (* PRAGMA foreign_keys *)
}.

(** The module global [db_name], the store file, and the statements handed
    to [cursor.execute] / [cursor.executemany] so far, each with the
    parameter dictionaries bound to it. *)
Record world := World {
  db_name : string;
  store : database;
  journal : list (string * list bindings)
}.

Definition M (A : Type) : Type := world → outcome A * world.

#[global] Instance M_ret : MRet M := λ A a w, (Returned a, w).
#[global] Instance M_bind : MBind M := λ A B f m w,
  match m w with
  | (Returned a, w1) => f a w1
  | (Raised e, w1) => (Raised e, w1)
  end.

Definition raise {A} (e : exn) : M A := λ w, (Raised e, w).

Definition lift {A} (o : outcome A) : M A := λ w, (o, w).

Definition get_db_name : M string := λ w, (Returned (db_name w), w).

(** The attributes of a [sqlite3.Connection] that are methods taking SQL or
    managing the session. *)
Definition connection_methods : list string :=
  ["backup"; "close"; "commit"; "create_function"; "cursor"; "execute";
   "executemany"; "executescript"; "interrupt"; "iterdump"; "rollback"].

Definition has_method (name : string) : bool :=
  existsb (String.eqb name) connection_methods.

Fixpoint has_nul (s : string) : bool :=
  match s with
  | "" => false
  | String c rest => (char_code c =? 0)%N || has_nul rest
  end.

Definition log_statement (query : string) (bs : list bindings) (w : world)
  : world :=
  World (db_name w) (store w) (journal w ++ [(query, bs)]).

Definition set_store (db : database) (w : world) : world :=
  World (db_name w) db (journal w).

Section Module.

Variable choose : list jrow → jrow.
Variable arrange : list (list jrow) → list (list jrow).

(** [conn.cursor().execute(query, params)] followed by [fetchall()].  A
    closed handle gives no cursor; a text with a NUL character is refused
    by [sqlite3] itself; a text the parser refuses is a syntax error. *)
Definition execute (conn : Connection) (query : string) (b : bindings)
  : M (list row) := λ w,
  if conn_closed conn then (Raised ProgrammingError, w)
  else
    let w1 := log_statement query [b] w in
    if has_nul query then (Raised ProgrammingError, w1)
    else
      match parse_sql query with
      | None => (Raised OperationalError, w1)
      | Some st =>
          match run_statement choose arrange (conn_foreign_keys conn) b
                              (store w1) st with
          | Raised e => (Raised e, w1)
          | Returned (db, rows) => (Returned rows, set_store db w1)
          end
      end.

Fixpoint run_each (enforce : bool) (st : statement) (bs : list bindings)
    (db : database) : outcome database * database :=
  match bs with
  | [] => (Returned db, db)
  | b :: rest =>
      match run_statement choose arrange enforce b db st with
      | Raised e => (Raised e, db)
      | Returned (db1, _) => run_each enforce st rest db1
      end
  end.

(** [conn.cursor().executemany(query, seq)]: the statement is prepared once
    and must not be a query. *)
Definition executemany (conn : Connection) (query : string)
    (bs : list bindings) : M unit := λ w,
  if conn_closed conn then (Raised ProgrammingError, w)
  else
    let w1 := log_statement query bs w in
    if has_nul query then (Raised ProgrammingError, w1)
    else
      match parse_sql query with
      | None => (Raised OperationalError, w1)
      | Some (SSelect _) => (Raised ProgrammingError, w1)
      | Some st =>
          match run_each (conn_foreign_keys conn) st bs (store w1) with
          | (Raised e, db) => (Raised e, set_store db w1)
          | (Returned _, db) => (Returned (), set_store db w1)
          end
      end.

(** [with conn: body]: commit when the body returns, roll back when it
    raises. *)
Definition with_conn {A} (conn : Connection) (body : M A) : M A := λ w,
  match body w with
  | (Returned a, w1) => (Returned a, w1)
  | (Raised e, w1) => (Raised e, set_store (store w) w1)
  end.

Definition commit (conn : Connection) : M unit :=
  if conn_closed conn then raise ProgrammingError else mret ().

Definition close (conn : Connection) : M Connection :=
  mret (MkConnection (conn_database conn) true (conn_foreign_keys conn)).

(** ** [database.py] *)

Definition connection (db : string) : Connection := MkConnection db false false.

(** The decorator.  The probe of [sqlite_temp_master] raises
    [ProgrammingError] on a closed handle; looking up [conn.excecute]
    raises [AttributeError] unless the handle has such a method; either is
    caught and the handle replaced by a fresh one on [db_name]. *)
Definition db_connect {Args A} (func : Connection → Args → M A)
    (conn : Connection) (args : Args) : M A :=
  name ← get_db_name;
  let conn1 :=
    if conn_closed conn then connection name
    else if has_method "excecute"
         then MkConnection (conn_database conn) (conn_closed conn) true
         else connection name in
  func conn1 args.

(** The script of [generate_tables]: CREATE TABLE IF NOT EXISTS, six times,
    between BEGIN and COMMIT. *)
Definition executescript_schema (conn : Connection) : M unit := λ w,
  if conn_closed conn then (Raised ProgrammingError, w)
  else
    (Returned (),
     set_store
       (foldl (λ db entry,
                 match db !! entry.1 with
                 | Some _ => db
                 | None => <[entry.1 := Table entry.2 0 []]> db
                 end)
              (store w) schema_script)
       w).

Definition generate_tables_wrapped (conn : Connection) (_ : unit) : M unit :=
  with_conn conn (executescript_schema conn).

Definition generate_tables (conn : Connection) : M unit :=
  db_connect generate_tables_wrapped conn ().

Fixpoint for_each {A} (items : list A) (body : A → M unit) : M unit :=
  match items with
  | [] => mret ()
  | x :: rest => _ ← body x; for_each rest body
  end.

Definition truncate_tables (conn : Connection) : M unit :=
  let tables := ["meals"; "ingredients"; "measures"] in
  _ ← with_conn conn
        (for_each tables (λ table,
           let query := "DELETE FROM " +:+ table +:+ ";" in
           _ ← execute conn query []; mret ()));
  commit conn.

Definition attribute_columns : gmap string string :=
  list_to_map [("meals", "meal_name");
               ("ingredients", "ingredient_name");
               ("measures", "measure_name");
               ("recipes", "recipe_name")].

Definition attribute_conf (table_name : pyval) : option string :=
  match table_name with
  | PStr name => attribute_columns !! name
  | _ => None
  end.

(** The run of blanks a backslash-continued string literal takes in from
    the next source line. *)
Fixpoint blanks (n : nat) : string :=
  match n with
  | O => ""
  | S k => String " " (blanks k)
  end.

(** [a, b = args]. *)
Definition unpack2 (args : list pyval) : outcome (pyval * pyval) :=
  match args with
  | [a; b] => Returned (a, b)
  | [] => Raised (ValueError "not enough values to unpack (expected 2, got 0)")
  | [_] => Raised (ValueError "not enough values to unpack (expected 2, got 1)")
  | _ => Raised (ValueError "too many values to unpack (expected 2)")
  end.

Definition unsupported (table_name : pyval) : exn :=
  ValueError ("Unsupported table name: " +:+ py_str table_name).

Definition insert_db_wrapped (conn : Connection) (args : list pyval) : M unit :=
  if negb (length args =? 2)%nat then
    raise (ValueError ("Function requires exactly 2 arguments: "
                       +:+ blanks 25 +:+ "table_name, attribute_value"))
  else
    '(table_name, attribute_value) ← lift (unpack2 args);
    match attribute_conf table_name with
    | None => raise (unsupported table_name)
    | Some attribute_column =>
        let query := "INSERT INTO (" +:+ attribute_column +:+ ") VALUES (:value);" in
        _ ← with_conn conn
              (execute conn query [("value", adapt attribute_value)]);
        commit conn
    end.

Definition insert_db := db_connect insert_db_wrapped.

Definition insert_to_recipe_wrapped (conn : Connection) (args : list pyval)
  : M unit :=
  if negb (length args =? 2)%nat then
    raise (ValueError ("Function requires exactly 2 arguments: "
                       +:+ blanks 26 +:+ "recipe_name and recipe_description"))
  else
    '(recipe_name, recipe_desc) ← lift (unpack2 args);
    let query := "INSERT INTO recipes([recipe_name], [recipe_description]) VALUES (:value1, :value2);" in
    _ ← with_conn conn
          (execute conn query [("value1", adapt recipe_name);
                               ("value2", adapt recipe_desc)]);
    commit conn.

Definition insert_to_recipe := db_connect insert_to_recipe_wrapped.

Definition insert_to_serve_wrapped (conn : Connection) (args : list pyval)
  : M unit :=
  if negb (length args =? 2)%nat then
    raise (ValueError ("Function requires exactly 2 arguments: "
                       +:+ blanks 26 +:+ "recipe_id and meal_id"))
  else
    '(recipe_id, meal_id) ← lift (unpack2 args);
    let query := "INSERT INTO serve([recipe_id], [meal_id]) VALUES (:value1, :value2);" in
    _ ← with_conn conn
          (execute conn query [("value1", adapt recipe_id);
                               ("value2", adapt meal_id)]);
    commit conn.

Definition insert_to_serve := db_connect insert_to_serve_wrapped.

Definition insert_ingredient_measure_wrapped (conn : Connection)
    (args : list pyval) : M unit :=
  if negb (length args =? 2)%nat then
    raise (ValueError ("Function requires exactly 2 arguments: "
                       +:+ blanks 26 +:+ "table_name and ingredient_name"))
  else
    '(table_name, attribute_value) ← lift (unpack2 args);
    match attribute_conf table_name with
    | None => raise (unsupported table_name)
    | Some attribute_column =>
        let query := "INSERT INTO " +:+ py_str table_name +:+ "("
                     +:+ attribute_column +:+ ") VALUES (:value);" in
        _ ← with_conn conn
              (execute conn query [("value", adapt attribute_value)]);
        commit conn
    end.

Definition insert_ingredient_measure := db_connect insert_ingredient_measure_wrapped.

Definition insert_to_quantity_wrapped (conn : Connection) (args : list pyval)
  : M unit :=
  if negb (length args =? 5)%nat then
    raise (ValueError ("Function requires exactly 5 arguments: "
                       +:+ blanks 26
                       +:+ "table_name, quantity, recipe_id, meal_id, ingredient_id"))
  else
    match args with
    | [table_name; quantity; recipe_id; measure_id; ingredient_id] =>
        let query := "INSERT INTO " +:+ py_str table_name
                     +:+ "(quantity, [recipe_id], "
                     +:+ "[measure_id], [ingredient_id]) VALUES (:value1, :value2, "
                     +:+ ":value3, :value4);" in
        _ ← with_conn conn
              (execute conn query [("value1", adapt quantity);
                                   ("value2", adapt recipe_id);
                                   ("value3", adapt measure_id);
                                   ("value4", adapt ingredient_id)]);
        commit conn
    | _ => raise (ValueError "too many values to unpack (expected 5)")
    end.

Definition insert_to_quantity := db_connect insert_to_quantity_wrapped.

(** The two positional arguments of [insert_many_db]: a table name and a
    sequence of values. *)
Definition insert_many_db_wrapped (conn : Connection)
    (args : pyval * list pyval) : M unit :=
  let '(table_name, attribute_values) := args in
  match attribute_conf table_name with
  | None => raise (unsupported table_name)
  | Some attribute_column =>
      let query := "INSERT INTO " +:+ py_str table_name +:+ " ("
                   +:+ attribute_column +:+ ") VALUES (:value);" in
      _ ← with_conn conn
            (executemany conn query
               ((λ value, [("value", adapt value)]) <$> attribute_values));
      commit conn
  end.

Definition insert_many_db := db_connect insert_many_db_wrapped.

Definition db_update_wrapped (conn : Connection) (args : list pyval) : M unit :=
  if negb (length args =? 3)%nat then
    raise (ValueError ("Function requires exactly 3 arguments: "
                       +:+ blanks 25
                       +:+ "table_name, attribute, and attribute_value"))
  else
    '(table_name, attribute_value) ← lift (unpack2 args);
    match attribute_conf table_name with
    | None => raise (unsupported table_name)
    | Some attribute_column =>
        let query := "UPDATE " +:+ py_str table_name +:+ " SET "
                     +:+ attribute_column +:+ " = :value;" in
        _ ← with_conn conn
              (execute conn query [("value", adapt attribute_value)]);
        commit conn
    end.

Definition db_update := db_connect db_update_wrapped.

(** The body of [db_remove] once its two names are bound (from "get
    attribute name" on). *)
Definition db_remove_statement (conn : Connection)
    (table_name attribute_value : pyval) : M unit :=
  match attribute_conf table_name with
  | None => raise (unsupported table_name)
  | Some attribute_column =>
      let query := "DELETE FROM " +:+ py_str table_name +:+ " WHERE "
                   +:+ attribute_column +:+ " = :value;" in
      _ ← with_conn conn
            (execute conn query [("value", adapt attribute_value)]);
      commit conn
  end.

Definition db_remove_wrapped (conn : Connection) (args : list pyval) : M unit :=
  if negb (length args =? 3)%nat then
    raise (ValueError ("Function requires exactly 3 arguments: "
                       +:+ blanks 25
                       +:+ "table_name, attribute, and attribute_value"))
  else
    '(table_name, attribute_value) ← lift (unpack2 args);
    db_remove_statement conn table_name attribute_value.

Definition db_remove := db_connect db_remove_wrapped.

(** [fetchone()]. *)
Definition fetchone (rows : list row) : option row := head rows.

Definition select_db_wrapped (conn : Connection) (args : list pyval)
  : M (option row) :=
  if negb (length args =? 2)%nat then
    raise (ValueError ("Function requires exactly 3 arguments: "
                       +:+ blanks 25
                       +:+ "table_name, attribute, and attribute_value"))
  else
    '(table_name, attribute_value) ← lift (unpack2 args);
    match attribute_conf table_name with
    | None => raise (unsupported table_name)
    | Some attribute_column =>
        let query := "SELECT * FROM " +:+ py_str table_name +:+ " WHERE "
                     +:+ attribute_column +:+ " = :value;" in
        rows ← execute conn query [("value", adapt attribute_value)];
        let result := fetchone rows in
        _ ← close conn;
        mret result
    end.

Definition select_db := db_connect select_db_wrapped.

Definition select_all_db_wrapped (conn : Connection) (args : list pyval)
  : M (list row) :=
  if negb (length args =? 1)%nat then
    raise (ValueError ("Function requires exactly 1 argument1: "
                       +:+ blanks 25 +:+ "table_name"))
  else
    let table_name := args in
    match table_name !! O with
    | None => raise (ValueError "tuple index out of range")
    | Some first =>
        let query := "SELECT * FROM " +:+ py_str first +:+ ";" in
        result ← execute conn query [];
        _ ← close conn;
        mret result
    end.

Definition select_all_db := db_connect select_all_db_wrapped.

(** [recipe[0] for recipe in result], joined: every item must be a [str]. *)
Fixpoint first_texts (result : list row) : outcome (list string) :=
  match result with
  | [] => Returned []
  | recipe :: rest =>
      match recipe with
      | VText name :: _ => names ← first_texts rest; Returned (name :: names)
      | _ => Raised TypeError
      end
  end.

Definition single_ingredient_query (meals : list string) : string :=
  "
               SELECT r.recipe_name
               FROM recipes r
               JOIN quantity q ON r.recipe_id = q.recipe_id
               JOIN ingredients i ON q.ingredient_id = i.ingredient_id
               JOIN serve s ON r.recipe_id = s.recipe_id
               JOIN meals m ON s.meal_id = m.meal_id
               WHERE (i.ingredient_name = 'cacao')
               AND (m.meal_name IN ("
  +:+ join "," ((λ meal, "'" +:+ meal +:+ "'") <$> meals)
  +:+ "))
               GROUP BY m.meal_name
               ;
               ".

Definition many_ingredients_query (ingredients meals : list string) : string :=
  "
           SELECT r.recipe_name
           FROM recipes r
           JOIN quantity q ON r.recipe_id = q.recipe_id
           JOIN ingredients i ON q.ingredient_id = i.ingredient_id
           JOIN serve s ON r.recipe_id = s.recipe_id
           JOIN meals m ON s.meal_id = m.meal_id
           WHERE ("
  +:+ join " OR " ((λ ingredient, "i.ingredient_name ='" +:+ ingredient +:+ "'")
                     <$> ingredients)
  +:+ ")
           AND (m.meal_name IN ("
  +:+ join "," ((λ meal, "'" +:+ meal +:+ "'") <$> meals)
  +:+ "))
           GROUP BY r.recipe_name
           HAVING COUNT(DISTINCT i.ingredient_name) = "
  +:+ py_str_nat (length ingredients)
  +:+ "
           ;
           ".

(** The two positional arguments of [find_recipes]: the ingredient names and
    the meal names. *)
Definition find_recipes_wrapped (conn : Connection)
    (args : list string * list string) : M string :=
  let '(ingredients, meals) := args in
  let query :=
    if (length ingredients =? 1)%nat then single_ingredient_query meals
    else many_ingredients_query ingredients meals in
  result ← execute conn query [];
  names ← lift (first_texts result);
  let recipe_names := join ", " names in
  _ ← close conn;
  mret recipe_names.

Definition find_recipes := db_connect find_recipes_wrapped.

End Module.

(** ** Stores, names and example runs used in the statements *)

(** One admissible behaviour of SQLite in a grouped query: read bare columns
    from the first row of the group, keep the groups in order of first
    appearance. *)
Definition first_row (g : list jrow) : jrow := default [] (head g).
Definition keep_order (gs : list (list jrow)) : list (list jrow) := gs.

(** A name that can stand between single quotes in SQL text as it is: no
    quote and no NUL character. *)
Fixpoint sql_plain (s : string) : bool :=
  match s with
  | "" => true
  | String c rest =>
      negb (Ascii.eqb c "'") && negb (char_code c =? 0)%N && sql_plain rest
  end.

Definition rows_of (db : database) (name : string) : list row :=
  match db !! name with
  | Some t => tbl_rows t
  | None => []
  end.

Definition is_text (v : value) : bool :=
  match v with VText _ => true | _ => false end.

(** The store has the six tables of [generate_tables], and every recipe row
    carries a text name (recipe_name TEXT NOT NULL). *)
Definition has_schema (db : database) : bool :=
  forallb (λ entry, match db !! entry.1 with
                    | Some t => bool_decide (tbl_schema t = entry.2)
                    | None => false
                    end) schema_script.

Definition recipes_named (db : database) : bool :=
  forallb (λ r, is_text (cell r 1)) (rows_of db "recipes").

(** A recipe row has a quantity line of an ingredient with the given name. *)
Definition uses (db : database) (recipe : row) (ingredient : string) : bool :=
  existsb (λ q, existsb (λ i, sql_eq (cell recipe 0) (cell q 2)
                              && sql_eq (cell q 4) (cell i 0)
                              && bool_decide (cell i 1 = VText ingredient))
                        (rows_of db "ingredients"))
          (rows_of db "quantity").

(** A recipe row has a serve line for a meal with the given name. *)
Definition served_at (db : database) (recipe : row) (meal : string) : bool :=
  existsb (λ s, existsb (λ m, sql_eq (cell recipe 0) (cell s 1)
                              && sql_eq (cell s 2) (cell m 0)
                              && bool_decide (cell m 1 = VText meal))
                        (rows_of db "meals"))
          (rows_of db "serve").

Definition served_at_any (db : database) (recipe : row) (meals : list string)
  : bool :=
  existsb (served_at db recipe) meals.

Definition recipe_named (db : database) (recipe : row) (name : string) : Prop :=
  recipe ∈ rows_of db "recipes" ∧ cell recipe 1 = VText name.

(** Runs of the module, as [blog.py] drives it. *)
Definition after {A} (m : M A) (w : world) : world := (m w).2.

Definition blog_db : string := "food_blog.db".
Definition blog_conn : Connection := connection blog_db.

(** An empty store file with [db_name] set. *)
Definition blank : world := World blog_db ∅ [].

(** After [generate_tables]. *)
Definition created : world := after (generate_tables blog_conn) blank.

(** After the start of [main]: tables created, reference tables reset and
    seeded. *)
Definition seeded : world :=
  let w := after (truncate_tables first_row keep_order blog_conn) created in
  let w := after (insert_many_db first_row keep_order blog_conn
                    (PStr "meals",
                     PStr <$> ["breakfast"; "brunch"; "lunch"; "supper"])) w in
  let w := after (insert_many_db first_row keep_order blog_conn
                    (PStr "ingredients",
                     PStr <$> ["milk"; "cacao"; "strawberry"; "blueberry";
                               "blackberry"; "sugar"])) w in
  after (insert_many_db first_row keep_order blog_conn
           (PStr "measures",
            PStr <$> ["ml"; "g"; "l"; "cup"; "tbsp"; "tsp"; "dsp"; ""])) w.

(** One recipe, "hot cacao": 2 tbsp cacao, 1 cup milk, served at breakfast. *)
Definition cocoa : world :=
  let w := after (insert_to_recipe first_row keep_order blog_conn
                    [PStr "hot cacao"; PStr "warm and sweet"]) seeded in
  let w := after (insert_to_serve first_row keep_order blog_conn
                    [PInt 1; PInt 1]) w in
  let w := after (insert_to_quantity first_row keep_order blog_conn
                    [PStr "quantity"; PInt 2; PInt 1; PInt 5; PInt 2]) w in
  after (insert_to_quantity first_row keep_order blog_conn
           [PStr "quantity"; PInt 1; PInt 1; PInt 4; PInt 1]) w.

(** Two recipes of the same name "cake", both served at lunch: the first
    takes milk only, the second sugar only. *)
Definition twins : world :=
  let w := after (insert_to_recipe first_row keep_order blog_conn
                    [PStr "cake"; PStr "with milk"]) seeded in
  let w := after (insert_to_recipe first_row keep_order blog_conn
                    [PStr "cake"; PStr "with sugar"]) w in
  let w := after (insert_to_serve first_row keep_order blog_conn
                    [PInt 1; PInt 3]) w in
  let w := after (insert_to_serve first_row keep_order blog_conn
                    [PInt 2; PInt 3]) w in
  let w := after (insert_to_quantity first_row keep_order blog_conn
                    [PStr "quantity"; PInt 1; PInt 1; PInt 4; PInt 1]) w in
  after (insert_to_quantity first_row keep_order blog_conn
           [PStr "quantity"; PInt 1; PInt 2; PInt 4; PInt 6]) w.

(** ** The statements of [find_recipes], as tokens, syntax and plans

    Used to state what the tokenizer, the parser and the name resolution
    make of the two query texts. *)

Definition quoted (x : string) : string := "'" +:+ x +:+ "'".

Fixpoint item_tokens (items : list string) : list token :=
  match items with
  | [] => []
  | x :: rest =>
      match rest with
      | [] => [TText x]
      | _ :: _ => TText x :: TComma :: item_tokens rest
      end
  end.

Definition comparison_tokens (x : string) : list token :=
  [TWord "i"; TDot; TWord "ingredient_name"; TEq; TText x].

Fixpoint alternative_tokens (items : list string) : list token :=
  match items with
  | [] => []
  | x :: rest =>
      match rest with
      | [] => comparison_tokens x
      | _ :: _ => comparison_tokens x ++ TWord "OR" :: alternative_tokens rest
      end
  end.

Definition col (t c : string) : colref := ColRef (Some t) c.

Definition on_equal (a b : colref) : condition := [[CEq (OColumn a) (OColumn b)]].

(** FROM recipes r JOIN quantity q ... JOIN meals m ... *)
Definition recipe_joins : list join_clause :=
  [JoinClause (TableRef "quantity" (Some "q"))
     (on_equal (col "r" "recipe_id") (col "q" "recipe_id"));
   JoinClause (TableRef "ingredients" (Some "i"))
     (on_equal (col "q" "ingredient_id") (col "i" "ingredient_id"));
   JoinClause (TableRef "serve" (Some "s"))
     (on_equal (col "r" "recipe_id") (col "s" "recipe_id"));
   JoinClause (TableRef "meals" (Some "m"))
     (on_equal (col "s" "meal_id") (col "m" "meal_id"))].

Definition meal_among (meals : list string) : list comparison :=
  [CIn (OColumn (col "m" "meal_name")) (OText <$> meals)].

Definition single_ingredient_select (meals : list string) : select_stmt :=
  SelectStmt (PColumn (col "r" "recipe_name"))
             (TableRef "recipes" (Some "r")) recipe_joins
             (Some [[CEq (OColumn (col "i" "ingredient_name")) (OText "cacao")];
                    meal_among meals])
             (Some (col "m" "meal_name")) None.

Definition many_ingredients_select (ingredients meals : list string)
  : select_stmt :=
  SelectStmt (PColumn (col "r" "recipe_name"))
             (TableRef "recipes" (Some "r")) recipe_joins
             (Some [(λ x, CEq (OColumn (col "i" "ingredient_name")) (OText x))
                      <$> ingredients;
                    meal_among meals])
             (Some (col "r" "recipe_name"))
             (Some [[CEq (OCountDistinct (col "i" "ingredient_name"))
                         (ONumber (Z.of_nat (length ingredients)))]]).

Definition select_tokens : list token :=
  [TWord "SELECT"; TWord "r"; TDot; TWord "recipe_name";
   TWord "FROM"; TWord "recipes"; TWord "r"].

Definition join_tokens : list token :=
  [TWord "JOIN"; TWord "quantity"; TWord "q"; TWord "ON";
   TWord "r"; TDot; TWord "recipe_id"; TEq; TWord "q"; TDot; TWord "recipe_id";
   TWord "JOIN"; TWord "ingredients"; TWord "i"; TWord "ON";
   TWord "q"; TDot; TWord "ingredient_id"; TEq;
   TWord "i"; TDot; TWord "ingredient_id";
   TWord "JOIN"; TWord "serve"; TWord "s"; TWord "ON";
   TWord "r"; TDot; TWord "recipe_id"; TEq; TWord "s"; TDot; TWord "recipe_id";
   TWord "JOIN"; TWord "meals"; TWord "m"; TWord "ON";
   TWord "s"; TDot; TWord "meal_id"; TEq; TWord "m"; TDot; TWord "meal_id"].

(** ( m.meal_name IN ( 'a','b' ) ) *)
Definition meal_tokens (meals : list string) (rest : list token) : list token :=
  TLParen :: TWord "m" :: TDot :: TWord "meal_name" :: TWord "IN" :: TLParen
  :: item_tokens meals ++ TRParen :: TRParen :: rest.

Definition single_tokens (meals : list string) : list token :=
  select_tokens ++ join_tokens
  ++ TWord "WHERE" :: TLParen :: comparison_tokens "cacao"
  ++ TRParen :: TWord "AND"
  :: meal_tokens meals
       [TWord "GROUP"; TWord "BY"; TWord "m"; TDot; TWord "meal_name"; TSemi].

Definition many_tokens (ingredients meals : list string) : list token :=
  select_tokens ++ join_tokens
  ++ TWord "WHERE" :: TLParen :: alternative_tokens ingredients
  ++ TRParen :: TWord "AND"
  :: meal_tokens meals
       [TWord "GROUP"; TWord "BY"; TWord "r"; TDot; TWord "recipe_name";
        TWord "HAVING"; TWord "COUNT"; TLParen; TWord "DISTINCT";
        TWord "i"; TDot; TWord "ingredient_name"; TRParen; TEq;
        TNumber (py_str_nat (length ingredients)); TSemi].

Definition link (i j i' j' : nat) : rcondition := [[REq (RCol i j) (RCol i' j')]].

Definition recipe_plan_joins (db : database) : list (list row * rcondition) :=
  [(rows_of db "quantity", link 0 0 1 2);
   (rows_of db "ingredients", link 1 4 2 0);
   (rows_of db "serve", link 0 0 3 1);
   (rows_of db "meals", link 3 2 4 0)].

Definition meal_in (meals : list string) : list rcomparison :=
  [RIn (RCol 4 1) ((λ meal, RConst (VText meal)) <$> meals)].

Definition single_plan (db : database) (meals : list string) : plan :=
  Plan (rows_of db "recipes") (recipe_plan_joins db)
       [[REq (RCol 2 1) (RConst (VText "cacao"))]; meal_in meals]
       (Some (4, 1)%nat) [] (Some (0, 1)%nat).

Definition many_plan (db : database) (ingredients meals : list string) : plan :=
  Plan (rows_of db "recipes") (recipe_plan_joins db)
       [(λ x, REq (RCol 2 1) (RConst (VText x))) <$> ingredients; meal_in meals]
       (Some (0, 1)%nat)
       [[REq (RCountDistinct 2 1) (RConst (VInt (Z.of_nat (length ingredients))))]]
       (Some (0, 1)%nat).

Definition recipe_header : header :=
  [("r", ["recipe_id"; "recipe_name"; "recipe_description"]);
   ("q", ["quantity_id"; "quantity"; "recipe_id"; "measure_id"; "ingredient_id"]);
   ("i", ["ingredient_id"; "ingredient_name"]);
   ("s", ["serve_id"; "recipe_id"; "meal_id"]);
   ("m", ["meal_id"; "meal_name"])].

(** Five rows, one per table, that the joins put side by side. *)
Definition linked (db : database) (r q i s m : row) : Prop :=
  r ∈ rows_of db "recipes" ∧ q ∈ rows_of db "quantity"
  ∧ i ∈ rows_of db "ingredients" ∧ s ∈ rows_of db "serve"
  ∧ m ∈ rows_of db "meals"
  ∧ sql_eq (cell r 0) (cell q 2) = true
  ∧ sql_eq (cell q 4) (cell i 0) = true
  ∧ sql_eq (cell r 0) (cell s 1) = true
  ∧ sql_eq (cell s 2) (cell m 0) = true.

(** What [find_recipes] makes of the rows of its query. *)
Definition recipe_names (result : list row) : outcome string :=
  names ← first_texts result; Returned (join ", " names).

(** ** [blog.py]

    The command-line program: [parse_arguments] after [argparse] has read
    the command line, [execute_after_pars], and [main] up to its
    interactive loop.  The store of the world is the file named on the
    command line. *)

(** [s.split(sep)] for a one-character separator: the pieces between the
    separators, empty pieces kept, one piece more than separators. *)
Fixpoint split (sep : ascii) (s : string) : list string :=
  match s with
  | "" => [""]
  | String c rest =>
      if Ascii.eqb c sep then "" :: split sep rest
      else match split sep rest with
           | piece :: pieces => String c piece :: pieces
           | [] => [String c ""]
           end
  end.

(** What [args.ingredients] and [args.meals] can hold when [parse_arguments]
    returns: [None] (option not given), the empty string (given empty, left
    as it is because it is falsy), or the list of the pieces. *)
Inductive option_value :=
| NotGiven
| Blank
| Items (items : list string).

Record Namespace := MkNamespace {
  database_file : string;
  ingredients : option_value;
  meals : option_value
}.

(** [if value: value = value.split(",")]. *)
Definition split_option (given : option string) : option_value :=
  match given with
  | None => NotGiven
  | Some "" => Blank
  | Some s => Items (split "," s)
  end.

(** [parse_arguments], from the values [parser.parse_args()] read: the
    positional file name and the two optional texts. *)
Definition parse_arguments (file : string) (ingredients meals : option string)
  : Namespace :=
  MkNamespace file (split_option ingredients) (split_option meals).

(** Truth value of an option, as [if] and [or] take it. *)
Definition truthy (v : option_value) : bool :=
  match v with
  | Items (_ :: _) => true
  | _ => false
  end.

(** The items [len] counts and [for] visits: [None] has neither and raises
    [TypeError]; the empty string has none. *)
Definition sequence (v : option_value) : outcome (list string) :=
  match v with
  | NotGiven => Raised TypeError
  | Blank => Returned []
  | Items items => Returned items
  end.

(** The reference data of [main], in the order of the dictionary. *)
Definition data : list (string * list string) :=
  [("meals", ["breakfast"; "brunch"; "lunch"; "supper"]);
   ("ingredients", ["milk"; "cacao"; "strawberry"; "blueberry"; "blackberry";
                    "sugar"]);
   ("measures", ["ml"; "g"; "l"; "cup"; "tbsp"; "tsp"; "dsp"; ""])].

(** [db.db_name = name]. *)
Definition set_db_name (name : string) : M unit := λ w,
  (Returned (), World name (store w) (journal w)).

Section Blog.

Variable choose : list jrow → jrow.
Variable arrange : list (list jrow) → list (list jrow).

(** [db.find_recipes(connection, args.ingredients, args.meals)]: the body
    of [find_recipes] takes [len(ingredients)] and iterates over both. *)
Definition find_recipes_given (conn : Connection) (args : Namespace) : M string :=
  ingredient_items ← lift (sequence (ingredients args));
  meal_items ← lift (sequence (meals args));
  find_recipes choose arrange conn (ingredient_items, meal_items).

(** [execute_after_pars]; the result is the line it prints. *)
Definition execute_after_pars (connection : Connection) (args : Namespace)
  : M string :=
  recipe_suggestions ← find_recipes_given connection args;
  if (String.length recipe_suggestions =? 0)%nat then mret "no such recipes"
  else mret ("Recipe selected for you:  " +:+ recipe_suggestions).

(** [main] up to its interactive loop: [Some] line when it prints the
    suggestions and exits, [None] when it goes on to ask for recipes. *)
Definition main (file : string) (given_ingredients given_meals : option string)
  : M (option string) :=
  let args := parse_arguments file given_ingredients given_meals in
  _ ← set_db_name (database_file args);
  name ← get_db_name;
  let connection := connection name in
  _ ← generate_tables connection;
  _ ← truncate_tables choose arrange connection;
  _ ← for_each data (λ entry,
        insert_many_db choose arrange connection
                       (PStr entry.1, PStr <$> entry.2));
  if truthy (meals args) || truthy (ingredients args) then
    line ← execute_after_pars connection args;
    mret (Some line)
  else mret None.

End Blog.

(** No table of the store under one of the six names has other columns
    than the script of [generate_tables] declares. *)
Definition fits_schema (db : database) : Prop :=
  ∀ name sch t, (name, sch) ∈ schema_script → db !! name = Some t →
                tbl_schema t = sch.

(** Whether a character occurs in a text. *)
Fixpoint occurs (c : ascii) (s : string) : bool :=
  match s with
  | "" => false
  | String c1 rest => Ascii.eqb c1 c || occurs c rest
  end.

(** ** Names and keys of the reference tables

    Used to state what the inserts and the look-ups do to a table. *)

(** The values in the name column (the second) of the rows of a table. *)
Definition names_of (rows : list row) : list value := (λ r, cell r 1) <$> rows.

(** The rows a run of names takes from key [k] on. *)
Fixpoint numbered (k : Z) (names : list string) : list row :=
  match names with
  | [] => []
  | x :: rest => [VInt k; VText x] :: numbered (k + 1) rest
  end.

(** * Properties *)

(** ** Sanity checks of the model on the text the module issues *)

Example tokenize_select_by_name :
  tokenize "SELECT * FROM meals WHERE meal_name = :value;"
  = Some [TWord "SELECT"; TStar; TWord "FROM"; TWord "meals"; TWord "WHERE";
          TWord "meal_name"; TEq; TParam "value"; TSemi].
Proof. reflexivity. Qed.

Example parse_insert_serve :
  parse_sql "INSERT INTO serve([recipe_id], [meal_id]) VALUES (:value1, :value2);"
  = Some (SInsert "serve" ["recipe_id"; "meal_id"]
                  [OParam "value1"; OParam "value2"]).
Proof. reflexivity. Qed.

Example seeded_meals :
  rows_of (store seeded) "meals"
  = [[VInt 1; VText "breakfast"]; [VInt 2; VText "brunch"];
     [VInt 3; VText "lunch"]; [VInt 4; VText "supper"]].
Proof. vm_compute. reflexivity. Qed.

Example seeded_has_schema : has_schema (store seeded) = true.
Proof. vm_compute. reflexivity. Qed.

Example cocoa_rows :
  rows_of (store cocoa) "recipes" = [[VInt 1; VText "hot cacao"; VText "warm and sweet"]]
  ∧ rows_of (store cocoa) "serve" = [[VInt 1; VInt 1; VInt 1]]
  ∧ rows_of (store cocoa) "quantity"
    = [[VInt 1; VInt 2; VInt 1; VInt 5; VInt 2];
       [VInt 2; VInt 1; VInt 1; VInt 4; VInt 1]].
Proof. vm_compute. auto. Qed.

(** ** The table registry *)

(** C8: [attribute_conf] is a total lookup: it gives meal_name for "meals",
    ingredient_name for "ingredients", measure_name for "measures",
    recipe_name for "recipes", and [None] for every other string, "serve"
    among them. *)
Theorem attribute_conf_registry :
  attribute_conf (PStr "meals") = Some "meal_name"
  ∧ attribute_conf (PStr "ingredients") = Some "ingredient_name"
  ∧ attribute_conf (PStr "measures") = Some "measure_name"
  ∧ attribute_conf (PStr "recipes") = Some "recipe_name"
  ∧ attribute_conf (PStr "serve") = None
  ∧ ∀ name : string,
      (name ∉ ["meals"; "ingredients"; "measures"; "recipes"]) →
      attribute_conf (PStr name) = None.
Proof.
  repeat split; try reflexivity.
  intros name Hname. unfold attribute_conf, attribute_columns. simpl.
  rewrite !lookup_insert_ne; [apply lookup_empty | | | |];
    intros <-; apply Hname;
    rewrite !elem_of_cons; tauto.
Qed.

Lemma attribute_conf_registry_witness :
  ("serve" ∉ ["meals"; "ingredients"; "measures"; "recipes"])
  ∧ attribute_conf (PStr "serve") = None.
Proof.
  assert (H : "serve" ∉ ["meals"; "ingredients"; "measures"; "recipes"]).
  { intros H. repeat (apply elem_of_cons in H as [H|H]; [discriminate H|]).
    by apply elem_of_nil in H. }
  split; [exact H|].
  exact (proj2 (proj2 (proj2 (proj2 (proj2 attribute_conf_registry)))) "serve" H).
Defined.

(** ** The decorator and the cursor *)

Section Plumbing.

Variable choose : list jrow → jrow.
Variable arrange : list (list jrow) → list (list jrow).

(** Whatever handle it is given, the decorator passes on a fresh one. *)
Lemma db_connect_fresh {Args A} (func : Connection → Args → M A) conn args w :
  db_connect func conn args w = func (connection (db_name w)) args w.
Proof.
  unfold db_connect, mbind, M_bind, get_db_name.
  destruct (conn_closed conn); reflexivity.
Qed.

Lemma execute_journal conn query b w :
  conn_closed conn = false →
  journal (execute choose arrange conn query b w).2
  = journal w ++ [(query, [b])].
Proof.
  intros Hopen. unfold execute. rewrite Hopen.
  destruct (has_nul query); [reflexivity|].
  destruct (parse_sql query) as [st|]; [|reflexivity].
  simpl. destruct (run_statement _ _ _ _ _ _) as [[db rows]|e]; reflexivity.
Qed.

Lemma executemany_journal conn query bs w :
  conn_closed conn = false →
  journal (executemany choose arrange conn query bs w).2
  = journal w ++ [(query, bs)].
Proof.
  intros Hopen. unfold executemany. rewrite Hopen.
  destruct (has_nul query); [reflexivity|].
  destruct (parse_sql query) as [[]|]; try reflexivity;
    simpl; destruct (run_each _ _ _ _ _ _) as [[]]; reflexivity.
Qed.

Lemma with_conn_journal {A} conn (body : M A) w :
  journal (with_conn conn body w).2 = journal (body w).2.
Proof. unfold with_conn. destruct (body w) as [[a|e] w1]; reflexivity. Qed.

(** A statement run in [with conn:] and committed leaves its text and its
    bindings in the journal, whatever its fate. *)
Lemma submitted_journal {A} conn (stmt : M A) w entry :
  conn_closed conn = false →
  journal (stmt w).2 = journal w ++ [entry] →
  journal (after (_ ← with_conn conn stmt; commit conn) w)
  = journal w ++ [entry].
Proof.
  intros Hopen Hj. unfold after, mbind, M_bind.
  pose proof (with_conn_journal conn stmt w) as Hw. rewrite Hj in Hw.
  destruct (with_conn conn stmt w) as [[a|e] w1]; simpl in *; [|done].
  unfold commit. rewrite Hopen. done.
Qed.

End Plumbing.

(** ** Checking the table name *)

(** [select_all_db] runs its query on "serve", a name outside the registry. *)
Lemma select_all_db_unchecked :
  attribute_conf (PStr "serve") = None
  ∧ select_all_db first_row keep_order blog_conn [PStr "serve"] cocoa
    = (Returned [[VInt 1; VInt 1; VInt 1]],
       log_statement "SELECT * FROM serve;" [[]] cocoa).
Proof. split; vm_compute; reflexivity. Qed.

(** C7 (amended): [insert_db], [insert_ingredient_measure],
    [insert_many_db] and [select_db] look their table name up in the
    registry before building a query and raise ValueError "Unsupported table
    name: ..." on a name outside it, leaving the world untouched;
    [select_all_db] and [insert_to_quantity] do not consult the registry and
    submit the query for whatever table name they are given. *)
Theorem registry_checked_where_consulted choose arrange conn w
    (table_name value q r m i : pyval) (values : list pyval) :
  (attribute_conf table_name = None →
   insert_db choose arrange conn [table_name; value] w
   = (Raised (unsupported table_name), w)
   ∧ insert_ingredient_measure choose arrange conn [table_name; value] w
     = (Raised (unsupported table_name), w)
   ∧ insert_many_db choose arrange conn (table_name, values) w
     = (Raised (unsupported table_name), w)
   ∧ select_db choose arrange conn [table_name; value] w
     = (Raised (unsupported table_name), w))
  ∧ journal (after (select_all_db choose arrange conn [table_name]) w)
    = journal w ++ [("SELECT * FROM " +:+ py_str table_name +:+ ";", [[]])]
  ∧ journal (after (insert_to_quantity choose arrange conn
                      [table_name; q; r; m; i]) w)
    = journal w
      ++ [("INSERT INTO " +:+ py_str table_name +:+ "(quantity, [recipe_id], "
           +:+ "[measure_id], [ingredient_id]) VALUES (:value1, :value2, "
           +:+ ":value3, :value4);",
           [[("value1", adapt q); ("value2", adapt r);
             ("value3", adapt m); ("value4", adapt i)]])].
Proof.
  split; [|split].
  - intros Hc. unfold insert_db, insert_ingredient_measure, insert_many_db,
      select_db. rewrite !db_connect_fresh.
    unfold insert_db_wrapped, insert_ingredient_measure_wrapped,
      insert_many_db_wrapped, select_db_wrapped.
    simpl. unfold mbind, M_bind, lift. rewrite Hc. done.
  - unfold after, select_all_db. rewrite db_connect_fresh.
    unfold select_all_db_wrapped. simpl. unfold mbind, M_bind.
    pose proof (execute_journal choose arrange (connection (db_name w))
      ("SELECT * FROM " +:+ py_str table_name +:+ ";") [] w eq_refl) as Hj.
    destruct (execute _ _ _ _ _ w) as [[rows|e] w1]; exact Hj.
  - unfold insert_to_quantity, after. rewrite db_connect_fresh.
    unfold insert_to_quantity_wrapped. simpl.
    apply submitted_journal; [reflexivity|].
    by apply execute_journal.
Qed.

Lemma registry_checked_where_consulted_witness :
  attribute_conf (PStr "serve") = None
  ∧ insert_db first_row keep_order blog_conn [PStr "serve"; PStr "x"] cocoa
    = (Raised (ValueError "Unsupported table name: serve"), cocoa).
Proof.
  split; [reflexivity|].
  exact (proj1 (proj1 (registry_checked_where_consulted first_row keep_order
           blog_conn cocoa (PStr "serve") (PStr "x")
           PNone PNone PNone PNone []) eq_refl)).
Defined.

(** ** Bound values *)

(** C10: in the batch insert, the ingredient/measure insert, the select by
    name and the delete by name, the text handed to the cursor does not
    depend on the attribute value: two calls that differ only in the value
    submit the same texts, and for a table of the registry the value
    travels as the binding of [:value] (for the delete, in the statement
    its body builds). *)
Theorem value_bound_not_interpolated choose arrange conn w
    (table_name v1 v2 : pyval) (vs1 vs2 : list pyval) :
  let texts (m : M unit) := (journal (after m w)).*1 in
  texts (insert_many_db choose arrange conn (table_name, vs1))
  = texts (insert_many_db choose arrange conn (table_name, vs2))
  ∧ texts (insert_ingredient_measure choose arrange conn [table_name; v1])
    = texts (insert_ingredient_measure choose arrange conn [table_name; v2])
  ∧ (journal (after (select_db choose arrange conn [table_name; v1]) w)).*1
    = (journal (after (select_db choose arrange conn [table_name; v2]) w)).*1
  ∧ texts (db_remove choose arrange conn [table_name; v1])
    = texts (db_remove choose arrange conn [table_name; v2])
  ∧ ∀ column, attribute_conf table_name = Some column →
      journal (after (insert_many_db choose arrange conn (table_name, vs1)) w)
      = journal w
        ++ [("INSERT INTO " +:+ py_str table_name +:+ " (" +:+ column
             +:+ ") VALUES (:value);",
             (λ v, [("value", adapt v)]) <$> vs1)]
      ∧ journal (after (insert_ingredient_measure choose arrange conn
                          [table_name; v1]) w)
        = journal w
          ++ [("INSERT INTO " +:+ py_str table_name +:+ "(" +:+ column
               +:+ ") VALUES (:value);",
               [[("value", adapt v1)]])]
      ∧ journal (after (select_db choose arrange conn [table_name; v1]) w)
        = journal w
          ++ [("SELECT * FROM " +:+ py_str table_name +:+ " WHERE " +:+ column
               +:+ " = :value;",
               [[("value", adapt v1)]])]
      ∧ journal (after (db_remove_statement choose arrange
                          (connection (db_name w)) table_name v1) w)
        = journal w
          ++ [("DELETE FROM " +:+ py_str table_name +:+ " WHERE " +:+ column
               +:+ " = :value;",
               [[("value", adapt v1)]])].
Proof.
  assert (Hdel : ∀ v column, attribute_conf table_name = Some column →
    journal (after (db_remove_statement choose arrange
                      (connection (db_name w)) table_name v) w)
    = journal w
      ++ [("DELETE FROM " +:+ py_str table_name +:+ " WHERE " +:+ column
           +:+ " = :value;", [[("value", adapt v)]])]).
  { intros v column Hc. unfold db_remove_statement. rewrite Hc.
    apply submitted_journal; [reflexivity|].
    by apply execute_journal. }
  assert (Hmany : ∀ vs column, attribute_conf table_name = Some column →
    journal (after (insert_many_db choose arrange conn (table_name, vs)) w)
    = journal w
      ++ [("INSERT INTO " +:+ py_str table_name +:+ " (" +:+ column
           +:+ ") VALUES (:value);", (λ v, [("value", adapt v)]) <$> vs)]).
  { intros vs column Hc. unfold after, insert_many_db.
    rewrite db_connect_fresh. unfold insert_many_db_wrapped. rewrite Hc.
    apply submitted_journal; [reflexivity|].
    by apply executemany_journal. }
  assert (Hone : ∀ v column, attribute_conf table_name = Some column →
    journal (after (insert_ingredient_measure choose arrange conn
                      [table_name; v]) w)
    = journal w
      ++ [("INSERT INTO " +:+ py_str table_name +:+ "(" +:+ column
           +:+ ") VALUES (:value);", [[("value", adapt v)]])]).
  { intros v column Hc. unfold after, insert_ingredient_measure.
    rewrite db_connect_fresh. unfold insert_ingredient_measure_wrapped.
    simpl. unfold mbind at 1, M_bind at 1, lift. rewrite Hc.
    apply submitted_journal; [reflexivity|].
    by apply execute_journal. }
  assert (Hsel : ∀ v column, attribute_conf table_name = Some column →
    journal (after (select_db choose arrange conn [table_name; v]) w)
    = journal w
      ++ [("SELECT * FROM " +:+ py_str table_name +:+ " WHERE " +:+ column
           +:+ " = :value;", [[("value", adapt v)]])]).
  { intros v column Hc. unfold after, select_db.
    rewrite db_connect_fresh. unfold select_db_wrapped.
    simpl. unfold mbind at 1, M_bind at 1, lift. rewrite Hc.
    unfold mbind, M_bind.
    pose proof (execute_journal choose arrange (connection (db_name w))
      ("SELECT * FROM " +:+ py_str table_name +:+ " WHERE " +:+ column
       +:+ " = :value;") [("value", adapt v)] w eq_refl) as Hj.
    destruct (execute _ _ _ _ _ w) as [[rows|e] w1]; exact Hj. }
  assert (Hnone : attribute_conf table_name = None → ∀ v vs,
    after (insert_many_db choose arrange conn (table_name, vs)) w = w
    ∧ after (insert_ingredient_measure choose arrange conn [table_name; v]) w = w
    ∧ after (select_db choose arrange conn [table_name; v]) w = w).
  { intros Hc v vs. unfold after, insert_many_db, insert_ingredient_measure,
      select_db. rewrite !db_connect_fresh.
    unfold insert_many_db_wrapped, insert_ingredient_measure_wrapped,
      select_db_wrapped. simpl. unfold mbind, M_bind, lift. rewrite Hc.
    done. }
  assert (Hrem : ∀ v,
    after (db_remove choose arrange conn [table_name; v]) w = w).
  { intros v. unfold after, db_remove. by rewrite db_connect_fresh. }
  intros texts. subst texts. simpl. rewrite !Hrem.
  destruct (attribute_conf table_name) as [column|] eqn:Hc.
  - rewrite !(Hmany _ column), !(Hone _ column), !(Hsel _ column),
      !(Hdel _ column) by done.
    rewrite !fmap_app. simpl. repeat split; try done.
    all: by simplify_eq.
  - destruct (Hnone eq_refl v1 vs1) as (-> & -> & ->).
    destruct (Hnone eq_refl v2 vs2) as (-> & -> & ->).
    repeat split; try done.
Qed.

Lemma value_bound_not_interpolated_witness :
  attribute_conf (PStr "meals") = Some "meal_name"
  ∧ journal (after (select_db first_row keep_order blog_conn
                      [PStr "meals"; PStr "brunch"]) blank)
    = [("SELECT * FROM meals WHERE meal_name = :value;",
        [[("value", VText "brunch")]])].
Proof.
  split; [reflexivity|].
  destruct (value_bound_not_interpolated first_row keep_order blog_conn blank
              (PStr "meals") (PStr "brunch") (PStr "lunch") [] [])
    as (_ & _ & _ & _ & Hbound).
  destruct (Hbound "meal_name" eq_refl) as (_ & _ & Hselect & _).
  exact Hselect.
Defined.

(** ** Inserting one value *)

(** C2: [insert_db] on a table of the registry is meant to insert one row.
    Its statement text lacks the table name, so for each of the four tables
    and every value the call raises OperationalError and the store is
    unchanged; after [insert_db(conn, "meals", "brunch")] on the empty
    tables, [select_db(conn, "meals", "brunch")] finds nothing, while after
    the same call of [insert_ingredient_measure], whose text names the
    table, it finds the row. *)
Theorem insert_db_malformed choose arrange conn (value : pyval) w :
  Forall (λ entry : string * string,
            attribute_conf (PStr entry.1) = Some entry.2
            ∧ insert_db choose arrange conn [PStr entry.1; value] w
              = (Raised OperationalError,
                 log_statement ("INSERT INTO (" +:+ entry.2
                                +:+ ") VALUES (:value);")
                               [[("value", adapt value)]] w))
         [("meals", "meal_name"); ("ingredients", "ingredient_name");
          ("measures", "measure_name"); ("recipes", "recipe_name")]
  ∧ parse_sql "INSERT INTO (meal_name) VALUES (:value);" = None
  ∧ (insert_db choose arrange conn [PStr "meals"; PStr "brunch"] created).1
    = Raised OperationalError
  ∧ (select_db choose arrange conn [PStr "meals"; PStr "brunch"]
       (after (insert_db choose arrange conn [PStr "meals"; PStr "brunch"])
              created)).1
    = Returned None
  ∧ (select_db choose arrange conn [PStr "meals"; PStr "brunch"]
       (after (insert_ingredient_measure choose arrange conn
                 [PStr "meals"; PStr "brunch"])
              created)).1
    = Returned (Some [VInt 1; VText "brunch"]).
Proof.
  split; [|split; [|split; [|split]]].
  - repeat (constructor;
              [split; [reflexivity|];
               unfold insert_db; rewrite db_connect_fresh; reflexivity|]).
    constructor.
  - reflexivity.
  - destruct conn as [p [] f]; vm_compute; reflexivity.
  - destruct conn as [p [] f]; vm_compute; reflexivity.
  - destruct conn as [p [] f]; vm_compute; reflexivity.
Qed.

(** ** Deleting by name *)

(** C3: [db_remove] called with a table name and a value is meant to delete
    the rows of that name.  The code never gets there: the arity guard
    wants three arguments and the unpacking two, so every call raises
    ValueError and leaves the world as it was; in particular
    [db_remove(conn, "meals", "brunch")] on the seeded store raises and the
    "brunch" row is still found afterwards.  The statement below the guard,
    run on its own, deletes that row and no other. *)
Theorem db_remove_raises choose arrange conn :
  (∀ args w, ∃ msg,
      db_remove choose arrange conn args w = (Raised (ValueError msg), w))
  ∧ (db_remove choose arrange conn [PStr "meals"; PStr "brunch"] seeded).1
    = Raised (ValueError ("Function requires exactly 3 arguments: "
                          +:+ blanks 25
                          +:+ "table_name, attribute, and attribute_value"))
  ∧ (select_db choose arrange conn [PStr "meals"; PStr "brunch"]
       (after (db_remove choose arrange conn [PStr "meals"; PStr "brunch"])
              seeded)).1
    = Returned (Some [VInt 2; VText "brunch"])
  ∧ rows_of (store (after (db_remove_statement choose arrange blog_conn
                             (PStr "meals") (PStr "brunch")) seeded)) "meals"
    = [[VInt 1; VText "breakfast"]; [VInt 3; VText "lunch"];
       [VInt 4; VText "supper"]].
Proof.
  split; [|split; [|split]].
  - intros args w.
    destruct args as [|a [|b [|c [|d rest]]]]; eexists; reflexivity.
  - reflexivity.
  - destruct conn as [p [] f]; vm_compute; reflexivity.
  - vm_compute; reflexivity.
Qed.

(** [db_update] has the same guard and the same unpacking: it raises
    [ValueError] for every argument list (the guard asks for three
    arguments, the unpacking for two) and leaves the world as it was, no
    statement submitted. *)
Lemma db_update_raises choose arrange conn args w :
  ∃ msg, db_update choose arrange conn args w = (Raised (ValueError msg), w).
Proof.
  destruct args as [|a [|b [|c [|d rest]]]]; eexists; reflexivity.
Qed.

(** ** Foreign keys *)

(** C1: an insert of a serve or quantity row that refers to a missing
    recipe, meal, measure or ingredient is meant to fail.  On the seeded
    store, which has no recipe at all, [insert_to_serve(conn, 9999, 1)]
    returns normally and the row is there afterwards, and so does a
    quantity row with three missing references: the decorator never turns
    foreign keys on.  On a handle with foreign keys on, the same insert
    raises IntegrityError. *)
Theorem dangling_serve_accepted choose arrange conn :
  rows_of (store seeded) "recipes" = []
  ∧ rows_of (store seeded) "serve" = []
  ∧ (insert_to_serve choose arrange conn [PInt 9999; PInt 1] seeded).1
    = Returned ()
  ∧ rows_of (store (after (insert_to_serve choose arrange conn
                             [PInt 9999; PInt 1]) seeded)) "serve"
    = [[VInt 1; VInt 9999; VInt 1]]
  ∧ (insert_to_quantity choose arrange conn
       [PStr "quantity"; PInt 3; PInt 9999; PInt 77; PInt 88] seeded).1
    = Returned ()
  ∧ rows_of (store (after (insert_to_quantity choose arrange conn
                             [PStr "quantity"; PInt 3; PInt 9999; PInt 77;
                              PInt 88]) seeded)) "quantity"
    = [[VInt 1; VInt 3; VInt 9999; VInt 77; VInt 88]]
  ∧ insert_to_serve_wrapped choose arrange
      (MkConnection blog_db false true) [PInt 9999; PInt 1] seeded
    = (Raised IntegrityError,
       log_statement
         "INSERT INTO serve([recipe_id], [meal_id]) VALUES (:value1, :value2);"
         [[("value1", VInt 9999); ("value2", VInt 1)]] seeded).
Proof.
  destruct conn as [p [] f]; vm_compute; repeat split; reflexivity.
Qed.

(** ** Resetting the reference tables *)

Section Truncate.

Variable choose : list jrow → jrow.
Variable arrange : list (list jrow) → list (list jrow).

Lemma filter_none {A} (P : A → Prop) `{∀ x, Decision (P x)} (l : list A) :
  (∀ x, ¬ P x) → filter P l = [].
Proof.
  intros Hno. induction l as [|x l IH]; [done|].
  rewrite filter_cons. destruct (decide (P x)) as [HP|_]; [|done].
  by destruct (Hno x).
Qed.

(** DELETE without WHERE, foreign keys not enforced: the table is emptied
    and nothing else changes. *)
Lemma execute_delete_all conn name t w :
  conn_closed conn = false →
  conn_foreign_keys conn = false →
  has_nul ("DELETE FROM " +:+ name +:+ ";") = false →
  parse_sql ("DELETE FROM " +:+ name +:+ ";") = Some (SDelete name None) →
  store w !! name = Some t →
  execute choose arrange conn ("DELETE FROM " +:+ name +:+ ";") [] w
  = (Returned [],
     set_store (<[name := with_rows t []]> (store w))
               (log_statement ("DELETE FROM " +:+ name +:+ ";") [[]] w)).
Proof.
  intros Hopen Hfk Hnul Hparse Ht. unfold execute.
  rewrite Hopen, Hnul, Hparse, Hfk. simpl.
  unfold run_delete, find_table. rewrite Ht. simpl.
  rewrite filter_none; [done|].
  intros r. unfold holds. simpl. tauto.
Qed.


End Truncate.


(** ** The tokenizer on the texts of [find_recipes] *)

Lemma append_cons c s t : String c s +:+ t = String c (s +:+ t).
Proof. reflexivity. Qed.

Lemma append_empty_l t : "" +:+ t = t.
Proof. reflexivity. Qed.

Lemma append_assoc s t u : (s +:+ t) +:+ u = s +:+ (t +:+ u).
Proof.
  induction s as [|c s IH]; [done|]. by rewrite !append_cons, IH.
Qed.

Lemma scan_app m s1 s2 :
  scan m (s1 +:+ s2)
  = '(t1, m1) ← scan m s1; '(t2, m2) ← scan m1 s2; Some (t1 ++ t2, m2).
Proof.
  revert m. induction s1 as [|c s1 IH]; intros m.
  - rewrite append_empty_l. simpl. by destruct (scan m s2) as [[t2 m2]|].
  - rewrite append_cons. simpl.
    destruct (lex_step m c) as [[out m1]|]; [|done]. simpl.
    rewrite IH. destruct (scan m1 s1) as [[t1 m2]|]; [|done]. simpl.
    destruct (scan m2 s2) as [[t2 m3]|]; [|done]. simpl.
    by rewrite (assoc_L (++)).
Qed.

(** A known prefix, then the rest. *)
Lemma scan_prefix m s1 s2 t1 m1 :
  scan m s1 = Some (t1, m1) →
  scan m (s1 +:+ s2) = '(t2, m2) ← scan m1 s2; Some (t1 ++ t2, m2).
Proof. intros H. by rewrite scan_app, H. Qed.

Lemma scan_text acc x :
  sql_plain x = true → scan (LText acc) x = Some ([], LText (acc +:+ x)).
Proof.
  revert acc. induction x as [|c x IH]; intros acc Hx.
  - simpl. f_equal. f_equal. f_equal.
    induction acc as [|a acc IHa]; [done|]. by rewrite append_cons, <- IHa.
  - simpl in Hx. apply andb_prop in Hx as [Hc Hx].
    apply andb_prop in Hc as [Hq _].
    simpl. destruct (Ascii.eqb c "'"); [done|]. simpl.
    rewrite IH by done. simpl. unfold snoc.
    by rewrite append_assoc.
Qed.

(** After the closing quote the literal is still pending: the next
    character decides whether the quote was doubled. *)
Lemma scan_quoted x :
  sql_plain x = true → scan LTop (quoted x) = Some ([], LTextQuote x).
Proof.
  intros Hx. unfold quoted. rewrite append_cons, append_empty_l.
  simpl. rewrite scan_app, (scan_text "" x Hx). simpl. done.
Qed.

Lemma scan_items items rest :
  forallb sql_plain items = true →
  scan LTop (join "," ((λ meal, "'" +:+ meal +:+ "'") <$> items)
             +:+ String ")" rest)
  = '(more, m) ← scan LTop rest;
    Some (item_tokens items ++ TRParen :: more, m).
Proof.
  induction items as [|x [|y items] IH]; intros Hall.
  - simpl. by destruct (scan LTop rest) as [[more m]|].
  - simpl in Hall. apply andb_prop in Hall as [Hx _].
    change (join "," ((λ meal, "'" +:+ meal +:+ "'") <$> [x]))
      with (quoted x).
    rewrite (scan_prefix _ _ _ _ _ (scan_quoted x Hx)).
    simpl. by destruct (scan LTop rest) as [[more m]|].
  - simpl in Hall. apply andb_prop in Hall as [Hx Hall].
    change (join "," ((λ meal, "'" +:+ meal +:+ "'") <$> (x :: y :: items)))
      with (quoted x +:+ ","
            +:+ join "," ((λ meal, "'" +:+ meal +:+ "'") <$> (y :: items))).
    rewrite !append_assoc.
    rewrite (scan_prefix _ _ _ _ _ (scan_quoted x Hx)).
    rewrite append_cons, append_empty_l.
    cbn [scan]. change (lex_step (LTextQuote x) ",")
      with (Some ([TText x; TComma], LTop)). cbn [mbind option_bind].
    rewrite IH by (simpl; done).
    destruct (scan LTop rest) as [[more m]|]; done.
Qed.

Lemma scan_alternatives items rest :
  forallb sql_plain items = true →
  scan LTop (join " OR " ((λ ingredient,
                             "i.ingredient_name ='" +:+ ingredient +:+ "'")
                            <$> items)
             +:+ String ")" rest)
  = '(more, m) ← scan LTop rest;
    Some (alternative_tokens items ++ TRParen :: more, m).
Proof.
  assert (Hpiece : ∀ x, sql_plain x = true →
    scan LTop ("i.ingredient_name ='" +:+ x +:+ "'")
    = Some ([TWord "i"; TDot; TWord "ingredient_name"; TEq], LTextQuote x)).
  { intros x Hx.
    change ("i.ingredient_name ='" +:+ x +:+ "'")
      with ("i.ingredient_name =" +:+ quoted x).
    rewrite (scan_prefix LTop "i.ingredient_name =" _
               [TWord "i"; TDot; TWord "ingredient_name"; TEq] LTop eq_refl).
    by rewrite scan_quoted. }
  induction items as [|x [|y items] IH]; intros Hall.
  - simpl. by destruct (scan LTop rest) as [[more m]|].
  - simpl in Hall. apply andb_prop in Hall as [Hx _].
    change (join " OR " ((λ ingredient,
                             "i.ingredient_name ='" +:+ ingredient +:+ "'")
                            <$> [x]))
      with ("i.ingredient_name ='" +:+ x +:+ "'").
    rewrite (scan_prefix _ _ _ _ _ (Hpiece x Hx)).
    simpl. by destruct (scan LTop rest) as [[more m]|].
  - simpl in Hall. apply andb_prop in Hall as [Hx Hall].
    change (join " OR " ((λ ingredient,
                             "i.ingredient_name ='" +:+ ingredient +:+ "'")
                            <$> (x :: y :: items)))
      with (("i.ingredient_name ='" +:+ x +:+ "'") +:+ " OR "
            +:+ join " OR " ((λ ingredient,
                                "i.ingredient_name ='" +:+ ingredient +:+ "'")
                               <$> (y :: items))).
    rewrite !(append_assoc _ _ (String ")" rest)).
    rewrite (scan_prefix _ _ _ _ _ (Hpiece x Hx)).
    rewrite (scan_prefix (LTextQuote x) " OR " _ [TText x; TWord "OR"] LTop
               eq_refl).
    rewrite IH by (simpl; done).
    destruct (scan LTop rest) as [[more m]|]; done.
Qed.

Lemma scan_digits d acc :
  scan (LNumber acc) (NilEmpty.string_of_uint d)
  = Some ([], LNumber (acc +:+ NilEmpty.string_of_uint d)).
Proof.
  assert (Hnil : ∀ s, s +:+ "" = s).
  { induction s as [|a s IHs]; [done|]. by rewrite append_cons, IHs. }
  revert acc.
  induction d as [|d IH|d IH|d IH|d IH|d IH|d IH|d IH|d IH|d IH|d IH];
    intros acc; simpl;
    [by rewrite Hnil|..];
    rewrite IH; simpl; unfold snoc; by rewrite append_assoc.
Qed.

Lemma to_uint_not_nil n : Nat.to_uint n ≠ Decimal.Nil.
Proof.
  rewrite <- (Unsigned.of_to n) at 1. rewrite Unsigned.to_of.
  unfold Decimal.unorm. by destruct (Decimal.nzhead _).
Qed.

Lemma scan_length n rest :
  scan LTop (py_str_nat n +:+ String "010" rest)
  = '(more, m) ← scan LTop rest; Some (TNumber (py_str_nat n) :: more, m).
Proof.
  unfold py_str_nat. pose proof (to_uint_not_nil n) as Hn.
  assert (Hstart : scan LTop (NilZero.string_of_uint (Nat.to_uint n))
                   = Some ([], LNumber (NilZero.string_of_uint (Nat.to_uint n)))).
  { destruct (Nat.to_uint n) as [|d|d|d|d|d|d|d|d|d|d]; [done|..];
      simpl; by rewrite scan_digits. }
  rewrite (scan_prefix _ _ _ _ _ Hstart). simpl.
  by destruct (scan LTop rest) as [[more m]|].
Qed.

Lemma number_of_length n : number_of_digits (py_str_nat n) = Some (Z.of_nat n).
Proof.
  unfold number_of_digits, py_str_nat. pose proof (to_uint_not_nil n) as Hn.
  assert (NilZero.string_of_uint (Nat.to_uint n)
          = NilEmpty.string_of_uint (Nat.to_uint n)) as ->.
  { by destruct (Nat.to_uint n). }
  rewrite NilEmpty.usu. simpl. by rewrite Unsigned.of_to.
Qed.

(** ** The parser on the texts of [find_recipes] *)

Lemma parse_items_tokens items rest :
  parse_items (item_tokens items ++ TRParen :: rest)
  = Some (OText <$> items, rest).
Proof.
  assert (Htail : ∀ l, parse_items_tail
                         (match l with
                          | [] => []
                          | _ :: _ => TComma :: item_tokens l
                          end ++ TRParen :: rest)
                       = Some (OText <$> l, rest)).
  { induction l as [|x l IH]; [done|].
    destruct l as [|y l]; [done|].
    change (item_tokens (x :: y :: l))
      with (TText x :: TComma :: item_tokens (y :: l)).
    simpl in *. by rewrite IH. }
  destruct items as [|x [|y items]]; [done..|].
  change (item_tokens (x :: y :: items))
    with (TText x :: TComma :: item_tokens (y :: items)).
  specialize (Htail (y :: items)). simpl in *. by rewrite Htail.
Qed.

Lemma tokenize_single meals :
  forallb sql_plain meals = true →
  tokenize (single_ingredient_query meals) = Some (single_tokens meals).
Proof.
  intros Hm. unfold tokenize, single_ingredient_query.
  erewrite scan_prefix by (vm_compute; reflexivity).
  rewrite scan_items by done.
  match goal with
  | |- context [scan LTop ?s] =>
      let r := eval vm_compute in (scan LTop s) in
      change (scan LTop s) with r
  end.
  cbn [mbind option_bind lex_flush].
  unfold single_tokens, select_tokens, join_tokens, meal_tokens,
    comparison_tokens.
  f_equal. cbn [app]. rewrite <- !(assoc_L (++)). reflexivity.
Qed.

Lemma tokenize_many ingredients meals :
  forallb sql_plain ingredients = true →
  forallb sql_plain meals = true →
  tokenize (many_ingredients_query ingredients meals)
  = Some (many_tokens ingredients meals).
Proof.
  intros Hi Hm. unfold tokenize, many_ingredients_query.
  erewrite scan_prefix by (vm_compute; reflexivity).
  rewrite append_cons, scan_alternatives by done.
  erewrite scan_prefix by (vm_compute; reflexivity).
  rewrite append_cons, scan_items by done.
  erewrite scan_prefix by (vm_compute; reflexivity).
  rewrite scan_length.
  match goal with
  | |- context [scan LTop ?s] =>
      let r := eval vm_compute in (scan LTop s) in
      change (scan LTop s) with r
  end.
  cbn [mbind option_bind lex_flush].
  unfold many_tokens, select_tokens, join_tokens, meal_tokens.
  f_equal. cbn [app]. rewrite <- !(assoc_L (++)), ?app_nil_r. cbn [app].
  reflexivity.
Qed.

Lemma parse_joins_tokens fuel rest :
  (5 ≤ fuel)%nat →
  parse_joins fuel (join_tokens ++ TWord "WHERE" :: rest)
  = Some (recipe_joins, TWord "WHERE" :: rest).
Proof.
  intros Hfuel.
  do 5 (destruct fuel as [|fuel]; [lia|]). reflexivity.
Qed.

Lemma parse_meal_unit fuel meals rest :
  (1 ≤ fuel)%nat →
  parse_unit fuel (meal_tokens meals (TWord "GROUP" :: rest))
  = Some (meal_among meals, TWord "GROUP" :: rest).
Proof.
  intros Hfuel. destruct fuel as [|fuel]; [lia|].
  unfold meal_tokens, parse_unit, parse_disjunction.
  assert (parse_comparison
            (TWord "m" :: TDot :: TWord "meal_name" :: TWord "IN" :: TLParen
             :: item_tokens meals ++ TRParen :: TRParen :: TWord "GROUP" :: rest)
          = Some (CIn (OColumn (col "m" "meal_name")) (OText <$> meals),
                  TRParen :: TWord "GROUP" :: rest)) as ->.
  { unfold parse_comparison.
    change (parse_operand (TWord "m" :: TDot :: TWord "meal_name" :: ?r))
      with (Some (OColumn (col "m" "meal_name"), r)).
    cbn [mbind option_bind].
    change (is_kw "in" (TWord "IN")) with true. cbv iota.
    by rewrite parse_items_tokens. }
  reflexivity.
Qed.

Lemma parse_alternatives fuel items rest :
  items ≠ [] →
  (length items ≤ fuel)%nat →
  parse_disjunction fuel (alternative_tokens items ++ TRParen :: rest)
  = Some ((λ x, CEq (OColumn (col "i" "ingredient_name")) (OText x)) <$> items,
          TRParen :: rest).
Proof.
  revert fuel. induction items as [|x [|y items] IH]; intros fuel Hne Hfuel.
  - done.
  - destruct fuel as [|fuel]; [simpl in Hfuel; lia|]. reflexivity.
  - destruct fuel as [|fuel]; [simpl in Hfuel; lia|].
    change (alternative_tokens (x :: y :: items))
      with (comparison_tokens x ++ TWord "OR" :: alternative_tokens (y :: items)).
    rewrite <- (assoc_L (++)). cbn [app comparison_tokens parse_disjunction].
    change (parse_comparison
              (TWord "i" :: TDot :: TWord "ingredient_name" :: TEq :: TText x
               :: ?r))
      with (Some (CEq (OColumn (col "i" "ingredient_name")) (OText x), r)).
    cbn [mbind option_bind].
    change (is_kw "or" (TWord "OR")) with true. cbv iota.
    rewrite IH; [done|done|simpl in *; lia].
Qed.

Lemma parse_alternatives_unit fuel items rest :
  items ≠ [] →
  (length items ≤ fuel)%nat →
  parse_unit fuel (TLParen :: alternative_tokens items ++ TRParen :: rest)
  = Some ((λ x, CEq (OColumn (col "i" "ingredient_name")) (OText x)) <$> items,
          rest).
Proof.
  intros Hne Hfuel. unfold parse_unit. by rewrite parse_alternatives.
Qed.

Lemma alternative_tokens_length items :
  (length items ≤ length (alternative_tokens items))%nat.
Proof.
  induction items as [|x [|y items] IH]; [simpl; lia..|].
  change (alternative_tokens (x :: y :: items))
    with (comparison_tokens x ++ TWord "OR" :: alternative_tokens (y :: items)).
  rewrite length_app. simpl in *. lia.
Qed.

Lemma parse_single_tokens meals :
  parse_statement (single_tokens meals)
  = Some (SSelect (single_ingredient_select meals)).
Proof.
  unfold parse_statement.
  assert (Hfuel : (6 ≤ length (single_tokens meals))%nat).
  { unfold single_tokens. rewrite length_app. simpl. lia. }
  revert Hfuel. generalize (length (single_tokens meals)) as fuel.
  intros fuel Hfuel. unfold single_tokens, select_tokens.
  cbn [app]. change (is_kw "select" (TWord "SELECT")) with true. cbv iota.
  unfold parse_select.
  change (parse_projection (TWord "r" :: TDot :: TWord "recipe_name" :: ?r))
    with (Some (PColumn (col "r" "recipe_name"), r)).
  cbn [mbind option_bind].
  change (is_kw "from" (TWord "FROM")) with true. cbv iota.
  change (parse_table_ref (TWord "recipes" :: TWord "r" :: ?r))
    with (Some (TableRef "recipes" (Some "r"), r)).
  cbn [mbind option_bind].
  rewrite parse_joins_tokens by lia. cbn [mbind option_bind].
  unfold parse_where.
  change (is_kw "where" (TWord "WHERE")) with true. cbv iota.
  destruct fuel as [|[|fuel]]; [lia..|].
  cbn [parse_condition].
  change (parse_unit (S (S fuel))
            (TLParen :: comparison_tokens "cacao" ++ TRParen :: TWord "AND" :: ?r))
    with (Some ([CEq (OColumn (col "i" "ingredient_name")) (OText "cacao")],
                TWord "AND" :: r)).
  cbn [mbind option_bind].
  change (is_kw "and" (TWord "AND")) with true. cbv iota.
  rewrite parse_meal_unit by lia. cbn [mbind option_bind].
  reflexivity.
Qed.

Lemma parse_many_tokens ingredients meals :
  ingredients ≠ [] →
  parse_statement (many_tokens ingredients meals)
  = Some (SSelect (many_ingredients_select ingredients meals)).
Proof.
  intros Hne. unfold parse_statement.
  assert (Hfuel : (6 + length ingredients
                   ≤ length (many_tokens ingredients meals))%nat).
  { unfold many_tokens. rewrite !length_app. simpl. rewrite length_app.
    pose proof (alternative_tokens_length ingredients). lia. }
  revert Hfuel. generalize (length (many_tokens ingredients meals)) as fuel.
  intros fuel Hfuel. unfold many_tokens, select_tokens.
  cbn [app]. change (is_kw "select" (TWord "SELECT")) with true. cbv iota.
  unfold parse_select.
  change (parse_projection (TWord "r" :: TDot :: TWord "recipe_name" :: ?r))
    with (Some (PColumn (col "r" "recipe_name"), r)).
  cbn [mbind option_bind].
  change (is_kw "from" (TWord "FROM")) with true. cbv iota.
  change (parse_table_ref (TWord "recipes" :: TWord "r" :: ?r))
    with (Some (TableRef "recipes" (Some "r"), r)).
  cbn [mbind option_bind].
  rewrite parse_joins_tokens by lia. cbn [mbind option_bind].
  unfold parse_where.
  change (is_kw "where" (TWord "WHERE")) with true. cbv iota.
  destruct fuel as [|fuel]; [lia|].
  cbn [parse_condition].
  rewrite parse_alternatives_unit by (done || lia). cbn [mbind option_bind].
  change (is_kw "and" (TWord "AND")) with true. cbv iota.
  destruct fuel as [|fuel]; [lia|].
  cbn [parse_condition].
  rewrite parse_meal_unit by lia. cbn [mbind option_bind].
  change (is_kw "and" (TWord "GROUP")) with false. cbv iota.
  cbn [mbind option_bind].
  change (parse_group (TWord "GROUP" :: TWord "BY" :: TWord "r" :: TDot
                       :: TWord "recipe_name" :: ?r))
    with (Some (Some (col "r" "recipe_name"), r)).
  cbn [mbind option_bind].
  unfold parse_having.
  change (is_kw "having" (TWord "HAVING")) with true. cbv iota.
  cbn [parse_condition]. unfold parse_unit, parse_comparison.
  change (parse_operand (TWord "COUNT" :: TLParen :: TWord "DISTINCT"
                         :: TWord "i" :: TDot :: TWord "ingredient_name"
                         :: TRParen :: ?r))
    with (Some (OCountDistinct (col "i" "ingredient_name"), r)).
  cbn [mbind option_bind parse_operand].
  rewrite number_of_length. reflexivity.
Qed.

Lemma parse_single meals :
  forallb sql_plain meals = true →
  parse_sql (single_ingredient_query meals)
  = Some (SSelect (single_ingredient_select meals)).
Proof.
  intros Hm. unfold parse_sql. rewrite tokenize_single by done.
  apply parse_single_tokens.
Qed.

Lemma parse_many ingredients meals :
  ingredients ≠ [] →
  forallb sql_plain ingredients = true →
  forallb sql_plain meals = true →
  parse_sql (many_ingredients_query ingredients meals)
  = Some (SSelect (many_ingredients_select ingredients meals)).
Proof.
  intros Hne Hi Hm. unfold parse_sql. rewrite tokenize_many by done.
  by apply parse_many_tokens.
Qed.

(** No NUL character in the texts built from plain names. *)
Lemma has_nul_app s t : has_nul (s +:+ t) = has_nul s || has_nul t.
Proof.
  induction s as [|c s IH]; [done|].
  rewrite append_cons. simpl. by rewrite IH, orb_assoc.
Qed.

Lemma has_nul_plain x : sql_plain x = true → has_nul x = false.
Proof.
  induction x as [|c x IH]; [done|]. simpl.
  intros [[_ Hc]%andb_prop Hx]%andb_prop.
  rewrite IH by done. apply negb_true_iff in Hc. by rewrite Hc.
Qed.

Lemma has_nul_join sep (f : string → string) items :
  has_nul sep = false →
  (∀ x, sql_plain x = true → has_nul (f x) = false) →
  forallb sql_plain items = true →
  has_nul (join sep (f <$> items)) = false.
Proof.
  intros Hsep Hf. induction items as [|x [|y items] IH]; intros Hall.
  - done.
  - simpl in *. apply andb_prop in Hall as [Hx _]. by apply Hf.
  - simpl in Hall. apply andb_prop in Hall as [Hx Hall].
    change (join sep (f <$> x :: y :: items))
      with (f x +:+ sep +:+ join sep (f <$> y :: items)).
    rewrite !has_nul_app, Hsep, Hf, IH by done. done.
Qed.

Lemma has_nul_digits d : has_nul (NilEmpty.string_of_uint d) = false.
Proof. induction d as [|d IH|d IH|d IH|d IH|d IH|d IH|d IH|d IH|d IH|d IH]; simpl; done. Qed.

Lemma has_nul_length n : has_nul (py_str_nat n) = false.
Proof.
  unfold py_str_nat, NilZero.string_of_uint.
  destruct (Nat.to_uint n) as [|d|d|d|d|d|d|d|d|d|d]; [done|..];
    simpl; apply has_nul_digits.
Qed.

Lemma has_nul_quoted x : sql_plain x = true → has_nul ("'" +:+ x +:+ "'") = false.
Proof. intros Hx. rewrite !has_nul_app, (has_nul_plain x) by done. reflexivity. Qed.

Lemma has_nul_single meals :
  forallb sql_plain meals = true →
  has_nul (single_ingredient_query meals) = false.
Proof.
  intros Hm. unfold single_ingredient_query.
  rewrite !has_nul_app, has_nul_join;
    [done|done|apply has_nul_quoted|done].
Qed.

Lemma has_nul_many ingredients meals :
  forallb sql_plain ingredients = true →
  forallb sql_plain meals = true →
  has_nul (many_ingredients_query ingredients meals) = false.
Proof.
  intros Hi Hm. unfold many_ingredients_query.
  rewrite !has_nul_app, has_nul_length.
  rewrite (has_nul_join "," (λ meal, "'" +:+ meal +:+ "'") meals);
    [|done|apply has_nul_quoted|done].
  rewrite has_nul_join; [done|done| |done].
  intros x Hx. rewrite !has_nul_app, (has_nul_plain x) by done. reflexivity.
Qed.

(** ** Joins and groups *)

Lemma sql_eq_text v x : sql_eq v (VText x) = true ↔ v = VText x.
Proof.
  destruct v as [|n|s]; simpl; [split; discriminate..|].
  by rewrite bool_decide_eq_true.
Qed.

Lemma elem_of_join_step left right on jr :
  jr ∈ join_step left right on
  ↔ ∃ l r, jr = l ++ [r] ∧ l ∈ left ∧ r ∈ right ∧ holds on (l ++ [r]) = true.
Proof.
  unfold join_step. rewrite list_elem_of_bind. split.
  - intros (l & Hjr & Hl). apply list_elem_of_bind in Hjr as (r & Hjr & Hr).
    destruct (holds on (l ++ [r])) eqn:Hon.
    + apply list_elem_of_singleton in Hjr. by exists l, r.
    + by apply elem_of_nil in Hjr.
  - intros (l & r & -> & Hl & Hr & Hon). exists l. split; [|done].
    apply list_elem_of_bind. exists r. split; [|done].
    rewrite Hon. by apply list_elem_of_singleton.
Qed.

Lemma elem_of_groups k rows g :
  g ∈ groups k rows
  ↔ ∃ v, v ∈ group_key k <$> rows ∧ g = filter (λ r, group_key k r = v) rows.
Proof.
  unfold groups. rewrite list_elem_of_fmap.
  split; intros (v & H1 & H2); exists v.
  - rewrite elem_of_remove_dups in H2. done.
  - rewrite elem_of_remove_dups. done.
Qed.

Section Grouping.

Variable choose : list jrow → jrow.
Variable arrange : list (list jrow) → list (list jrow).
Hypothesis choose_in : ∀ g, g ≠ [] → choose g ∈ g.
Hypothesis arrange_perm : ∀ gs, arrange gs ≡ₚ gs.

(** The row chosen from a group is one of the rows, and it has the key of
    the group. *)
Lemma chosen_of_group k rows v :
  v ∈ group_key k <$> rows →
  choose (filter (λ r, group_key k r = v) rows) ∈ rows
  ∧ group_key k (choose (filter (λ r, group_key k r = v) rows)) = v.
Proof.
  intros (r & Hv & Hr)%list_elem_of_fmap.
  assert (Hne : filter (λ r, group_key k r = v) rows ≠ []).
  { intros Hnil.
    exact (filter_nil_not_elem_of _ _ r Hnil (eq_sym Hv) Hr). }
  apply choose_in, list_elem_of_filter in Hne. tauto.
Qed.

Lemma group_members k rows g jr :
  g ∈ groups k rows →
  jr ∈ g ↔ jr ∈ rows ∧ group_key k jr = group_key k (choose g).
Proof.
  intros (v & Hv & ->)%elem_of_groups.
  destruct (chosen_of_group k rows v Hv) as [_ ->].
  rewrite list_elem_of_filter. tauto.
Qed.

Lemma chosen_in_rows k rows g :
  g ∈ groups k rows → choose g ∈ g ∧ choose g ∈ rows.
Proof.
  intros Hg. pose proof Hg as (v & Hv & ->)%elem_of_groups.
  split; [|by apply chosen_of_group].
  apply (group_members k rows _ _ Hg). split; [by apply chosen_of_group|done].
Qed.

Lemma group_of_row k rows jr :
  jr ∈ rows →
  ∃ g, g ∈ groups k rows ∧ jr ∈ g.
Proof.
  intros Hjr. exists (filter (λ r, group_key k r = group_key k jr) rows).
  split.
  - apply elem_of_groups. exists (group_key k jr). split; [|done].
    by apply list_elem_of_fmap_2.
  - by apply list_elem_of_filter.
Qed.

Lemma chosen_key_inj k rows g1 g2 :
  g1 ∈ groups k rows → g2 ∈ groups k rows →
  group_key k (choose g1) = group_key k (choose g2) → g1 = g2.
Proof.
  intros (v1 & Hv1 & ->)%elem_of_groups (v2 & Hv2 & ->)%elem_of_groups.
  destruct (chosen_of_group k rows v1 Hv1) as [_ ->].
  destruct (chosen_of_group k rows v2 Hv2) as [_ ->].
  by intros ->.
Qed.

Lemma NoDup_groups k rows : NoDup (groups k rows).
Proof.
  unfold groups. apply NoDup_fmap_2_strong; [|apply NoDup_remove_dups].
  intros v1 v2 Hv1 Hv2 Heq. rewrite elem_of_remove_dups in Hv1, Hv2.
  destruct (chosen_of_group k rows v1 Hv1) as [_ <-].
  destruct (chosen_of_group k rows v2 Hv2) as [_ <-].
  by rewrite Heq.
Qed.

(** The groups a grouped query reports: each group that passes HAVING,
    once. *)
Lemma reported_groups p k g :
  g ∈ arrange (passing_groups choose p k)
  ↔ g ∈ groups k (matching p)
    ∧ eval_condition g (choose g) (pl_having p) = true.
Proof.
  rewrite (arrange_perm _). unfold passing_groups.
  rewrite list_elem_of_filter, Is_true_true. tauto.
Qed.

Lemma NoDup_reported_keys p k :
  NoDup ((λ g, group_key k (choose g)) <$> arrange (passing_groups choose p k)).
Proof.
  apply NoDup_fmap_2_strong.
  - intros g1 g2 [H1 _]%reported_groups [H2 _]%reported_groups.
    by apply (chosen_key_inj k (matching p)).
  - rewrite (arrange_perm _). apply NoDup_filter, NoDup_groups.
Qed.

End Grouping.

(** ** The recipe queries on a store with the schema *)

Lemma schema_table db name sch :
  has_schema db = true →
  (name, sch) ∈ schema_script →
  ∃ t, db !! name = Some t ∧ tbl_schema t = sch.
Proof.
  unfold has_schema. rewrite forallb_forall. intros Hall Hin.
  apply list_elem_of_In, Hall in Hin. simpl in Hin.
  destruct (db !! name) as [t|]; [|done].
  exists t. split; [done|]. by apply bool_decide_eq_true in Hin.
Qed.

Lemma compile_texts aggregates h b items :
  compile_operands aggregates h b (OText <$> items)
  = Returned ((λ x, RConst (VText x)) <$> items).
Proof.
  induction items as [|x items IH]; [done|].
  rewrite !fmap_cons. cbn [compile_operands compile_operand]. by rewrite IH.
Qed.

Lemma compile_alternatives b items :
  compile_disjunction false recipe_header b
    ((λ x, CEq (OColumn (col "i" "ingredient_name")) (OText x)) <$> items)
  = Returned ((λ x, REq (RCol 2 1) (RConst (VText x))) <$> items).
Proof.
  induction items as [|x items IH]; [done|].
  rewrite !fmap_cons. cbn [compile_disjunction]. rewrite IH. reflexivity.
Qed.

Section RecipeQueries.

Variable db : database.
Hypothesis db_schema : has_schema db = true.

Lemma compile_recipe_joins b :
  ∃ tr,
    db !! "recipes" = Some tr
    ∧ tbl_rows tr = rows_of db "recipes"
    ∧ scope_entry (TableRef "recipes" (Some "r")) tr
      = ("r", ["recipe_id"; "recipe_name"; "recipe_description"])
    ∧ compile_joins db b
        [("r", ["recipe_id"; "recipe_name"; "recipe_description"])]
        recipe_joins
      = Returned (recipe_header, recipe_plan_joins db).
Proof.
  destruct (schema_table db "recipes" recipes_schema db_schema)
    as (tr & Hr & Sr); [set_solver|].
  destruct (schema_table db "quantity" quantity_schema db_schema)
    as (tq & Hq & Sq); [set_solver|].
  destruct (schema_table db "ingredients" ingredients_schema db_schema)
    as (ti & Hi & Si); [set_solver|].
  destruct (schema_table db "serve" serve_schema db_schema)
    as (ts & Hs & Ss); [set_solver|].
  destruct (schema_table db "meals" meals_schema db_schema)
    as (tm & Hm & Sm); [set_solver|].
  exists tr. unfold recipe_plan_joins, rows_of. rewrite Hr, Hq, Hi, Hs, Hm.
  split; [done|]. split; [done|].
  split; [unfold scope_entry, column_names; by rewrite Sr|].
  unfold recipe_joins. cbn [compile_joins jn_table tr_table jn_on].
  unfold find_table, scope_entry, column_names.
  rewrite Hq. cbn [mbind outcome_bind]. rewrite Sq. simpl.
  rewrite Hi. cbn [mbind outcome_bind]. rewrite Si. simpl.
  rewrite Hs. cbn [mbind outcome_bind]. rewrite Ss. simpl.
  rewrite Hm. cbn [mbind outcome_bind]. rewrite Sm. simpl.
  reflexivity.
Qed.

Lemma compile_single meals :
  compile_select db [] (single_ingredient_select meals)
  = Returned (single_plan db meals).
Proof.
  destruct (compile_recipe_joins []) as (tr & Hr & Hrows & Hentry & Hjoins).
  unfold compile_select, single_ingredient_select, find_table.
  cbn [sel_from sel_joins sel_where sel_group sel_having sel_proj tr_table].
  rewrite Hr. cbn [mbind outcome_bind]. rewrite Hentry, Hjoins.
  cbn [mbind outcome_bind]. unfold compile_where, meal_among.
  cbn [compile_condition compile_disjunction compile_comparison].
  rewrite compile_texts.
  change (compile_operand false recipe_header [] (OColumn (col "m" "meal_name")))
    with (Returned (RCol 4 1)).
  change (compile_operand false recipe_header []
            (OColumn (col "i" "ingredient_name")))
    with (Returned (RCol 2 1)).
  cbn [compile_operand].
  change (resolve_column recipe_header (col "m" "meal_name"))
    with (Returned (4, 1)%nat).
  change (resolve_column recipe_header (col "r" "recipe_name"))
    with (Returned (0, 1)%nat).
  cbn [mbind outcome_bind mret outcome_ret]. unfold single_plan.
  by rewrite Hrows.
Qed.

Lemma compile_many ingredients meals :
  compile_select db [] (many_ingredients_select ingredients meals)
  = Returned (many_plan db ingredients meals).
Proof.
  destruct (compile_recipe_joins []) as (tr & Hr & Hrows & Hentry & Hjoins).
  unfold compile_select, many_ingredients_select, find_table.
  cbn [sel_from sel_joins sel_where sel_group sel_having sel_proj tr_table].
  rewrite Hr. cbn [mbind outcome_bind]. rewrite Hentry, Hjoins.
  cbn [mbind outcome_bind]. unfold compile_where, meal_among.
  cbn [compile_condition]. rewrite compile_alternatives.
  cbn [compile_disjunction compile_comparison].
  rewrite compile_texts.
  change (compile_operand false recipe_header [] (OColumn (col "m" "meal_name")))
    with (Returned (RCol 4 1)).
  change (compile_operand true recipe_header []
            (OCountDistinct (col "i" "ingredient_name")))
    with (Returned (RCountDistinct 2 1)).
  cbn [compile_operand].
  change (resolve_column recipe_header (col "r" "recipe_name"))
    with (Returned (0, 1)%nat).
  cbn [mbind outcome_bind mret outcome_ret]. unfold many_plan.
  by rewrite Hrows.
Qed.

Lemma elem_of_joined p jr :
  pl_from p = rows_of db "recipes" →
  pl_joins p = recipe_plan_joins db →
  jr ∈ joined p ↔ ∃ r q i s m, jr = [r; q; i; s; m] ∧ linked db r q i s m.
Proof.
  intros Hfrom Hjoins. unfold joined. rewrite Hfrom, Hjoins.
  unfold recipe_plan_joins. cbn [foldl fst snd]. split.
  - intros (l4 & m & -> & (l3 & s & -> & (l2 & i & -> & (l1 & q & ->
        & (r & -> & Hr)%list_elem_of_fmap & Hq & H1)%elem_of_join_step
        & Hi & H2)%elem_of_join_step & Hs & H3)%elem_of_join_step
        & Hm & H4)%elem_of_join_step.
    exists r, q, i, s, m. split; [done|].
    unfold holds, link, eval_condition in *. simpl in *.
    rewrite !andb_true_r, !orb_false_r in *. by repeat split.
  - intros (r & q & i & s & m & -> & Hr & Hq & Hi & Hs & Hm & H1 & H2 & H3 & H4).
    apply elem_of_join_step. exists [r; q; i; s], m.
    split; [done|]. split; [|split; [done|]].
    2:{ unfold holds, link, eval_condition. simpl.
        by rewrite !andb_true_r, !orb_false_r. }
    apply elem_of_join_step. exists [r; q; i], s.
    split; [done|]. split; [|split; [done|]].
    2:{ unfold holds, link, eval_condition. simpl.
        by rewrite !andb_true_r, !orb_false_r. }
    apply elem_of_join_step. exists [r; q], i.
    split; [done|]. split; [|split; [done|]].
    2:{ unfold holds, link, eval_condition. simpl.
        by rewrite !andb_true_r, !orb_false_r. }
    apply elem_of_join_step. exists [r], q.
    split; [done|]. split; [|split; [done|]].
    2:{ unfold holds, link, eval_condition. simpl.
        by rewrite !andb_true_r, !orb_false_r. }
    by apply (list_elem_of_fmap_2 (λ r, [r])).
Qed.

Lemma holds_meal_in meals jr :
  existsb (eval_comparison [] jr) (meal_in meals) = true
  ↔ ∃ meal, meal ∈ meals ∧ fetch jr 4 1 = VText meal.
Proof.
  unfold meal_in. simpl. rewrite orb_false_r, existsb_exists. split.
  - intros (o & (meal & -> & Hmeal)%list_elem_of_In%list_elem_of_fmap & Ho).
    simpl in Ho. apply sql_eq_text in Ho. by exists meal.
  - intros (meal & Hmeal & Hjr).
    exists (RConst (VText meal)). split.
    + apply list_elem_of_In, list_elem_of_fmap. by exists meal.
    + simpl. by apply sql_eq_text.
Qed.

Lemma holds_alternatives ingredients jr :
  existsb (eval_comparison [] jr)
          ((λ x, REq (RCol 2 1) (RConst (VText x))) <$> ingredients) = true
  ↔ ∃ x, x ∈ ingredients ∧ fetch jr 2 1 = VText x.
Proof.
  rewrite existsb_exists. split.
  - intros (c & (x & -> & Hx)%list_elem_of_In%list_elem_of_fmap & Hc).
    simpl in Hc. apply sql_eq_text in Hc. by exists x.
  - intros (x & Hx & Hjr).
    exists (REq (RCol 2 1) (RConst (VText x))). split.
    + apply list_elem_of_In, list_elem_of_fmap. by exists x.
    + simpl. by apply sql_eq_text.
Qed.

Lemma uses_spec r x :
  uses db r x = true
  ↔ ∃ q i, q ∈ rows_of db "quantity" ∧ i ∈ rows_of db "ingredients"
           ∧ sql_eq (cell r 0) (cell q 2) = true
           ∧ sql_eq (cell q 4) (cell i 0) = true
           ∧ cell i 1 = VText x.
Proof.
  unfold uses. rewrite existsb_exists. split.
  - intros (q & Hq%list_elem_of_In & (i & Hi%list_elem_of_In & H)%existsb_exists).
    apply andb_prop in H as [[H1 H2]%andb_prop H3%bool_decide_eq_true].
    by exists q, i.
  - intros (q & i & Hq & Hi & H1 & H2 & H3).
    exists q. split; [by apply list_elem_of_In|].
    apply existsb_exists. exists i. split; [by apply list_elem_of_In|].
    rewrite H1, H2. by apply bool_decide_eq_true.
Qed.

Lemma served_at_spec r meal :
  served_at db r meal = true
  ↔ ∃ s m, s ∈ rows_of db "serve" ∧ m ∈ rows_of db "meals"
           ∧ sql_eq (cell r 0) (cell s 1) = true
           ∧ sql_eq (cell s 2) (cell m 0) = true
           ∧ cell m 1 = VText meal.
Proof.
  unfold served_at. rewrite existsb_exists. split.
  - intros (s & Hs%list_elem_of_In & (m & Hm%list_elem_of_In & H)%existsb_exists).
    apply andb_prop in H as [[H1 H2]%andb_prop H3%bool_decide_eq_true].
    by exists s, m.
  - intros (s & m & Hs & Hm & H1 & H2 & H3).
    exists s. split; [by apply list_elem_of_In|].
    apply existsb_exists. exists m. split; [by apply list_elem_of_In|].
    rewrite H1, H2. by apply bool_decide_eq_true.
Qed.

Lemma served_at_any_spec r meals :
  served_at_any db r meals = true
  ↔ ∃ meal, meal ∈ meals ∧ served_at db r meal = true.
Proof.
  unfold served_at_any. rewrite existsb_exists.
  split; intros (meal & H1 & H2); exists meal; split; try done;
    by apply list_elem_of_In.
Qed.

End RecipeQueries.

(** ** What the two queries report *)

#[global] Instance VText_inj : Inj (=) (=) VText.
Proof. by intros x y [= ->]. Qed.

(** COUNT(DISTINCT c) over rows whose [c] is one of the listed texts reaches
    the length of the list exactly when every listed text occurs. *)
Lemma count_distinct_all (g : list jrow) (i j : nat) (texts : list string) :
  NoDup texts →
  (∀ jr, jr ∈ g → ∃ x, x ∈ texts ∧ fetch jr i j = VText x) →
  count_distinct g i j = Z.of_nat (length texts)
  ↔ ∀ x, x ∈ texts → ∃ jr, jr ∈ g ∧ fetch jr i j = VText x.
Proof.
  intros Hnd Hin. unfold count_distinct.
  set (D := remove_dups _).
  assert (HD : ∀ v, v ∈ D ↔ ∃ jr, jr ∈ g ∧ fetch jr i j = v).
  { intros v. unfold D. rewrite elem_of_remove_dups, list_elem_of_filter,
      list_elem_of_fmap. split.
    - intros (_ & jr & -> & Hjr). by exists jr.
    - intros (jr & Hjr & <-). split; [|by exists jr].
      destruct (Hin jr Hjr) as (x & _ & ->). done. }
  assert (Hsub : ∀ v, v ∈ D → v ∈ VText <$> texts).
  { intros v (jr & Hjr & <-)%HD. destruct (Hin jr Hjr) as (x & Hx & ->).
    by apply list_elem_of_fmap_2. }
  assert (HndD : NoDup D) by apply NoDup_remove_dups.
  assert (HndT : NoDup (VText <$> texts)).
  { by apply (NoDup_fmap_2 VText). }
  rewrite Nat2Z.inj_iff. split.
  - intros Hlen x Hx. apply HD.
    assert (Hperm : D ≡ₚ VText <$> texts).
    { apply submseteq_length_Permutation; [by apply NoDup_submseteq|].
      rewrite length_fmap. lia. }
    rewrite Hperm. by apply list_elem_of_fmap_2.
  - intros Hall. rewrite <- (length_fmap VText texts).
    apply Permutation_length, NoDup_Permutation; [done..|].
    intros v. split; [apply Hsub|].
    intros (x & -> & Hx)%list_elem_of_fmap. apply HD.
    by apply Hall.
Qed.

Lemma texts_of {A} (f : A → value) (l : list A) :
  (∀ x, x ∈ l → ∃ s, f x = VText s) → ∃ texts, VText <$> texts = f <$> l.
Proof.
  induction l as [|x l IH]; intros Htext; [by exists []|].
  destruct IH as (texts & Htexts); [intros y Hy; apply Htext; by right|].
  destruct (Htext x) as (s & Hs); [by left|].
  exists (s :: texts). by rewrite !fmap_cons, Hs, Htexts.
Qed.

Lemma Forall2_texts {A} (f1 f2 : A → value) (P : string → string → Prop)
    (l : list A) (xs ys : list string) :
  VText <$> xs = f1 <$> l →
  VText <$> ys = f2 <$> l →
  (∀ a x y, a ∈ l → f1 a = VText x → f2 a = VText y → P x y) →
  Forall2 P xs ys.
Proof.
  revert xs ys. induction l as [|a l IH]; intros xs ys Hxs Hys HP.
  - destruct xs, ys; done.
  - destruct xs as [|x xs], ys as [|y ys]; try done.
    rewrite !fmap_cons in Hxs, Hys. injection Hxs as Hx Hxs.
    injection Hys as Hy Hys. constructor.
    + apply (HP a); [by left|done..].
    + apply IH; [done..|]. intros a' x' y' Ha'. apply HP. by right.
Qed.

Lemma Forall2_elem_of_r {A B} (P : A → B → Prop) l k y :
  Forall2 P l k → y ∈ k → ∃ x, x ∈ l ∧ P x y.
Proof.
  induction 1 as [|x y' l k HP _ IH]; intros Hy.
  - by apply elem_of_nil in Hy.
  - apply elem_of_cons in Hy as [->|Hy].
    + exists x. split; [by left|done].
    + destruct (IH Hy) as (x' & Hx' & HP'). exists x'. split; [by right|done].
Qed.

Lemma first_texts_chosen (choose : list jrow → jrow) (gs : list (list jrow)) :
  (∀ g, g ∈ gs → ∃ name, fetch (choose g) 0 1 = VText name) →
  ∃ names,
    first_texts ((λ g, [fetch (choose g) 0 1]) <$> gs) = Returned names
    ∧ VText <$> names = (λ g, fetch (choose g) 0 1) <$> gs.
Proof.
  induction gs as [|g gs IH]; intros Htext.
  - by exists [].
  - destruct IH as (names & Hnames & Hkeys).
    { intros g' Hg'. apply Htext. by right. }
    destruct (Htext g) as (name & Hname); [by left|].
    exists (name :: names). rewrite !fmap_cons.
    cbn [first_texts]. rewrite Hname, Hnames. cbn [mbind outcome_bind].
    split; [done|]. by rewrite Hkeys.
Qed.

Section FindRecipes.

Variable choose : list jrow → jrow.
Variable arrange : list (list jrow) → list (list jrow).
Hypothesis choose_in : ∀ g, g ≠ [] → choose g ∈ g.
Hypothesis arrange_perm : ∀ gs, arrange gs ≡ₚ gs.

Variable db : database.
Hypothesis db_schema : has_schema db = true.
Hypothesis db_named : recipes_named db = true.

Lemma recipe_name_text r :
  r ∈ rows_of db "recipes" → ∃ name, cell r 1 = VText name.
Proof.
  intros Hr. unfold recipes_named in db_named.
  rewrite forallb_forall in db_named.
  apply list_elem_of_In, db_named in Hr.
  destruct (cell r 1) as [| |name]; [done..|]. by exists name.
Qed.

Lemma matching_many ingredients meals jr :
  jr ∈ matching (many_plan db ingredients meals)
  ↔ ∃ r q i s m,
      jr = [r; q; i; s; m] ∧ linked db r q i s m
      ∧ (∃ x, x ∈ ingredients ∧ cell i 1 = VText x)
      ∧ (∃ meal, meal ∈ meals ∧ cell m 1 = VText meal).
Proof.
  unfold matching. rewrite list_elem_of_filter, Is_true_true.
  rewrite (elem_of_joined db (many_plan db ingredients meals) jr eq_refl eq_refl).
  unfold holds, eval_condition. cbn [pl_where many_plan forallb].
  rewrite andb_true_r, andb_true_iff, holds_alternatives, holds_meal_in.
  split.
  - intros [[Hx Hmeal] (r & q & i & s & m & -> & Hl)].
    by exists r, q, i, s, m.
  - intros (r & q & i & s & m & -> & Hl & Hx & Hmeal).
    split; [done|]. by exists r, q, i, s, m.
Qed.

Lemma matching_single meals jr :
  jr ∈ matching (single_plan db meals)
  ↔ ∃ r q i s m,
      jr = [r; q; i; s; m] ∧ linked db r q i s m
      ∧ cell i 1 = VText "cacao"
      ∧ (∃ meal, meal ∈ meals ∧ cell m 1 = VText meal).
Proof.
  unfold matching. rewrite list_elem_of_filter, Is_true_true.
  rewrite (elem_of_joined db (single_plan db meals) jr eq_refl eq_refl).
  unfold holds, eval_condition. cbn [pl_where single_plan forallb].
  rewrite andb_true_r, andb_true_iff, holds_meal_in.
  cbn [existsb eval_comparison eval_operand]. rewrite orb_false_r, sql_eq_text.
  split.
  - intros [[Hx Hmeal] (r & q & i & s & m & -> & Hl)].
    by exists r, q, i, s, m.
  - intros (r & q & i & s & m & -> & Hl & Hx & Hmeal).
    split; [done|]. by exists r, q, i, s, m.
Qed.

(** A matching row for [name], [x] and some requested meal is a recipe of
    that name that uses [x] and is served at one of the meals. *)
Lemma linked_recipe name x meals :
  (∃ r q i s m, linked db r q i s m ∧ cell r 1 = VText name
                ∧ cell i 1 = VText x
                ∧ ∃ meal, meal ∈ meals ∧ cell m 1 = VText meal)
  ↔ ∃ recipe, recipe_named db recipe name ∧ uses db recipe x = true
              ∧ served_at_any db recipe meals = true.
Proof.
  split.
  - intros (r & q & i & s & m & (Hr & Hq & Hi & Hs & Hm & H1 & H2 & H3 & H4)
            & Hname & Hx & meal & Hmeal & Hm1).
    exists r. split; [done|]. split.
    + apply uses_spec. by exists q, i.
    + apply served_at_any_spec. exists meal. split; [done|].
      apply served_at_spec. by exists s, m.
  - intros (r & [Hr Hname] & (q & i & Hq & Hi & H1 & H2 & Hx)%uses_spec
            & (meal & Hmeal & (s & m & Hs & Hm & H3 & H4 & Hm1)%served_at_spec)
                %served_at_any_spec).
    exists r, q, i, s, m. split; [by repeat split|].
    split; [done|]. split; [done|]. by exists meal.
Qed.

Lemma many_result ingredients meals :
  ingredients ≠ [] →
  NoDup ingredients →
  ∃ names,
    first_texts (run_select choose arrange (many_plan db ingredients meals))
    = Returned names
    ∧ NoDup names
    ∧ ∀ name, name ∈ names
        ↔ ∀ x, x ∈ ingredients →
            ∃ recipe, recipe_named db recipe name
                      ∧ uses db recipe x = true
                      ∧ served_at_any db recipe meals = true.
Proof.
  intros Hne Hnd.
  set (p := many_plan db ingredients meals).
  set (k := (0, 1)%nat).
  set (gs := arrange (passing_groups choose p k)).
  assert (Hrun : run_select choose arrange p
                 = (λ g, [fetch (choose g) 0 1]) <$> gs) by reflexivity.
  assert (Hgroup : ∀ g, g ∈ groups k (matching p) →
    ∃ r q i s m, choose g = [r; q; i; s; m] ∧ linked db r q i s m
                 ∧ ∃ name, cell r 1 = VText name).
  { intros g Hg.
    destruct (chosen_in_rows choose choose_in k _ g Hg) as [_ Hc].
    apply matching_many in Hc as (r & q & i & s & m & Hjr & Hl & _).
    exists r, q, i, s, m. split; [done|]. split; [done|].
    apply recipe_name_text, Hl. }
  destruct (first_texts_chosen choose gs) as (names & Hnames & Hkeys).
  { intros g [Hg _]%(reported_groups choose arrange arrange_perm).
    destruct (Hgroup g Hg) as (r & q & i & s & m & -> & _ & name & Hname).
    by exists name. }
  exists names. rewrite Hrun. split; [done|]. split.
  { apply (NoDup_fmap_1 VText). rewrite Hkeys.
    apply (NoDup_reported_keys choose arrange choose_in arrange_perm p k). }
  intros name.
  assert (Hin : name ∈ names
    ↔ ∃ g, g ∈ gs ∧ fetch (choose g) 0 1 = VText name).
  { rewrite <- (list_elem_of_fmap_inj VText), Hkeys, list_elem_of_fmap.
    split; intros (g & H1 & H2); by exists g. }
  rewrite Hin. clear Hin.
  assert (Hhaving : ∀ g, g ∈ groups k (matching p) →
    eval_condition g (choose g) (pl_having p) = true
    ↔ ∀ x, x ∈ ingredients → ∃ jr, jr ∈ g ∧ fetch jr 2 1 = VText x).
  { intros g Hg. unfold eval_condition. cbn [pl_having p many_plan forallb
      existsb eval_comparison eval_operand sql_eq].
    rewrite orb_false_r, andb_true_r, bool_decide_eq_true.
    rewrite <- (count_distinct_all g 2 1 ingredients Hnd).
    - split; [by intros [= ->]|by intros ->].
    - intros jr Hjr.
      apply (group_members choose choose_in k _ g jr Hg) in Hjr as [Hjr _].
      apply matching_many in Hjr as (r & q & i & s & m & -> & _ & Hx & _).
      exact Hx. }
  assert (Hrow : ∀ x,
    (∃ jr, jr ∈ matching p ∧ fetch jr 0 1 = VText name
           ∧ fetch jr 2 1 = VText x)
    ↔ x ∈ ingredients
      ∧ ∃ recipe, recipe_named db recipe name ∧ uses db recipe x = true
                  ∧ served_at_any db recipe meals = true).
  { intros x. rewrite <- linked_recipe. split.
    - intros (jr & (r & q & i & s & m & -> & Hl & (x' & Hx' & Hi) & Hmeal)
                    %matching_many & Hname & Hx).
      change (fetch [r; q; i; s; m] 2 1) with (cell i 1) in Hx.
      assert (x' = x) as -> by congruence.
      split; [done|]. by exists r, q, i, s, m.
    - intros (Hx & r & q & i & s & m & Hl & Hname & Hi & Hmeal).
      exists [r; q; i; s; m]. split; [|done].
      apply matching_many. exists r, q, i, s, m.
      split; [done|]. split; [done|]. split; [by exists x|done]. }
  split.
  - intros (g & [Hg Hh]%(reported_groups choose arrange arrange_perm) & Hname)
           x Hx.
    destruct (proj1 (Hhaving g Hg) Hh x Hx) as (jr & Hjr & Hjx).
    apply (group_members choose choose_in k _ g jr Hg) in Hjr as [Hjr Hkey].
    apply (Hrow x). exists jr. split; [done|]. split; [|done].
    change (fetch jr 0 1) with (group_key k jr). rewrite Hkey. exact Hname.
  - intros Hall.
    destruct ingredients as [|x0 rest] eqn:Hing; [done|]. rewrite <- Hing in *.
    assert (Hx0 : x0 ∈ ingredients) by (rewrite Hing; by left).
    destruct (proj2 (Hrow x0) (conj Hx0 (Hall x0 Hx0)))
      as (jr0 & Hjr0 & Hname0 & _).
    destruct (group_of_row k _ jr0 Hjr0) as (g & Hg & Hin0).
    assert (Hkey : group_key k (choose g) = VText name).
    { apply (group_members choose choose_in k _ g jr0 Hg) in Hin0 as [_ <-].
      exact Hname0. }
    exists g. split; [|exact Hkey].
    apply (reported_groups choose arrange arrange_perm). split; [done|].
    apply (Hhaving g Hg). intros x Hx.
    destruct (proj2 (Hrow x) (conj Hx (Hall x Hx))) as (jr & Hjr & Hname & Hjx).
    exists jr. split; [|done].
    apply (group_members choose choose_in k _ g jr Hg). split; [done|].
    rewrite Hkey. exact Hname.
Qed.

Lemma single_result meals :
  ∃ names served,
    first_texts (run_select choose arrange (single_plan db meals))
    = Returned names
    ∧ NoDup served
    ∧ (∀ meal, meal ∈ served
         ↔ meal ∈ meals
           ∧ ∃ recipe, recipe ∈ rows_of db "recipes"
                       ∧ uses db recipe "cacao" = true
                       ∧ served_at db recipe meal = true)
    ∧ Forall2 (λ name meal,
                 ∃ recipe, recipe_named db recipe name
                           ∧ uses db recipe "cacao" = true
                           ∧ served_at db recipe meal = true)
              names served.
Proof.
  set (p := single_plan db meals).
  set (k := (4, 1)%nat).
  set (gs := arrange (passing_groups choose p k)).
  assert (Hrun : run_select choose arrange p
                 = (λ g, [fetch (choose g) 0 1]) <$> gs) by reflexivity.
  assert (Hgs : ∀ g, g ∈ gs ↔ g ∈ groups k (matching p)).
  { intros g. unfold gs.
    rewrite (reported_groups choose arrange arrange_perm).
    split; [tauto|]. intros Hg. split; [done|reflexivity]. }
  assert (Hgroup : ∀ g, g ∈ gs →
    ∃ r q i s m, choose g = [r; q; i; s; m] ∧ linked db r q i s m
                 ∧ cell i 1 = VText "cacao"
                 ∧ (∃ name, cell r 1 = VText name)
                 ∧ ∃ meal, meal ∈ meals ∧ cell m 1 = VText meal).
  { intros g Hg%Hgs.
    destruct (chosen_in_rows choose choose_in k _ g Hg) as [_ Hc].
    apply matching_single in Hc as (r & q & i & s & m & Hjr & Hl & Hi & Hm).
    exists r, q, i, s, m. repeat (split; [done|]). split; [|done].
    apply recipe_name_text, Hl. }
  destruct (first_texts_chosen choose gs) as (names & Hnames & Hkeys).
  { intros g Hg.
    destruct (Hgroup g Hg) as (r & q & i & s & m & -> & _ & _ & Hname & _).
    exact Hname. }
  destruct (texts_of (λ g, group_key k (choose g)) gs) as (served & Hserved).
  { intros g Hg.
    destruct (Hgroup g Hg)
      as (r & q & i & s & m & -> & _ & _ & _ & meal & _ & Hmeal).
    by exists meal. }
  exists names, served. rewrite Hrun. split; [done|]. split; [|split].
  - apply (NoDup_fmap_1 VText). rewrite Hserved.
    apply (NoDup_reported_keys choose arrange choose_in arrange_perm p k).
  - intros meal.
    rewrite <- (list_elem_of_fmap_inj VText), Hserved, list_elem_of_fmap.
    split.
    + intros (g & Hkey & Hg).
      destruct (Hgroup g Hg) as (r & q & i & s & m & Hc & Hl & Hi & _
                                 & meal' & Hmeal' & Hm).
      rewrite Hc in Hkey. change (group_key k [r; q; i; s; m])
        with (cell m 1) in Hkey.
      assert (meal' = meal) as -> by congruence.
      split; [done|]. exists r.
      destruct Hl as (Hr & Hq & Hi' & Hs & Hm' & H1 & H2 & H3 & H4).
      split; [done|]. split.
      * apply uses_spec. by exists q, i.
      * apply served_at_spec. by exists s, m.
    + intros (Hmeal & r & Hr & (q & i & Hq & Hi & H1 & H2 & Hx)%uses_spec
              & (s & m & Hs & Hm & H3 & H4 & Hm1)%served_at_spec).
      assert (Hjr : [r; q; i; s; m] ∈ matching p).
      { apply matching_single. exists r, q, i, s, m.
        split; [done|]. split; [by repeat split|]. split; [done|].
        by exists meal. }
      destruct (group_of_row k _ _ Hjr) as (g & Hg & Hin).
      exists g. split; [|by apply Hgs].
      apply (group_members choose choose_in k _ g _ Hg) in Hin as [_ <-].
      by symmetry.
  - apply (Forall2_texts (λ g, fetch (choose g) 0 1)
             (λ g, group_key k (choose g)) _ gs); [done..|].
    intros g name meal Hg Hname Hmeal.
    destruct (Hgroup g Hg) as (r & q & i & s & m & Hc & Hl & Hi & _).
    rewrite Hc in Hname, Hmeal.
    change (fetch [r; q; i; s; m] 0 1) with (cell r 1) in Hname.
    change (group_key k [r; q; i; s; m]) with (cell m 1) in Hmeal.
    destruct Hl as (Hr & Hq & Hi' & Hs & Hm' & H1 & H2 & H3 & H4).
    exists r. split; [done|]. split.
    + apply uses_spec. by exists q, i.
    + apply served_at_spec. by exists s, m.
Qed.

End FindRecipes.

(** ** [find_recipes] *)

Section FindRecipesRuns.

Variable choose : list jrow → jrow.
Variable arrange : list (list jrow) → list (list jrow).

Lemma find_recipes_with_plan conn w ingredients meals query q p :
  query = (if (length ingredients =? 1)%nat then single_ingredient_query meals
           else many_ingredients_query ingredients meals) →
  has_nul query = false →
  parse_sql query = Some (SSelect q) →
  compile_select (store w) [] q = Returned p →
  find_recipes choose arrange conn (ingredients, meals) w
  = (recipe_names (run_select choose arrange p), log_statement query [[]] w).
Proof.
  intros Hquery Hnul Hparse Hplan. unfold find_recipes.
  rewrite db_connect_fresh. unfold find_recipes_wrapped. rewrite <- Hquery.
  unfold mbind at 1, M_bind at 1. unfold execute.
  cbn [conn_closed connection]. rewrite Hnul, Hparse.
  cbn [run_statement store log_statement]. rewrite Hplan.
  cbn [mbind outcome_bind mret outcome_ret].
  unfold recipe_names, mbind, M_bind, lift, close, mret, M_ret, outcome_bind.
  by destruct (first_texts _).
Qed.

Lemma find_recipes_single_run conn w ingredient meals :
  has_schema (store w) = true →
  forallb sql_plain meals = true →
  find_recipes choose arrange conn ([ingredient], meals) w
  = (recipe_names (run_select choose arrange (single_plan (store w) meals)),
     log_statement (single_ingredient_query meals) [[]] w).
Proof.
  intros Hschema Hmeals.
  apply (find_recipes_with_plan conn w [ingredient] meals _
           (single_ingredient_select meals)); [done|..].
  - by apply has_nul_single.
  - by apply parse_single.
  - by apply compile_single.
Qed.

Lemma find_recipes_many_run conn w ingredients meals :
  has_schema (store w) = true →
  ingredients ≠ [] →
  length ingredients ≠ 1%nat →
  forallb sql_plain ingredients = true →
  forallb sql_plain meals = true →
  find_recipes choose arrange conn (ingredients, meals) w
  = (recipe_names
       (run_select choose arrange (many_plan (store w) ingredients meals)),
     log_statement (many_ingredients_query ingredients meals) [[]] w).
Proof.
  intros Hschema Hne Hlen Hi Hm.
  apply (find_recipes_with_plan conn w ingredients meals _
           (many_ingredients_select ingredients meals)).
  - by destruct (Nat.eqb_spec (length ingredients) 1).
  - by apply has_nul_many.
  - by apply parse_many.
  - by apply compile_many.
Qed.

End FindRecipesRuns.



Lemma first_row_in (g : list jrow) : g ≠ [] → first_row g ∈ g.
Proof. destruct g as [|jr g]; [done|]. intros _. by left. Qed.

Lemma keep_order_perm (gs : list (list jrow)) : keep_order gs ≡ₚ gs.
Proof. done. Qed.




Lemma parse_empty_where rest :
  parse_statement (select_tokens ++ join_tokens
                   ++ TWord "WHERE" :: TLParen :: TRParen :: rest) = None.
Proof.
  unfold parse_statement.
  assert (Hfuel : (6 ≤ length (select_tokens ++ join_tokens
                   ++ TWord "WHERE" :: TLParen :: TRParen :: rest))%nat).
  { rewrite length_app. simpl. lia. }
  revert Hfuel. generalize (length (select_tokens ++ join_tokens
                   ++ TWord "WHERE" :: TLParen :: TRParen :: rest)) as fuel.
  intros fuel Hfuel. unfold select_tokens.
  cbn [app]. change (is_kw "select" (TWord "SELECT")) with true. cbv iota.
  unfold parse_select.
  change (parse_projection (TWord "r" :: TDot :: TWord "recipe_name" :: ?r))
    with (Some (PColumn (col "r" "recipe_name"), r)).
  cbn [mbind option_bind].
  change (is_kw "from" (TWord "FROM")) with true. cbv iota.
  change (parse_table_ref (TWord "recipes" :: TWord "r" :: ?r))
    with (Some (TableRef "recipes" (Some "r"), r)).
  cbn [mbind option_bind].
  rewrite parse_joins_tokens by lia. cbn [mbind option_bind].
  destruct fuel as [|fuel]; [lia|].
  destruct rest as [|t rest]; [reflexivity|].
  destruct t; try reflexivity. destruct rest; reflexivity.
Qed.

Lemma parse_no_ingredient meals :
  parse_sql (many_ingredients_query [] meals) = None.
Proof.
  unfold parse_sql, tokenize, many_ingredients_query.
  erewrite scan_prefix by (vm_compute; reflexivity).
  cbn [fmap list_fmap join]. rewrite append_empty_l.
  erewrite scan_prefix by (vm_compute; reflexivity).
  destruct (scan LTop _) as [[more m]|]; [|done].
  cbn [mbind option_bind]. destruct (lex_flush m) as [last|]; [|done].
  cbn [mbind option_bind].
  rewrite <- !(assoc_L (++)).
  apply (parse_empty_where (_ ++ _)).
Qed.

(** C6: with no ingredient, or no meal, the call is meant to return the
    empty string.  With no ingredient the text reads "WHERE ()": whatever
    the meals, the call raises and the store is unchanged
    (OperationalError for meals = ["breakfast"]).  With no meal and two
    ingredients it returns the empty string. *)
Theorem find_recipes_no_ingredient choose arrange conn :
  (∀ meals w, ∃ e,
      find_recipes choose arrange conn ([], meals) w
      = (Raised e, log_statement (many_ingredients_query [] meals) [[]] w))
  ∧ (find_recipes choose arrange conn ([], ["breakfast"]) cocoa).1
    = Raised OperationalError
  ∧ (find_recipes first_row keep_order conn (["milk"; "cacao"], []) cocoa).1
    = Returned "".
Proof.
  split; [|split].
  - intros meals w. unfold find_recipes. rewrite db_connect_fresh.
    unfold find_recipes_wrapped. cbn [length Nat.eqb].
    unfold mbind, M_bind, execute. cbn [conn_closed connection].
    destruct (has_nul _); [by eexists|].
    rewrite parse_no_ingredient. by eexists.
  - destruct conn as [path [] fk]; vm_compute; reflexivity.
  - destruct conn as [path [] fk]; vm_compute; reflexivity.
Qed.


(** ** Keys and the place of a new row *)

Lemma keys_of_app pk rows1 rows2 :
  keys_of pk (rows1 ++ rows2) = keys_of pk rows1 ++ keys_of pk rows2.
Proof. unfold keys_of. apply omap_app. Qed.

Lemma foldr_max_le k rest x : x ∈ k :: rest → x ≤ foldr Z.max k rest.
Proof.
  induction rest as [|y rest IH] in x |- *.
  - rewrite list_elem_of_singleton. intros ->. simpl. lia.
  - rewrite !elem_of_cons. simpl. intros [->|[->|Hx]].
    + specialize (IH k). rewrite elem_of_cons in IH.
      pose proof (IH (or_introl eq_refl)). lia.
    + lia.
    + specialize (IH x). rewrite elem_of_cons in IH.
      pose proof (IH (or_intror Hx)). lia.
Qed.

(** The key given to a new row is above every key in use. *)
Lemma next_key_above t pk k :
  k ∈ keys_of pk (tbl_rows t) → k < next_key t pk.
Proof.
  intros Hk. unfold next_key.
  destruct (keys_of pk (tbl_rows t)) as [|k0 rest]; [by apply elem_of_nil in Hk|].
  apply foldr_max_le in Hk.
  destruct (ts_autoincrement _); lia.
Qed.

(** A row whose key is above every key in use goes last. *)
Lemma place_row_last pk k r rows :
  (∀ k1, k1 ∈ keys_of pk rows → k1 < k) → place_row pk k r rows = rows ++ [r].
Proof.
  induction rows as [|r1 rows IH]; [done|].
  intros Hk. simpl.
  assert (Hrest : ∀ k1, k1 ∈ keys_of pk rows → k1 < k).
  { intros k1 Hk1. apply Hk. unfold keys_of in *. simpl.
    destruct (cell r1 pk); try done. by apply elem_of_cons; right. }
  destruct (cell r1 pk) as [|k1|] eqn:Hc; try by rewrite IH.
  assert (k1 < k).
  { apply Hk. unfold keys_of. simpl. rewrite Hc. by apply elem_of_cons; left. }
  destruct (Z.ltb_spec k k1); [lia|]. by rewrite IH.
Qed.

Lemma next_key_fresh t pk r :
  r ∈ tbl_rows t → sql_eq (cell r pk) (VInt (next_key t pk)) = false.
Proof.
  intros Hr. destruct (sql_eq _ _) eqn:He; [|done].
  unfold sql_eq in He. destruct (cell r pk) as [|k|] eqn:Hc; try done.
  apply bool_decide_eq_true in He. injection He as He.
  assert (k ∈ keys_of pk (tbl_rows t)).
  { unfold keys_of. apply list_elem_of_omap. exists r. by rewrite Hc. }
  apply next_key_above in H. lia.
Qed.

(** ** One statement on one table *)

Lemma existsb_key_fresh t pk :
  existsb (λ r, sql_eq (cell r pk) (VInt (next_key t pk))) (tbl_rows t) = false.
Proof.
  destruct (existsb _ _) eqn:He; [|done].
  apply existsb_exists in He as (r & Hr & He).
  apply list_elem_of_In in Hr. by rewrite next_key_fresh in He.
Qed.

Lemma existsb_name rows x :
  existsb (λ r, sql_eq (cell r 1) (VText x)) rows
  = bool_decide (VText x ∈ names_of rows).
Proof.
  unfold names_of. induction rows as [|r rows IH]; [done|].
  cbn [existsb]. rewrite IH, fmap_cons.
  destruct (sql_eq (cell r 1) (VText x)) eqn:He.
  - apply sql_eq_text in He. simpl. symmetry. apply bool_decide_eq_true.
    rewrite He. by apply elem_of_cons; left.
  - simpl. apply bool_decide_ext. rewrite elem_of_cons.
    split; [tauto|]. intros [Heq|]; [|done].
    symmetry in Heq. apply sql_eq_text in Heq. congruence.
Qed.

Lemma existsb_null rows j :
  existsb (λ r : row, sql_eq (cell r j) VNull) rows = false.
Proof.
  induction rows as [|r rows IH]; [done|]. simpl. rewrite IH.
  by destruct (cell r j).
Qed.

Lemma place_next_key t pk r :
  place_row pk (next_key t pk) r (tbl_rows t) = tbl_rows t ++ [r].
Proof. apply place_row_last. intros k. apply next_key_above. Qed.

Ltac run_insert_on Hdb Hsch :=
  unfold run_insert, find_table; rewrite Hdb;
  cbn [mbind outcome_bind]; unfold column_names; rewrite Hsch;
  cbn -[next_key place_row repeats_unique null_in_not_null];
  unfold null_in_not_null, repeats_unique, indexed_columns; rewrite Hsch;
  cbn -[next_key place_row sql_eq];
  rewrite ?existsb_key_fresh, ?existsb_name, ?existsb_null, ?place_next_key;
  unfold with_rows; rewrite ?Hsch.

(** A text into the name column of meals, ingredients or measures: refused
    when a row has that name, otherwise a new last row under a new key. *)
Lemma run_insert_name db name col sch t x :
  (name, (col, sch)) ∈ [("meals", ("meal_name", meals_schema));
                         ("ingredients", ("ingredient_name", ingredients_schema));
                         ("measures", ("measure_name", measures_schema))] →
  db !! name = Some t →
  tbl_schema t = sch →
  run_insert false [("value", VText x)] db name [col] [OParam "value"]
  = if bool_decide (VText x ∈ names_of (tbl_rows t)) then Raised IntegrityError
    else Returned (<[name := with_rows t (tbl_rows t
                                          ++ [[VInt (next_key t 0); VText x]])]> db).
Proof.
  rewrite !elem_of_cons, elem_of_nil.
  intros [Hn|[Hn|[Hn|[]]]] Hdb Hsch; injection Hn as -> -> ->;
    run_insert_on Hdb Hsch; by destruct (bool_decide _).
Qed.

(** No name at all: meals and ingredients refuse it (NOT NULL), measures
    takes it, however many rows without a name it has. *)
Lemma run_insert_no_name db name col sch t :
  (name, (col, sch)) ∈ [("meals", ("meal_name", meals_schema));
                         ("ingredients", ("ingredient_name", ingredients_schema));
                         ("measures", ("measure_name", measures_schema))] →
  db !! name = Some t →
  tbl_schema t = sch →
  run_insert false [("value", VNull)] db name [col] [OParam "value"]
  = if bool_decide (name = "measures")
    then Returned (<[name := with_rows t (tbl_rows t
                                          ++ [[VInt (next_key t 0); VNull]])]> db)
    else Raised IntegrityError.
Proof.
  rewrite !elem_of_cons, elem_of_nil.
  intros [Hn|[Hn|[Hn|[]]]] Hdb Hsch; injection Hn as -> -> ->;
    run_insert_on Hdb Hsch; done.
Qed.

(** A recipe: the name must not be NULL; names may repeat. *)
Lemma run_insert_recipe db t v1 v2 :
  db !! "recipes" = Some t →
  tbl_schema t = recipes_schema →
  run_insert false [("value1", v1); ("value2", v2)] db "recipes"
             ["recipe_name"; "recipe_description"]
             [OParam "value1"; OParam "value2"]
  = if non_null v1
    then Returned (<["recipes" := with_rows t (tbl_rows t
                                   ++ [[VInt (next_key t 0); v1; v2]])]> db)
    else Raised IntegrityError.
Proof.
  intros Hdb Hsch. run_insert_on Hdb Hsch. by destruct v1.
Qed.

(** A serve row, foreign keys not enforced: both columns must be given. *)
Lemma run_insert_serve db t v1 v2 :
  db !! "serve" = Some t →
  tbl_schema t = serve_schema →
  run_insert false [("value1", v1); ("value2", v2)] db "serve"
             ["recipe_id"; "meal_id"] [OParam "value1"; OParam "value2"]
  = if non_null v1 && non_null v2
    then Returned (<["serve" :=
                      Table serve_schema
                            (Z.max (next_key t 0) (tbl_sequence t))
                            (tbl_rows t ++ [[VInt (next_key t 0); v1; v2]])]> db)
    else Raised IntegrityError.
Proof.
  intros Hdb Hsch. run_insert_on Hdb Hsch. by destruct v1, v2.
Qed.

Lemma select_one_table (P : jrow → bool) (Q : row → bool) (rows : list row) :
  (∀ r, P [r] = Q r) →
  project None <$> filter (λ jr, P jr) ((λ r, [r]) <$> rows)
  = filter (λ r, Q r) rows.
Proof.
  intros HPQ. induction rows as [|r rows IH]; [done|].
  rewrite fmap_cons, !filter_cons. rewrite <- IH.
  destruct (decide (P [r])) as [HP|HP], (decide (Q r)) as [HQ|HQ];
    rewrite HPQ in HP; try done.
  rewrite fmap_cons. simpl. by rewrite app_nil_r.
Qed.

(** SELECT * with the name column compared to the bound value: the rows of
    that name, in the order of the table; the store stays as it is. *)
Lemma run_select_name choose arrange db name col sch t v :
  (name, (col, sch)) ∈ [("meals", ("meal_name", meals_schema));
                         ("ingredients", ("ingredient_name", ingredients_schema));
                         ("measures", ("measure_name", measures_schema));
                         ("recipes", ("recipe_name", recipes_schema))] →
  db !! name = Some t →
  tbl_schema t = sch →
  run_statement choose arrange false [("value", v)] db
    (SSelect (SelectStmt PStar (TableRef name None) []
                (Some [[CEq (OColumn (ColRef None col)) (OParam "value")]])
                None None))
  = Returned (db, filter (λ r, sql_eq (cell r 1) v) (tbl_rows t)).
Proof.
  rewrite !elem_of_cons, elem_of_nil.
  intros [Hn|[Hn|[Hn|[Hn|[]]]]] Hdb Hsch; injection Hn as -> -> ->;
    unfold run_statement, compile_select, find_table;
    cbn [sel_from tr_table]; rewrite Hdb;
    cbn [mbind outcome_bind sel_joins compile_joins];
    unfold scope_entry, column_names; rewrite Hsch;
    cbn -[run_select]; unfold run_select, matching, joined; cbn;
    f_equal; f_equal;
    apply (select_one_table (λ jr, (sql_eq (fetch jr 0 1) v || false) && true));
    intros r; unfold fetch; simpl; by destruct (sql_eq _ _).
Qed.

(** SELECT * without a condition: every row, in the order of the table. *)
Lemma run_select_all choose arrange db name t :
  db !! name = Some t →
  run_statement choose arrange false [] db
    (SSelect (SelectStmt PStar (TableRef name None) [] None None None))
  = Returned (db, tbl_rows t).
Proof.
  intros Hdb. unfold run_statement, compile_select, find_table.
  cbn [sel_from tr_table]. rewrite Hdb. cbn -[run_select].
  unfold run_select, matching, joined. cbn.
  f_equal. f_equal.
  induction (tbl_rows t) as [|r rows IH]; [done|].
  rewrite fmap_cons, filter_cons_True by done.
  rewrite fmap_cons, IH. simpl. by rewrite app_nil_r.
Qed.

(** A quantity row, foreign keys not enforced: all four columns must be
    given. *)
Lemma run_insert_quantity db t v1 v2 v3 v4 :
  db !! "quantity" = Some t →
  tbl_schema t = quantity_schema →
  run_insert false [("value1", v1); ("value2", v2); ("value3", v3); ("value4", v4)]
             db "quantity"
             ["quantity"; "recipe_id"; "measure_id"; "ingredient_id"]
             [OParam "value1"; OParam "value2"; OParam "value3"; OParam "value4"]
  = if non_null v1 && non_null v2 && non_null v3 && non_null v4
    then Returned (<["quantity" :=
                      Table quantity_schema
                            (Z.max (next_key t 0) (tbl_sequence t))
                            (tbl_rows t
                             ++ [[VInt (next_key t 0); v1; v2; v3; v4]])]> db)
    else Raised IntegrityError.
Proof.
  intros Hdb Hsch. run_insert_on Hdb Hsch. by destruct v1, v2, v3, v4.
Qed.

Lemma foldr_max_top a rest : (∀ y, y ∈ rest → y ≤ a) → foldr Z.max a rest = a.
Proof.
  induction rest as [|y rest IH]; [done|].
  intros Hle. simpl. rewrite IH.
  - specialize (Hle y). rewrite elem_of_cons in Hle.
    pose proof (Hle (or_introl eq_refl)). lia.
  - intros z Hz. apply Hle. by apply elem_of_cons; right.
Qed.

(** After a row took the next key, the next key is one more. *)
Lemma next_key_succ t pk r :
  cell r pk = VInt (next_key t pk) →
  next_key (Table (tbl_schema t)
                  (if ts_autoincrement (tbl_schema t)
                   then Z.max (next_key t pk) (tbl_sequence t)
                   else tbl_sequence t)
                  (tbl_rows t ++ [r])) pk
  = next_key t pk + 1.
Proof.
  intros Hr.
  pose proof (next_key_above t pk) as Habove.
  assert (Hseq : ts_autoincrement (tbl_schema t) = true →
                 tbl_sequence t < next_key t pk).
  { intros Ha. unfold next_key. rewrite Ha. lia. }
  set (k := next_key t pk) in *.
  unfold next_key at 1. cbn [tbl_rows tbl_schema tbl_sequence].
  rewrite keys_of_app.
  assert (Hk : keys_of pk [r] = [k]).
  { unfold keys_of. simpl. by rewrite Hr. }
  rewrite Hk.
  assert (Htop : match keys_of pk (tbl_rows t) ++ [k] with
                 | [] => 0
                 | k0 :: rest => foldr Z.max k0 rest
                 end = k).
  { destruct (keys_of pk (tbl_rows t)) as [|k0 rest]; [done|].
    simpl. rewrite foldr_app. simpl.
    assert (k0 < k) by (apply Habove; by apply elem_of_cons; left).
    rewrite Z.max_l by lia.
    apply foldr_max_top. intros y Hy.
    assert (y < k) by (apply Habove; by apply elem_of_cons; right). lia. }
  rewrite Htop.
  destruct (ts_autoincrement (tbl_schema t)); [|lia].
  specialize (Hseq eq_refl). lia.
Qed.

(** ** The module's calls on a store with the schema *)

Lemma world_eta w : World (db_name w) (store w) (journal w) = w.
Proof. by destruct w. Qed.

Lemma rows_of_lookup db name t : db !! name = Some t → rows_of db name = tbl_rows t.
Proof. intros H. unfold rows_of. by rewrite H. Qed.

Lemma filter_named (x : string) (rows : list row) :
  filter (λ r, sql_eq (cell r 1) (VText x)) rows
  = filter (λ r, cell r 1 = VText x) rows.
Proof.
  apply list_filter_iff. intros r. rewrite Is_true_true. apply sql_eq_text.
Qed.

Lemma filter_no_name (rows : list row) :
  filter (λ r, sql_eq (cell r 1) VNull) rows = [].
Proof.
  apply filter_none. intros r. unfold sql_eq. destruct (cell r 1); simpl; tauto.
Qed.

(** The registry tables with their name column and schema. *)
Lemma registry_entry db table_name :
  has_schema db = true →
  table_name ∈ ["meals"; "ingredients"; "measures"; "recipes"] →
  ∃ col sch t,
    (table_name, (col, sch)) ∈ [("meals", ("meal_name", meals_schema));
                         ("ingredients", ("ingredient_name", ingredients_schema));
                         ("measures", ("measure_name", measures_schema));
                         ("recipes", ("recipe_name", recipes_schema))]
    ∧ db !! table_name = Some t ∧ tbl_schema t = sch.
Proof.
  intros Hs. rewrite !elem_of_cons, elem_of_nil.
  intros [->|[->|[->|[->|[]]]]].
  - destruct (schema_table db "meals" meals_schema Hs) as (t & ? & ?);
      [set_solver|]. exists "meal_name", meals_schema, t. set_solver.
  - destruct (schema_table db "ingredients" ingredients_schema Hs) as (t & ? & ?);
      [set_solver|]. exists "ingredient_name", ingredients_schema, t. set_solver.
  - destruct (schema_table db "measures" measures_schema Hs) as (t & ? & ?);
      [set_solver|]. exists "measure_name", measures_schema, t. set_solver.
  - destruct (schema_table db "recipes" recipes_schema Hs) as (t & ? & ?);
      [set_solver|]. exists "recipe_name", recipes_schema, t. set_solver.
Qed.

Lemma attribute_conf_entry name col sch :
  (name, (col, sch)) ∈ [("meals", ("meal_name", meals_schema));
                         ("ingredients", ("ingredient_name", ingredients_schema));
                         ("measures", ("measure_name", measures_schema));
                         ("recipes", ("recipe_name", recipes_schema))] →
  attribute_conf (PStr name) = Some col.
Proof.
  rewrite !elem_of_cons, elem_of_nil.
  intros [Hn|[Hn|[Hn|[Hn|[]]]]]; injection Hn as -> -> ->;
    vm_compute; reflexivity.
Qed.

Lemma parse_select_name name col sch :
  (name, (col, sch)) ∈ [("meals", ("meal_name", meals_schema));
                         ("ingredients", ("ingredient_name", ingredients_schema));
                         ("measures", ("measure_name", measures_schema));
                         ("recipes", ("recipe_name", recipes_schema))] →
  has_nul ("SELECT * FROM " +:+ name +:+ " WHERE " +:+ col +:+ " = :value;")
  = false
  ∧ parse_sql ("SELECT * FROM " +:+ name +:+ " WHERE " +:+ col +:+ " = :value;")
    = Some (SSelect (SelectStmt PStar (TableRef name None) []
                (Some [[CEq (OColumn (ColRef None col)) (OParam "value")]])
                None None)).
Proof.
  rewrite !elem_of_cons, elem_of_nil.
  intros [Hn|[Hn|[Hn|[Hn|[]]]]]; injection Hn as -> -> ->;
    split; vm_compute; reflexivity.
Qed.

Section Calls.

Variable choose : list jrow → jrow.
Variable arrange : list (list jrow) → list (list jrow).

Lemma execute_run conn query b w st :
  conn_closed conn = false →
  has_nul query = false →
  parse_sql query = Some st →
  execute choose arrange conn query b w
  = match run_statement choose arrange (conn_foreign_keys conn) b (store w) st with
    | Raised e => (Raised e, log_statement query [b] w)
    | Returned (db, rows) =>
        (Returned rows, set_store db (log_statement query [b] w))
    end.
Proof.
  intros Hopen Hnul Hparse. unfold execute. by rewrite Hopen, Hnul, Hparse.
Qed.

(** [select_db] on a registry table, with a text or [None] for the name. *)
Lemma select_db_run conn w name col sch t value :
  (name, (col, sch)) ∈ [("meals", ("meal_name", meals_schema));
                         ("ingredients", ("ingredient_name", ingredients_schema));
                         ("measures", ("measure_name", measures_schema));
                         ("recipes", ("recipe_name", recipes_schema))] →
  store w !! name = Some t →
  tbl_schema t = sch →
  select_db choose arrange conn [PStr name; value] w
  = (Returned (head (filter (λ r, sql_eq (cell r 1) (adapt value)) (tbl_rows t))),
     log_statement ("SELECT * FROM " +:+ name +:+ " WHERE " +:+ col +:+ " = :value;")
                   [[("value", adapt value)]] w).
Proof.
  intros Hin Hdb Hsch. unfold select_db. rewrite db_connect_fresh.
  destruct (parse_select_name name col sch Hin) as [Hnul Hparse].
  unfold select_db_wrapped. cbn [length Nat.eqb negb unpack2 lift].
  unfold mbind at 1; unfold M_bind at 1; unfold lift; cbv beta iota.
  rewrite (attribute_conf_entry name col sch Hin). cbn [py_str].
  unfold mbind at 1; unfold M_bind at 1.
  rewrite (execute_run (connection (db_name w)) _ _ _ _ eq_refl Hnul Hparse).
  cbn [conn_foreign_keys connection].
  rewrite (run_select_name choose arrange (store w) name col sch t (adapt value)
             Hin Hdb Hsch).
  unfold mbind, M_bind, close, mret, M_ret, set_store, log_statement, fetchone.
  cbn. reflexivity.
Qed.

(** A statement run in [with conn:] and then committed. *)
Lemma committed {A} conn (stmt : M A) w :
  conn_closed conn = false →
  (_ ← with_conn conn stmt; commit conn) w
  = match stmt w with
    | (Returned _, w1) => (Returned (), w1)
    | (Raised e, w1) => (Raised e, set_store (store w) w1)
    end.
Proof.
  intros Hopen. unfold mbind, M_bind, with_conn, commit.
  destruct (stmt w) as [[a|e] w1]; [|done]. by rewrite Hopen.
Qed.

Lemma parse_insert_name name col sch :
  (name, (col, sch)) ∈ [("meals", ("meal_name", meals_schema));
                         ("ingredients", ("ingredient_name", ingredients_schema));
                         ("measures", ("measure_name", measures_schema));
                         ("recipes", ("recipe_name", recipes_schema))] →
  has_nul ("INSERT INTO " +:+ name +:+ "(" +:+ col +:+ ") VALUES (:value);") = false
  ∧ parse_sql ("INSERT INTO " +:+ name +:+ "(" +:+ col +:+ ") VALUES (:value);")
    = Some (SInsert name [col] [OParam "value"])
  ∧ has_nul ("INSERT INTO " +:+ name +:+ " (" +:+ col +:+ ") VALUES (:value);")
    = false
  ∧ parse_sql ("INSERT INTO " +:+ name +:+ " (" +:+ col +:+ ") VALUES (:value);")
    = Some (SInsert name [col] [OParam "value"]).
Proof.
  rewrite !elem_of_cons, elem_of_nil.
  intros [Hn|[Hn|[Hn|[Hn|[]]]]]; injection Hn as -> -> ->;
    repeat split; vm_compute; reflexivity.
Qed.

Lemma reference_registry name col sch :
  (name, (col, sch)) ∈ [("meals", ("meal_name", meals_schema));
                         ("ingredients", ("ingredient_name", ingredients_schema));
                         ("measures", ("measure_name", measures_schema))] →
  (name, (col, sch)) ∈ [("meals", ("meal_name", meals_schema));
                         ("ingredients", ("ingredient_name", ingredients_schema));
                         ("measures", ("measure_name", measures_schema));
                         ("recipes", ("recipe_name", recipes_schema))].
Proof. rewrite !elem_of_cons. tauto. Qed.

(** [insert_ingredient_measure] of a text into a reference table. *)
Lemma insert_ingredient_measure_run conn w name col sch t x :
  (name, (col, sch)) ∈ [("meals", ("meal_name", meals_schema));
                         ("ingredients", ("ingredient_name", ingredients_schema));
                         ("measures", ("measure_name", measures_schema))] →
  store w !! name = Some t →
  tbl_schema t = sch →
  insert_ingredient_measure choose arrange conn [PStr name; PStr x] w
  = let w1 := log_statement
                ("INSERT INTO " +:+ name +:+ "(" +:+ col +:+ ") VALUES (:value);")
                [[("value", VText x)]] w in
    if bool_decide (VText x ∈ names_of (tbl_rows t)) then (Raised IntegrityError, w1)
    else (Returned (),
          set_store (<[name := with_rows t (tbl_rows t
                                  ++ [[VInt (next_key t 0); VText x]])]> (store w))
                    w1).
Proof.
  intros Hin Hdb Hsch. unfold insert_ingredient_measure. rewrite db_connect_fresh.
  destruct (parse_insert_name name col sch (reference_registry _ _ _ Hin))
    as (Hnul & Hparse & _).
  unfold insert_ingredient_measure_wrapped.
  cbn [length Nat.eqb negb unpack2 lift].
  unfold mbind at 1; unfold M_bind at 1; unfold lift; cbv beta iota.
  rewrite (attribute_conf_entry name col sch (reference_registry _ _ _ Hin)).
  cbn [py_str adapt].
  rewrite committed by done.
  rewrite (execute_run (connection (db_name w)) _ _ _ _ eq_refl Hnul Hparse).
  cbn [conn_foreign_keys connection run_statement].
  rewrite (run_insert_name (store w) name col sch t x Hin Hdb Hsch).
  destruct (bool_decide _); cbn [mbind outcome_bind]; [|done].
  unfold set_store, log_statement. cbn. reflexivity.
Qed.

(** [insert_to_recipe]: the name must be given. *)
Lemma insert_to_recipe_run conn w t recipe_name recipe_desc :
  store w !! "recipes" = Some t →
  tbl_schema t = recipes_schema →
  insert_to_recipe choose arrange conn [recipe_name; recipe_desc] w
  = let w1 := log_statement
                "INSERT INTO recipes([recipe_name], [recipe_description]) VALUES (:value1, :value2);"
                [[("value1", adapt recipe_name); ("value2", adapt recipe_desc)]] w in
    if non_null (adapt recipe_name)
    then (Returned (),
          set_store (<["recipes" := with_rows t (tbl_rows t
                        ++ [[VInt (next_key t 0); adapt recipe_name;
                             adapt recipe_desc]])]> (store w)) w1)
    else (Raised IntegrityError, w1).
Proof.
  intros Hdb Hsch. unfold insert_to_recipe. rewrite db_connect_fresh.
  unfold insert_to_recipe_wrapped.
  cbn [length Nat.eqb negb unpack2 lift].
  unfold mbind at 1; unfold M_bind at 1; unfold lift; cbv beta iota.
  rewrite committed by done.
  rewrite (execute_run (connection (db_name w)) _ _ _
             (SInsert "recipes" ["recipe_name"; "recipe_description"]
                      [OParam "value1"; OParam "value2"]) eq_refl)
    by (vm_compute; reflexivity).
  cbn [conn_foreign_keys connection run_statement].
  rewrite (run_insert_recipe (store w) t _ _ Hdb Hsch).
  destruct (non_null _); cbn [mbind outcome_bind]; [done|].
  unfold set_store, log_statement. cbn. reflexivity.
Qed.

(** [insert_to_serve]: both ids must be given; nothing else is asked. *)
Lemma insert_to_serve_run conn w t recipe_id meal_id :
  store w !! "serve" = Some t →
  tbl_schema t = serve_schema →
  insert_to_serve choose arrange conn [recipe_id; meal_id] w
  = let w1 := log_statement
                "INSERT INTO serve([recipe_id], [meal_id]) VALUES (:value1, :value2);"
                [[("value1", adapt recipe_id); ("value2", adapt meal_id)]] w in
    if non_null (adapt recipe_id) && non_null (adapt meal_id)
    then (Returned (),
          set_store (<["serve" :=
                        Table serve_schema
                              (Z.max (next_key t 0) (tbl_sequence t))
                              (tbl_rows t ++ [[VInt (next_key t 0); adapt recipe_id;
                                               adapt meal_id]])]> (store w)) w1)
    else (Raised IntegrityError, w1).
Proof.
  intros Hdb Hsch. unfold insert_to_serve. rewrite db_connect_fresh.
  unfold insert_to_serve_wrapped.
  cbn [length Nat.eqb negb unpack2 lift].
  unfold mbind at 1; unfold M_bind at 1; unfold lift; cbv beta iota.
  rewrite committed by done.
  rewrite (execute_run (connection (db_name w)) _ _ _
             (SInsert "serve" ["recipe_id"; "meal_id"]
                      [OParam "value1"; OParam "value2"]) eq_refl)
    by (vm_compute; reflexivity).
  cbn [conn_foreign_keys connection run_statement].
  rewrite (run_insert_serve (store w) t _ _ Hdb Hsch).
  destruct (_ && _); cbn [mbind outcome_bind]; [done|].
  unfold set_store, log_statement. cbn. reflexivity.
Qed.

(** [insert_to_quantity] with the table name [blog.py] passes. *)
Lemma insert_to_quantity_run conn w t quantity recipe_id measure_id ingredient_id :
  store w !! "quantity" = Some t →
  tbl_schema t = quantity_schema →
  insert_to_quantity choose arrange conn
    [PStr "quantity"; quantity; recipe_id; measure_id; ingredient_id] w
  = let w1 := log_statement
                "INSERT INTO quantity(quantity, [recipe_id], [measure_id], [ingredient_id]) VALUES (:value1, :value2, :value3, :value4);"
                [[("value1", adapt quantity); ("value2", adapt recipe_id);
                  ("value3", adapt measure_id); ("value4", adapt ingredient_id)]]
                w in
    if non_null (adapt quantity) && non_null (adapt recipe_id)
       && non_null (adapt measure_id) && non_null (adapt ingredient_id)
    then (Returned (),
          set_store (<["quantity" :=
                        Table quantity_schema
                              (Z.max (next_key t 0) (tbl_sequence t))
                              (tbl_rows t
                               ++ [[VInt (next_key t 0); adapt quantity;
                                    adapt recipe_id; adapt measure_id;
                                    adapt ingredient_id]])]> (store w)) w1)
    else (Raised IntegrityError, w1).
Proof.
  intros Hdb Hsch. unfold insert_to_quantity. rewrite db_connect_fresh.
  unfold insert_to_quantity_wrapped.
  cbn [length Nat.eqb negb]. cbn [py_str].
  rewrite committed by done.
  rewrite (execute_run (connection (db_name w)) _ _ _
             (SInsert "quantity"
                      ["quantity"; "recipe_id"; "measure_id"; "ingredient_id"]
                      [OParam "value1"; OParam "value2"; OParam "value3";
                       OParam "value4"]) eq_refl)
    by (vm_compute; reflexivity).
  cbn [conn_foreign_keys connection run_statement].
  rewrite (run_insert_quantity (store w) t _ _ _ _ Hdb Hsch).
  destruct (_ && _); cbn [mbind outcome_bind]; [done|].
  unfold set_store, log_statement. cbn. reflexivity.
Qed.

End Calls.

(** ** Names in the reference tables *)

Lemma reference_entry db table_name :
  has_schema db = true →
  table_name ∈ ["meals"; "ingredients"; "measures"] →
  ∃ col sch t,
    (table_name, (col, sch)) ∈ [("meals", ("meal_name", meals_schema));
                         ("ingredients", ("ingredient_name", ingredients_schema));
                         ("measures", ("measure_name", measures_schema))]
    ∧ db !! table_name = Some t ∧ tbl_schema t = sch.
Proof.
  intros Hs Hin.
  destruct (registry_entry db table_name Hs) as (col & sch & t & He & Hdb & Hsch).
  { revert Hin. rewrite !elem_of_cons. tauto. }
  exists col, sch, t. split; [|done].
  revert Hin He. rewrite !elem_of_cons, !elem_of_nil.
  intros [->|[->|[->|[]]]] [He|[He|[He|[He|[]]]]]; simplify_eq;
    repeat first [left; congruence | right].
Qed.

Lemma has_schema_insert db name t t' :
  has_schema db = true →
  db !! name = Some t →
  tbl_schema t' = tbl_schema t →
  has_schema (<[name := t']> db) = true.
Proof.
  unfold has_schema. rewrite !forallb_forall. intros Hall Hdb Hsch [n sch] Hin.
  specialize (Hall (n, sch) Hin). cbn [fst snd] in *.
  destruct (decide (n = name)) as [->|Hne].
  - rewrite lookup_insert_eq. rewrite Hdb in Hall. by rewrite Hsch.
  - by rewrite lookup_insert_ne.
Qed.

(** [select_db] on a table of the registry returns the first row of the
    table (the inserts keep a table in the order of its keys) whose name is
    the text asked for, and [None] when no row has it; asked for [None] it
    finds nothing, whatever the rows; the store stays as it was.  The
    handle may be any, closed ones included. *)
Theorem select_db_first_match choose arrange conn w table_name (x : string) :
  has_schema (store w) = true →
  table_name ∈ ["meals"; "ingredients"; "measures"; "recipes"] →
  (select_db choose arrange conn [PStr table_name; PStr x] w).1
  = Returned (head (filter (λ r, cell r 1 = VText x)
                           (rows_of (store w) table_name)))
  ∧ (select_db choose arrange conn [PStr table_name; PNone] w).1 = Returned None
  ∧ store (after (select_db choose arrange conn [PStr table_name; PStr x]) w)
    = store w.
Proof.
  intros Hs Hin.
  destruct (registry_entry _ _ Hs Hin) as (col & sch & t & He & Hdb & Hsch).
  unfold after.
  rewrite !(select_db_run choose arrange conn w table_name col sch t _ He Hdb Hsch).
  cbn [fst snd adapt]. rewrite filter_named, filter_no_name.
  by rewrite (rows_of_lookup _ _ _ Hdb).
Qed.

Lemma select_db_first_match_witness :
  (select_db first_row keep_order blog_conn [PStr "meals"; PStr "lunch"] seeded).1
  = Returned (Some [VInt 3; VText "lunch"]).
Proof.
  destruct (select_db_first_match first_row keep_order blog_conn seeded "meals"
              "lunch") as (Hfound & _).
  - vm_compute. reflexivity.
  - rewrite !elem_of_cons. tauto.
  - rewrite Hfound. vm_compute. reflexivity.
Defined.

(** [insert_ingredient_measure] of a name that meals, ingredients or
    measures does not hold yet returns normally; the table gains one row,
    placed last, with that name under a key above every key in use; no
    other table changes, and the store keeps the schema. *)
Theorem insert_ingredient_measure_adds choose arrange conn w table_name
    (x : string) :
  has_schema (store w) = true →
  table_name ∈ ["meals"; "ingredients"; "measures"] →
  VText x ∉ names_of (rows_of (store w) table_name) →
  (insert_ingredient_measure choose arrange conn [PStr table_name; PStr x] w).1
  = Returned ()
  ∧ let db := store (after (insert_ingredient_measure choose arrange conn
                              [PStr table_name; PStr x]) w) in
    (∃ k, (∀ k1, k1 ∈ keys_of 0 (rows_of (store w) table_name) → k1 < k)
          ∧ rows_of db table_name
            = rows_of (store w) table_name ++ [[VInt k; VText x]])
    ∧ (∀ other, other ≠ table_name → db !! other = store w !! other)
    ∧ has_schema db = true.
Proof.
  intros Hs Hin Hnew.
  destruct (reference_entry _ _ Hs Hin) as (col & sch & t & He & Hdb & Hsch).
  rewrite (rows_of_lookup _ _ _ Hdb) in *.
  unfold after.
  rewrite (insert_ingredient_measure_run choose arrange conn w table_name col sch t
             x He Hdb Hsch).
  cbv zeta. rewrite bool_decide_eq_false_2 by done.
  cbn [fst snd store set_store].
  split; [done|]. split; [|split].
  - exists (next_key t 0). split; [apply next_key_above|].
    unfold rows_of. by rewrite lookup_insert_eq.
  - intros other Hother. by rewrite lookup_insert_ne.
  - by apply (has_schema_insert _ _ t).
Qed.

Lemma insert_ingredient_measure_adds_witness :
  (insert_ingredient_measure first_row keep_order blog_conn
     [PStr "ingredients"; PStr "vanilla"] seeded).1 = Returned ().
Proof.
  apply (insert_ingredient_measure_adds first_row keep_order blog_conn seeded
           "ingredients" "vanilla").
  - vm_compute. reflexivity.
  - rewrite !elem_of_cons. tauto.
  - apply (bool_decide_unpack _). vm_compute. exact I.
Defined.

(** [insert_ingredient_measure] of a name that meals, ingredients or
    measures already holds raises [IntegrityError] (the name column is
    UNIQUE) and leaves the store as it was. *)
Theorem insert_ingredient_measure_duplicate choose arrange conn w table_name
    (x : string) :
  has_schema (store w) = true →
  table_name ∈ ["meals"; "ingredients"; "measures"] →
  VText x ∈ names_of (rows_of (store w) table_name) →
  (insert_ingredient_measure choose arrange conn [PStr table_name; PStr x] w).1
  = Raised IntegrityError
  ∧ store (after (insert_ingredient_measure choose arrange conn
                    [PStr table_name; PStr x]) w) = store w.
Proof.
  intros Hs Hin Hold.
  destruct (reference_entry _ _ Hs Hin) as (col & sch & t & He & Hdb & Hsch).
  rewrite (rows_of_lookup _ _ _ Hdb) in *.
  unfold after.
  rewrite (insert_ingredient_measure_run choose arrange conn w table_name col sch t
             x He Hdb Hsch).
  cbv zeta. by rewrite bool_decide_eq_true_2 by done.
Qed.

Lemma insert_ingredient_measure_duplicate_witness :
  (insert_ingredient_measure first_row keep_order blog_conn
     [PStr "ingredients"; PStr "milk"] seeded).1 = Raised IntegrityError.
Proof.
  apply (insert_ingredient_measure_duplicate first_row keep_order blog_conn seeded
           "ingredients" "milk").
  - vm_compute. reflexivity.
  - rewrite !elem_of_cons. tauto.
  - apply (bool_decide_unpack _). vm_compute. exact I.
Defined.

(** ** Insert, then look up *)

Lemma filter_absent (x : string) (rows : list row) :
  VText x ∉ names_of rows → filter (λ r, cell r 1 = VText x) rows = [].
Proof.
  unfold names_of. induction rows as [|r rows IH]; [done|].
  rewrite fmap_cons, not_elem_of_cons. intros [Hr Hrows].
  rewrite filter_cons_False by done. by apply IH.
Qed.

(** A name that meals, ingredients or measures does not hold is not found
    by [select_db]; once [insert_ingredient_measure] has added it,
    [select_db] returns its row, the name under a key above every key that
    was in use; the answer for any other name is what it was. *)
Theorem insert_then_select choose arrange conn conn' w table_name (x : string) :
  has_schema (store w) = true →
  table_name ∈ ["meals"; "ingredients"; "measures"] →
  VText x ∉ names_of (rows_of (store w) table_name) →
  let w' := after (insert_ingredient_measure choose arrange conn
                     [PStr table_name; PStr x]) w in
  (select_db choose arrange conn' [PStr table_name; PStr x] w).1 = Returned None
  ∧ (∃ k, (∀ k1, k1 ∈ keys_of 0 (rows_of (store w) table_name) → k1 < k)
          ∧ (select_db choose arrange conn' [PStr table_name; PStr x] w').1
            = Returned (Some [VInt k; VText x]))
  ∧ (∀ y : string, y ≠ x →
       (select_db choose arrange conn' [PStr table_name; PStr y] w').1
       = (select_db choose arrange conn' [PStr table_name; PStr y] w).1).
Proof.
  intros Hs Hin Hnew.
  destruct (reference_entry _ _ Hs Hin) as (col & sch & t & He & Hdb & Hsch).
  pose proof (reference_registry _ _ _ He) as He4.
  rewrite (rows_of_lookup _ _ _ Hdb) in *.
  unfold after.
  rewrite (insert_ingredient_measure_run choose arrange conn w table_name col sch t
             x He Hdb Hsch).
  cbv zeta. rewrite bool_decide_eq_false_2 by done. cbn [snd].
  set (t' := with_rows t (tbl_rows t ++ [[VInt (next_key t 0); VText x]])).
  set (w' := set_store _ _).
  assert (Hdb' : store w' !! table_name = Some t').
  { unfold w'. cbn [store set_store]. by rewrite lookup_insert_eq. }
  assert (Hsch' : tbl_schema t' = sch) by done.
  assert (Hlook : ∀ (w0 : world) t0 (y : string),
            store w0 !! table_name = Some t0 → tbl_schema t0 = sch →
            (select_db choose arrange conn' [PStr table_name; PStr y] w0).1
            = Returned (head (filter (λ r, cell r 1 = VText y) (tbl_rows t0)))).
  { intros w0 t0 y H0 H1.
    rewrite (select_db_run choose arrange conn' w0 table_name col sch t0 _
               He4 H0 H1).
    cbn [fst adapt]. by rewrite filter_named. }
  split; [|split].
  - rewrite (Hlook w t x Hdb Hsch). by rewrite filter_absent.
  - exists (next_key t 0). split; [apply next_key_above|].
    rewrite (Hlook w' t' x Hdb' Hsch'). unfold t'. cbn [tbl_rows with_rows].
    rewrite filter_app, filter_absent by done.
    by rewrite filter_cons_True by done.
  - intros y Hy.
    rewrite (Hlook w' t' y Hdb' Hsch'), (Hlook w t y Hdb Hsch).
    unfold t'. cbn [tbl_rows with_rows].
    rewrite filter_app, filter_cons_False, filter_nil, app_nil_r; [done|].
    cbn. congruence.
Qed.

Lemma insert_then_select_witness :
  ∃ k, (select_db first_row keep_order blog_conn
          [PStr "measures"; PStr "pinch"]
          (after (insert_ingredient_measure first_row keep_order blog_conn
                    [PStr "measures"; PStr "pinch"]) seeded)).1
       = Returned (Some [VInt k; VText "pinch"]).
Proof.
  destruct (insert_then_select first_row keep_order blog_conn blog_conn seeded
              "measures" "pinch") as (_ & (k & _ & Hk) & _).
  - vm_compute. reflexivity.
  - rewrite !elem_of_cons. tauto.
  - apply (bool_decide_unpack _). vm_compute. exact I.
  - exists k. exact Hk.
Defined.

(** ** Recipes *)



(** ** Rows that link a recipe *)



(** ** Inserting many names *)

Lemma next_key_with_rows t pk r :
  ts_autoincrement (tbl_schema t) = false →
  cell r pk = VInt (next_key t pk) →
  next_key (with_rows t (tbl_rows t ++ [r])) pk = next_key t pk + 1.
Proof.
  intros Hauto Hr. rewrite <- (next_key_succ t pk r Hr).
  unfold with_rows. by rewrite Hauto.
Qed.

Lemma reference_plain name col sch :
  (name, (col, sch)) ∈ [("meals", ("meal_name", meals_schema));
                         ("ingredients", ("ingredient_name", ingredients_schema));
                         ("measures", ("measure_name", measures_schema))] →
  ts_autoincrement sch = false.
Proof.
  rewrite !elem_of_cons, elem_of_nil.
  by intros [Hn|[Hn|[Hn|[]]]]; injection Hn as -> -> ->.
Qed.

Section Many.

Variable choose : list jrow → jrow.
Variable arrange : list (list jrow) → list (list jrow).

(** Names that are all different and all new are taken one after the
    other. *)
Lemma run_each_names db name col sch t xs :
  (name, (col, sch)) ∈ [("meals", ("meal_name", meals_schema));
                         ("ingredients", ("ingredient_name", ingredients_schema));
                         ("measures", ("measure_name", measures_schema))] →
  db !! name = Some t →
  tbl_schema t = sch →
  NoDup xs →
  (∀ x, x ∈ xs → VText x ∉ names_of (tbl_rows t)) →
  run_each choose arrange false (SInsert name [col] [OParam "value"])
           ((λ x, [("value", VText x)]) <$> xs) db
  = (Returned (<[name := with_rows t (tbl_rows t ++ numbered (next_key t 0) xs)]> db),
     <[name := with_rows t (tbl_rows t ++ numbered (next_key t 0) xs)]> db).
Proof.
  intros He. induction xs as [|x xs IH] in db, t |- *; intros Hdb Hsch Hnd Hnew.
  - cbn [fmap list_fmap run_each numbered]. rewrite app_nil_r.
    replace (with_rows t (tbl_rows t)) with t by (by destruct t).
    by rewrite insert_id.
  - rewrite fmap_cons. cbn [run_each run_statement].
    rewrite (run_insert_name db name col sch t x He Hdb Hsch).
    rewrite bool_decide_eq_false_2.
    2:{ apply Hnew. by apply elem_of_cons; left. }
    cbn [mbind outcome_bind].
    set (t1 := with_rows t (tbl_rows t ++ [[VInt (next_key t 0); VText x]])).
    apply NoDup_cons in Hnd as [Hx Hnd].
    rewrite (IH (<[name := t1]> db) t1); [| by rewrite lookup_insert_eq | done | done |].
    2:{ intros y Hy. unfold t1, names_of. cbn [tbl_rows with_rows].
        rewrite fmap_app, elem_of_app. intros [Hold|Hlast].
        - revert Hold. apply Hnew. by apply elem_of_cons; right.
        - cbn in Hlast. apply list_elem_of_singleton in Hlast.
          injection Hlast as ->. done. }
    assert (Hnext : next_key t1 0 = next_key t 0 + 1).
    { apply next_key_with_rows; [|done].
      rewrite Hsch. by apply (reference_plain name col). }
    rewrite Hnext, insert_insert_eq. unfold t1, with_rows.
    cbn [tbl_rows tbl_schema tbl_sequence numbered].
    by rewrite <- (assoc_L (++)).
Qed.

(** A name that repeats, or that the table already holds, stops the run. *)
Lemma run_each_clash db name col sch t xs :
  (name, (col, sch)) ∈ [("meals", ("meal_name", meals_schema));
                         ("ingredients", ("ingredient_name", ingredients_schema));
                         ("measures", ("measure_name", measures_schema))] →
  db !! name = Some t →
  tbl_schema t = sch →
  ¬ NoDup xs ∨ (∃ x, x ∈ xs ∧ VText x ∈ names_of (tbl_rows t)) →
  (run_each choose arrange false (SInsert name [col] [OParam "value"])
            ((λ x, [("value", VText x)]) <$> xs) db).1
  = Raised IntegrityError.
Proof.
  intros He. induction xs as [|x xs IH] in db, t |- *; intros Hdb Hsch Hclash.
  - destruct Hclash as [Hnd|(x & Hx & _)]; [|by apply elem_of_nil in Hx].
    destruct Hnd. constructor.
  - rewrite fmap_cons. cbn [run_each run_statement].
    rewrite (run_insert_name db name col sch t x He Hdb Hsch).
    destruct (decide (VText x ∈ names_of (tbl_rows t))) as [Hold|Hnew].
    { by rewrite bool_decide_eq_true_2. }
    rewrite bool_decide_eq_false_2 by done. cbn [mbind outcome_bind].
    set (t1 := with_rows t (tbl_rows t ++ [[VInt (next_key t 0); VText x]])).
    apply (IH (<[name := t1]> db) t1); [by rewrite lookup_insert_eq | done |].
    assert (Hin1 : ∀ y, y ∈ xs → (y = x ∨ VText y ∈ names_of (tbl_rows t)) →
                        VText y ∈ names_of (tbl_rows t1)).
    { intros y Hy Hcase. unfold t1, names_of. cbn [tbl_rows with_rows].
      rewrite fmap_app, elem_of_app. destruct Hcase as [->|Hold]; [right|by left].
      cbn. by apply list_elem_of_singleton. }
    destruct Hclash as [Hnd|(y & Hy & Hold)].
    + rewrite NoDup_cons in Hnd.
      destruct (decide (x ∈ xs)) as [Hx|Hx].
      * right. exists x. split; [done|]. apply Hin1; auto.
      * left. tauto.
    + apply elem_of_cons in Hy as [->|Hy]; [done|].
      right. exists y. split; [done|]. apply Hin1; auto.
Qed.

Lemma executemany_run conn query bs w name cols vals :
  conn_closed conn = false →
  has_nul query = false →
  parse_sql query = Some (SInsert name cols vals) →
  executemany choose arrange conn query bs w
  = match run_each choose arrange (conn_foreign_keys conn)
                   (SInsert name cols vals) bs (store w) with
    | (Raised e, db) => (Raised e, set_store db (log_statement query bs w))
    | (Returned _, db) => (Returned (), set_store db (log_statement query bs w))
    end.
Proof.
  intros Hopen Hnul Hparse. unfold executemany. by rewrite Hopen, Hnul, Hparse.
Qed.

(** [insert_many_db] of texts into a reference table. *)
Lemma insert_many_db_run conn w name col sch xs :
  (name, (col, sch)) ∈ [("meals", ("meal_name", meals_schema));
                         ("ingredients", ("ingredient_name", ingredients_schema));
                         ("measures", ("measure_name", measures_schema))] →
  insert_many_db choose arrange conn (PStr name, PStr <$> xs) w
  = let w1 := log_statement
                ("INSERT INTO " +:+ name +:+ " (" +:+ col +:+ ") VALUES (:value);")
                ((λ x, [("value", VText x)]) <$> xs) w in
    match run_each choose arrange false (SInsert name [col] [OParam "value"])
                   ((λ x, [("value", VText x)]) <$> xs) (store w) with
    | (Raised e, _) => (Raised e, w1)
    | (Returned _, db) => (Returned (), set_store db w1)
    end.
Proof.
  intros He. unfold insert_many_db. rewrite db_connect_fresh.
  destruct (parse_insert_name name col sch (reference_registry _ _ _ He))
    as (_ & _ & Hnul & Hparse).
  unfold insert_many_db_wrapped.
  rewrite (attribute_conf_entry name col sch (reference_registry _ _ _ He)).
  cbn [py_str]. rewrite committed by done.
  rewrite (executemany_run (connection (db_name w)) _ _ _ _ _ _ eq_refl Hnul Hparse).
  cbn [conn_foreign_keys connection].
  rewrite <- list_fmap_compose.
  change ((λ value, [("value", adapt value)]) ∘ PStr)
    with (λ x : string, [("value", VText x)]).
  destruct (run_each _ _ _ _ _ _) as [[db'|e] db'']; [done|].
  unfold set_store, log_statement. cbn. reflexivity.
Qed.

End Many.

(** [insert_many_db] of names that are all different and that meals,
    ingredients or measures does not hold yet returns normally; the table
    gains one row per name, in the order given, under consecutive keys that
    start above every key in use, and at 1 when the table was empty; no
    other table changes. *)
Theorem insert_many_db_adds choose arrange conn w table_name (xs : list string) :
  has_schema (store w) = true →
  table_name ∈ ["meals"; "ingredients"; "measures"] →
  NoDup xs →
  (∀ x, x ∈ xs → VText x ∉ names_of (rows_of (store w) table_name)) →
  (insert_many_db choose arrange conn (PStr table_name, PStr <$> xs) w).1
  = Returned ()
  ∧ let db := store (after (insert_many_db choose arrange conn
                              (PStr table_name, PStr <$> xs)) w) in
    (∃ k, (∀ k1, k1 ∈ keys_of 0 (rows_of (store w) table_name) → k1 < k)
          ∧ (rows_of (store w) table_name = [] → k = 1)
          ∧ rows_of db table_name
            = rows_of (store w) table_name ++ numbered k xs)
    ∧ (∀ other, other ≠ table_name → db !! other = store w !! other)
    ∧ has_schema db = true.
Proof.
  intros Hs Hin Hnd Hnew.
  destruct (reference_entry _ _ Hs Hin) as (col & sch & t & He & Hdb & Hsch).
  rewrite (rows_of_lookup _ _ _ Hdb) in *.
  unfold after.
  rewrite (insert_many_db_run choose arrange conn w table_name col sch xs He).
  cbv zeta.
  rewrite (run_each_names choose arrange (store w) table_name col sch t xs
             He Hdb Hsch Hnd Hnew).
  cbn [fst snd store set_store].
  split; [done|]. split; [|split].
  - exists (next_key t 0). split; [apply next_key_above|]. split.
    + intros Hempty. unfold next_key. rewrite Hempty, Hsch.
      by rewrite (reference_plain _ _ _ He).
    + unfold rows_of. by rewrite lookup_insert_eq.
  - intros other Hother. by rewrite lookup_insert_ne.
  - by apply (has_schema_insert _ _ t).
Qed.

Lemma insert_many_db_adds_witness :
  rows_of (store (after (insert_many_db first_row keep_order blog_conn
                           (PStr "meals", PStr <$> ["dinner"; "snack"]))
                        created)) "meals"
  = [[VInt 1; VText "dinner"]; [VInt 2; VText "snack"]].
Proof.
  destruct (insert_many_db_adds first_row keep_order blog_conn created "meals"
              ["dinner"; "snack"]) as (_ & (k & _ & Hk & Hrows) & _).
  - vm_compute. reflexivity.
  - rewrite !elem_of_cons. tauto.
  - apply (bool_decide_unpack _). vm_compute. exact I.
  - intros x _. apply (bool_decide_unpack _). vm_compute. exact I.
  - rewrite Hrows, Hk by (vm_compute; reflexivity). vm_compute. reflexivity.
Defined.

(** [insert_many_db] is all or nothing: when a name repeats in the batch,
    or meals, ingredients or measures already holds one of them, the call
    raises [IntegrityError] and the store is as it was, the names before
    the offending one included. *)
Theorem insert_many_db_all_or_nothing choose arrange conn w table_name
    (xs : list string) :
  has_schema (store w) = true →
  table_name ∈ ["meals"; "ingredients"; "measures"] →
  ¬ NoDup xs
  ∨ (∃ x, x ∈ xs ∧ VText x ∈ names_of (rows_of (store w) table_name)) →
  (insert_many_db choose arrange conn (PStr table_name, PStr <$> xs) w).1
  = Raised IntegrityError
  ∧ store (after (insert_many_db choose arrange conn
                    (PStr table_name, PStr <$> xs)) w) = store w.
Proof.
  intros Hs Hin Hclash.
  destruct (reference_entry _ _ Hs Hin) as (col & sch & t & He & Hdb & Hsch).
  rewrite (rows_of_lookup _ _ _ Hdb) in *.
  unfold after.
  rewrite (insert_many_db_run choose arrange conn w table_name col sch xs He).
  cbv zeta.
  pose proof (run_each_clash choose arrange (store w) table_name col sch t xs
                He Hdb Hsch Hclash) as Hrun.
  destruct (run_each _ _ _ _ _ _) as [[db'|e] db'']; cbn [fst] in Hrun; [done|].
  injection Hrun as ->. done.
Qed.

Lemma insert_many_db_all_or_nothing_witness :
  rows_of (store (after (insert_many_db first_row keep_order blog_conn
                           (PStr "meals", PStr <$> ["dinner"; "lunch"]))
                        seeded)) "meals"
  = rows_of (store seeded) "meals".
Proof.
  destruct (insert_many_db_all_or_nothing first_row keep_order blog_conn seeded
              "meals" ["dinner"; "lunch"]) as (_ & Hstore).
  - vm_compute. reflexivity.
  - rewrite !elem_of_cons. tauto.
  - right. exists "lunch". split.
    + rewrite !elem_of_cons. tauto.
    + apply (bool_decide_unpack _). vm_compute. exact I.
  - by rewrite Hstore.
Defined.

(** ** Reading leaves the store alone *)

(** Blank space before a statement does not count. *)
Lemma parse_sql_blank c s : is_space c = true → parse_sql (String c s) = parse_sql s.
Proof.
  intros Hc. unfold parse_sql, tokenize. cbn [scan lex_step]. unfold lex_top.
  rewrite Hc. cbn [mbind option_bind].
  destruct (scan LTop s) as [[toks m]|]; [|done]. done.
Qed.

Lemma parse_select_only fuel ts st :
  parse_select fuel ts = Some st → ∃ q, st = SSelect q.
Proof.
  unfold parse_select. intros H.
  repeat (simplify_option_eq || case_match); eauto.
Qed.

(** A text that starts with the word SELECT is a query or nothing. *)
Lemma parse_select_prefix rest st :
  parse_sql ("SELECT " +:+ rest) = Some st → ∃ q, st = SSelect q.
Proof.
  unfold parse_sql, tokenize.
  rewrite (scan_prefix LTop "SELECT " rest [TWord "SELECT"] LTop) by reflexivity.
  destruct (scan LTop rest) as [[toks m]|]; [|done]. cbn [mbind option_bind].
  destruct (lex_flush m) as [last|]; [|done]. cbn [mbind option_bind app].
  unfold parse_statement.
  change (is_kw "select" (TWord "SELECT")) with true. cbv iota.
  apply parse_select_only.
Qed.

Section Reads.

Variable choose : list jrow → jrow.
Variable arrange : list (list jrow) → list (list jrow).

Lemma execute_query_store conn query b w :
  (∀ st, parse_sql query = Some st → ∃ q, st = SSelect q) →
  store (execute choose arrange conn query b w).2 = store w.
Proof.
  intros Hq. unfold execute.
  destruct (conn_closed conn); [done|].
  destruct (has_nul query); [done|].
  destruct (parse_sql query) as [st|]; [|done].
  destruct (Hq st eq_refl) as [q ->].
  cbn [run_statement]. destruct (compile_select _ _ _); done.
Qed.

Lemma query_then_store {A B} conn query b (f : list row → outcome A)
    (g : A → B) w :
  (∀ st, parse_sql query = Some st → ∃ q, st = SSelect q) →
  store ((rows ← execute choose arrange conn query b;
          a ← lift (f rows);
          _ ← close conn;
          mret (g a)) w).2 = store w.
Proof.
  intros Hq. pose proof (execute_query_store conn query b w Hq) as Hs.
  unfold mbind, M_bind, lift, close, mret, M_ret.
  destruct (execute _ _ _ _ _ _) as [[rows|e] w1]; [|done].
  by destruct (f rows).
Qed.

Lemma select_db_store conn args w :
  store (select_db choose arrange conn args w).2 = store w.
Proof.
  unfold select_db. rewrite db_connect_fresh.
  unfold select_db_wrapped.
  destruct (negb (length args =? 2)%nat); [done|].
  unfold mbind at 1, M_bind at 1, lift.
  destruct (unpack2 args) as [[table_name value]|e]; [|done].
  destruct (attribute_conf table_name) as [col|]; [|done].
  apply (query_then_store _ _ _ (λ rows, Returned rows) fetchone).
  apply parse_select_prefix.
Qed.

Lemma select_all_db_store conn args w :
  store (select_all_db choose arrange conn args w).2 = store w.
Proof.
  unfold select_all_db. rewrite db_connect_fresh.
  unfold select_all_db_wrapped.
  destruct (negb (length args =? 1)%nat); [done|].
  destruct (args !! 0%nat) as [first|]; [|done].
  apply (query_then_store _ _ _ (λ rows, Returned rows) id).
  apply parse_select_prefix.
Qed.

Lemma find_recipes_store conn args w :
  store (find_recipes choose arrange conn args w).2 = store w.
Proof.
  destruct args as [ingredients meals].
  unfold find_recipes. rewrite db_connect_fresh.
  unfold find_recipes_wrapped.
  apply (query_then_store _ _ _ first_texts (join ", ")).
  intros st.
  destruct (length ingredients =? 1)%nat;
    unfold single_ingredient_query, many_ingredients_query;
    rewrite !append_cons;
    repeat (rewrite parse_sql_blank by reflexivity);
    apply parse_select_prefix.
Qed.

End Reads.

(** [select_db], [select_all_db] and [find_recipes] leave the store as it
    was, whatever their arguments: a table name, an ingredient or a meal
    spliced into the text can make the statement fail, but the text starts
    with SELECT and is run as one statement. *)
Theorem reads_keep_store choose arrange conn w :
  (∀ args, store (after (select_db choose arrange conn args) w) = store w)
  ∧ (∀ args, store (after (select_all_db choose arrange conn args) w) = store w)
  ∧ (∀ ingredients meals,
       store (after (find_recipes choose arrange conn (ingredients, meals)) w)
       = store w).
Proof.
  unfold after. split; [|split]; intros.
  - apply select_db_store.
  - apply select_all_db_store.
  - apply find_recipes_store.
Qed.

(** ** Every row of a table *)

(** [select_all_db] with the name of one of the six tables returns every
    row of the table, in the order of the table, and raises
    [OperationalError] when the store has no such table yet. *)
Theorem select_all_db_rows choose arrange conn w table_name :
  table_name ∈ schema_script.*1 →
  (select_all_db choose arrange conn [PStr table_name] w).1
  = match store w !! table_name with
    | Some t => Returned (tbl_rows t)
    | None => Raised OperationalError
    end.
Proof.
  intros Hin. unfold select_all_db. rewrite db_connect_fresh.
  unfold select_all_db_wrapped. cbn [length Nat.eqb negb lookup list_lookup py_str].
  assert (Hparse : has_nul ("SELECT * FROM " +:+ table_name +:+ ";") = false
                   ∧ parse_sql ("SELECT * FROM " +:+ table_name +:+ ";")
                     = Some (SSelect (SelectStmt PStar (TableRef table_name None)
                                                 [] None None None))).
  { revert Hin. unfold schema_script. cbn [fmap list_fmap fst].
    rewrite !elem_of_cons, elem_of_nil.
    intros [->|[->|[->|[->|[->|[->|[]]]]]]]; split; vm_compute; reflexivity. }
  destruct Hparse as [Hnul Hparse].
  unfold mbind at 1, M_bind at 1.
  rewrite (execute_run choose arrange (connection (db_name w)) _ _ _ _ eq_refl
             Hnul Hparse).
  cbn [conn_foreign_keys connection].
  destruct (store w !! table_name) as [t|] eqn:Hdb.
  - by rewrite (run_select_all choose arrange (store w) table_name t Hdb).
  - unfold run_statement, compile_select, find_table. cbn [sel_from tr_table].
    by rewrite Hdb.
Qed.

Lemma select_all_db_rows_witness :
  (select_all_db first_row keep_order blog_conn [PStr "quantity"] cocoa).1
  = Returned [[VInt 1; VInt 2; VInt 1; VInt 5; VInt 2];
              [VInt 2; VInt 1; VInt 1; VInt 4; VInt 1]].
Proof.
  rewrite (select_all_db_rows first_row keep_order blog_conn cocoa "quantity").
  - vm_compute. reflexivity.
  - apply (bool_decide_unpack _). vm_compute. exact I.
Defined.

(** ** The number of arguments *)

(** A call with another number of positional arguments than the function
    takes (five for [insert_to_quantity], one for [select_all_db], two for
    the others) raises [ValueError] before any statement is built: the
    store and the journal of statements are as they were. *)
Theorem wrong_arity_raises choose arrange conn w (args : list pyval) :
  (length args ≠ 2%nat →
     (∃ msg, insert_db choose arrange conn args w = (Raised (ValueError msg), w))
     ∧ (∃ msg, insert_to_recipe choose arrange conn args w
               = (Raised (ValueError msg), w))
     ∧ (∃ msg, insert_to_serve choose arrange conn args w
               = (Raised (ValueError msg), w))
     ∧ (∃ msg, insert_ingredient_measure choose arrange conn args w
               = (Raised (ValueError msg), w))
     ∧ (∃ msg, select_db choose arrange conn args w
               = (Raised (ValueError msg), w)))
  ∧ (length args ≠ 5%nat →
       ∃ msg, insert_to_quantity choose arrange conn args w
              = (Raised (ValueError msg), w))
  ∧ (length args ≠ 1%nat →
       ∃ msg, select_all_db choose arrange conn args w
              = (Raised (ValueError msg), w)).
Proof.
  unfold insert_db, insert_to_recipe, insert_to_serve, insert_ingredient_measure,
    select_db, insert_to_quantity, select_all_db.
  rewrite !db_connect_fresh.
  unfold insert_db_wrapped, insert_to_recipe_wrapped, insert_to_serve_wrapped,
    insert_ingredient_measure_wrapped, select_db_wrapped,
    insert_to_quantity_wrapped, select_all_db_wrapped.
  split; [|split]; intros Hlen.
  - apply Nat.eqb_neq in Hlen. rewrite Hlen. cbn [negb].
    repeat split; eexists; reflexivity.
  - apply Nat.eqb_neq in Hlen. rewrite Hlen. eexists; reflexivity.
  - apply Nat.eqb_neq in Hlen. rewrite Hlen. eexists; reflexivity.
Qed.

Lemma wrong_arity_raises_witness :
  ∃ msg, select_db first_row keep_order blog_conn [PStr "meals"] seeded
         = (Raised (ValueError msg), seeded).
Proof.
  apply (wrong_arity_raises first_row keep_order blog_conn seeded [PStr "meals"]).
  simpl. lia.
Defined.

(** ** A write that fails *)

Section Writes.

Variable choose : list jrow → jrow.
Variable arrange : list (list jrow) → list (list jrow).

Lemma committed_raised {A} conn (stmt : M A) w e :
  conn_closed conn = false →
  ((_ ← with_conn conn stmt; commit conn) w).1 = Raised e →
  store ((_ ← with_conn conn stmt; commit conn) w).2 = store w.
Proof.
  intros Hopen. rewrite committed by done.
  by destruct (stmt w) as [[a|e'] w1].
Qed.

End Writes.

(** When a writing call raises, whatever the cause (arity, table name,
    syntax, a constraint), the store is as it was before the call; for
    [insert_many_db] this undoes the rows of the batch that went in before
    the failure. *)
Theorem failed_write_keeps_store choose arrange conn w e :
  (∀ args, (insert_db choose arrange conn args w).1 = Raised e →
           store (after (insert_db choose arrange conn args) w) = store w)
  ∧ (∀ args, (insert_to_recipe choose arrange conn args w).1 = Raised e →
             store (after (insert_to_recipe choose arrange conn args) w) = store w)
  ∧ (∀ args, (insert_to_serve choose arrange conn args w).1 = Raised e →
             store (after (insert_to_serve choose arrange conn args) w) = store w)
  ∧ (∀ args, (insert_ingredient_measure choose arrange conn args w).1 = Raised e →
             store (after (insert_ingredient_measure choose arrange conn args) w)
             = store w)
  ∧ (∀ args, (insert_to_quantity choose arrange conn args w).1 = Raised e →
             store (after (insert_to_quantity choose arrange conn args) w)
             = store w)
  ∧ (∀ args, (insert_many_db choose arrange conn args w).1 = Raised e →
             store (after (insert_many_db choose arrange conn args) w) = store w).
Proof.
  unfold after, insert_db, insert_to_recipe, insert_to_serve,
    insert_ingredient_measure, insert_to_quantity, insert_many_db.
  repeat split; intros args; rewrite !db_connect_fresh;
    unfold insert_db_wrapped, insert_to_recipe_wrapped, insert_to_serve_wrapped,
      insert_ingredient_measure_wrapped, insert_to_quantity_wrapped,
      insert_many_db_wrapped.
  - destruct (negb _); [done|]. unfold mbind at 1 3, M_bind at 1 3, lift.
    destruct (unpack2 args) as [[a b]|]; [|done].
    destruct (attribute_conf a); [|done]. by apply committed_raised.
  - destruct (negb _); [done|]. unfold mbind at 1 3, M_bind at 1 3, lift.
    destruct (unpack2 args) as [[a b]|]; [|done]. by apply committed_raised.
  - destruct (negb _); [done|]. unfold mbind at 1 3, M_bind at 1 3, lift.
    destruct (unpack2 args) as [[a b]|]; [|done]. by apply committed_raised.
  - destruct (negb _); [done|]. unfold mbind at 1 3, M_bind at 1 3, lift.
    destruct (unpack2 args) as [[a b]|]; [|done].
    destruct (attribute_conf a); [|done]. by apply committed_raised.
  - destruct (negb _); [done|].
    destruct args as [|a [|b [|c [|d [|f [|g rest]]]]]]; try done.
    by apply committed_raised.
  - destruct args as [a values].
    destruct (attribute_conf a); [|done]. by apply committed_raised.
Qed.

Lemma failed_write_keeps_store_witness :
  store (after (insert_many_db first_row keep_order blog_conn
                  (PStr "meals", PStr <$> ["dinner"; "dinner"])) created)
  = store created.
Proof.
  apply (failed_write_keeps_store first_row keep_order blog_conn created
           IntegrityError).
  vm_compute. reflexivity.
Defined.

(** ** The handle a decorated function works on *)

(** The wrapper of [db_connect] hands the wrapped function a fresh, open
    handle on [db_name], whatever handle the caller passed: two calls that
    differ only in the handle do the same, and a closed handle is as good as
    any.  [truncate_tables], which is not decorated, works on the caller's
    handle: on a closed one it raises [ProgrammingError] and deletes
    nothing. *)
Theorem handle_is_replaced {Args A} choose arrange
    (func : Connection → Args → M A) conn conn' args w :
  db_connect func conn args w = func (connection (db_name w)) args w
  ∧ db_connect func conn args w = db_connect func conn' args w
  ∧ (conn_closed conn = true →
       truncate_tables choose arrange conn w = (Raised ProgrammingError, w)).
Proof.
  split; [apply db_connect_fresh|].
  split; [by rewrite !db_connect_fresh|].
  intros Hclosed. unfold truncate_tables, for_each, mbind, M_bind, with_conn, execute.
  rewrite Hclosed. unfold set_store. by rewrite world_eta.
Qed.

Lemma handle_is_replaced_witness :
  truncate_tables first_row keep_order (MkConnection blog_db true false) seeded
  = (Raised ProgrammingError, seeded).
Proof.
  apply (handle_is_replaced first_row keep_order
           (select_db first_row keep_order)
           (MkConnection blog_db true false) blog_conn [] seeded).
  reflexivity.
Defined.

(** ** Creating the tables *)

Lemma create_keeps (script : list (string * table_schema)) (db : database) name t :
  db !! name = Some t →
  foldl (λ db entry, match db !! entry.1 with
                     | Some _ => db
                     | None => <[entry.1 := Table entry.2 0 []]> db
                     end) db script !! name = Some t.
Proof.
  induction script as [|[n sch] script IH] in db |- *; [done|].
  intros Hdb. cbn [foldl fst snd]. apply IH.
  destruct (db !! n) eqn:Hn; [done|].
  rewrite lookup_insert_ne; [done|]. intros ->. congruence.
Qed.

Lemma create_other (script : list (string * table_schema)) (db : database) name :
  name ∉ script.*1 →
  foldl (λ db entry, match db !! entry.1 with
                     | Some _ => db
                     | None => <[entry.1 := Table entry.2 0 []]> db
                     end) db script !! name = db !! name.
Proof.
  induction script as [|[n sch] script IH] in db |- *; [done|].
  rewrite fmap_cons, not_elem_of_cons. cbn [fst]. intros [Hne Hrest].
  cbn [foldl fst snd]. rewrite IH by done.
  destruct (db !! n); [done|]. by rewrite lookup_insert_ne.
Qed.

Lemma create_missing (script : list (string * table_schema)) (db : database)
    name sch :
  NoDup script.*1 →
  (name, sch) ∈ script →
  db !! name = None →
  foldl (λ db entry, match db !! entry.1 with
                     | Some _ => db
                     | None => <[entry.1 := Table entry.2 0 []]> db
                     end) db script !! name = Some (Table sch 0 []).
Proof.
  induction script as [|[n sch1] script IH] in db |- *.
  { intros _ Hin. by apply elem_of_nil in Hin. }
  rewrite fmap_cons, NoDup_cons. cbn [fst]. intros [Hn Hnd] Hin Hdb.
  cbn [foldl fst snd]. apply elem_of_cons in Hin as [Heq|Hin].
  - injection Heq as <- <-. rewrite Hdb.
    apply create_keeps. by rewrite lookup_insert_eq.
  - assert (name ≠ n).
    { intros ->. apply Hn. apply list_elem_of_fmap. by exists (n, sch). }
    apply IH; [done..|].
    destruct (db !! n); [done|]. by rewrite lookup_insert_ne.
Qed.

Lemma create_nothing (script : list (string * table_schema)) (db : database) :
  (∀ entry, entry ∈ script → is_Some (db !! entry.1)) →
  foldl (λ db entry, match db !! entry.1 with
                     | Some _ => db
                     | None => <[entry.1 := Table entry.2 0 []]> db
                     end) db script = db.
Proof.
  induction script as [|[n sch] script IH]; [done|].
  intros Hall. cbn [foldl fst snd].
  destruct (Hall (n, sch)) as [t Ht]; [by apply elem_of_cons; left|].
  cbn [fst] in Ht. rewrite Ht. apply IH.
  intros entry Hin. apply Hall. by apply elem_of_cons; right.
Qed.

Lemma schema_script_names : NoDup schema_script.*1.
Proof. apply (bool_decide_unpack _). vm_compute. exact I. Qed.



(** ** The start of [main] *)

Lemma M_bind_returned {A B} (m : M A) (f : A → M B) w a w1 :
  m w = (Returned a, w1) → (m ≫= f) w = f a w1.
Proof. intros H. unfold mbind, M_bind. by rewrite H. Qed.

Lemma generate_tables_run conn w :
  generate_tables conn w
  = (Returned (),
     set_store (foldl (λ db entry, match db !! entry.1 with
                                   | Some _ => db
                                   | None => <[entry.1 := Table entry.2 0 []]> db
                                   end) (store w) schema_script) w).
Proof.
  unfold generate_tables. rewrite db_connect_fresh.
  unfold generate_tables_wrapped, with_conn, executescript_schema. done.
Qed.

Lemma fits_schema_created db :
  fits_schema db →
  has_schema (foldl (λ db entry, match db !! entry.1 with
                                 | Some _ => db
                                 | None => <[entry.1 := Table entry.2 0 []]> db
                                 end) db schema_script) = true.
Proof.
  intros Hfit. unfold has_schema. apply forallb_forall.
  intros [name sch] Hin. apply list_elem_of_In in Hin. cbn [fst snd].
  destruct (db !! name) as [t|] eqn:Hdb.
  - rewrite (create_keeps _ _ _ _ Hdb). apply bool_decide_eq_true.
    by apply (Hfit name).
  - rewrite (create_missing _ _ _ _ schema_script_names Hin Hdb).
    by apply bool_decide_eq_true.
Qed.

Lemma created_rows db name :
  rows_of (foldl (λ db entry, match db !! entry.1 with
                              | Some _ => db
                              | None => <[entry.1 := Table entry.2 0 []]> db
                              end) db schema_script) name
  = rows_of db name.
Proof.
  unfold rows_of at 2.
  destruct (db !! name) as [t|] eqn:Hdb.
  - unfold rows_of. by rewrite (create_keeps _ _ _ _ Hdb).
  - destruct (decide (name ∈ schema_script.*1)) as [Hin|Hout].
    + apply list_elem_of_fmap in Hin as ([n sch] & -> & Hin). cbn [fst] in *.
      unfold rows_of.
      by rewrite (create_missing _ _ _ _ schema_script_names Hin Hdb).
    + unfold rows_of. by rewrite create_other, Hdb.
Qed.

Section Start.

Variable choose : list jrow → jrow.
Variable arrange : list (list jrow) → list (list jrow).

Lemma truncate_tables_run conn w tm ti tu :
  conn_closed conn = false →
  conn_foreign_keys conn = false →
  store w !! "meals" = Some tm →
  store w !! "ingredients" = Some ti →
  store w !! "measures" = Some tu →
  ∃ j, truncate_tables choose arrange conn w
       = (Returned (),
          World (db_name w)
                (<["measures" := with_rows tu []]>
                   (<["ingredients" := with_rows ti []]>
                      (<["meals" := with_rows tm []]> (store w))))
                j).
Proof.
  intros Hopen Hfk Hm Hi Hu. eexists.
  unfold truncate_tables, for_each, mbind, M_bind, with_conn.
  unfold mret, M_ret.
  rewrite (execute_delete_all choose arrange conn "meals" tm w) by done.
  cbv beta iota.
  rewrite (execute_delete_all choose arrange conn "ingredients" ti); [|done..|].
  2:{ simpl. by rewrite lookup_insert_ne. }
  cbv beta iota.
  rewrite (execute_delete_all choose arrange conn "measures" tu); [|done..|].
  2:{ simpl. by rewrite !lookup_insert_ne. }
  cbv beta iota.
  unfold commit, mret, M_ret. rewrite Hopen.
  unfold set_store, log_statement. cbn [db_name store journal]. reflexivity.
Qed.

(** A batch of different names into an empty reference table. *)
Lemma insert_many_db_empty conn w name col sch t xs :
  (name, (col, sch)) ∈ [("meals", ("meal_name", meals_schema));
                         ("ingredients", ("ingredient_name", ingredients_schema));
                         ("measures", ("measure_name", measures_schema))] →
  store w !! name = Some t →
  tbl_schema t = sch →
  tbl_rows t = [] →
  NoDup xs →
  ∃ j, insert_many_db choose arrange conn (PStr name, PStr <$> xs) w
       = (Returned (),
          World (db_name w) (<[name := with_rows t (numbered 1 xs)]> (store w)) j).
Proof.
  intros He Hdb Hsch Hrows Hnd. eexists.
  rewrite (insert_many_db_run choose arrange conn w name col sch xs He).
  cbv zeta.
  rewrite (run_each_names choose arrange (store w) name col sch t xs He Hdb Hsch Hnd).
  2:{ intros x _. rewrite Hrows. apply not_elem_of_nil. }
  assert (Hk : next_key t 0 = 1).
  { unfold next_key. rewrite Hrows, Hsch. by rewrite (reference_plain _ _ _ He). }
  rewrite Hk, Hrows. cbn [app].
  unfold set_store, log_statement. cbn [db_name store journal]. reflexivity.
Qed.

Lemma execute_after_pars_store conn args w :
  store (execute_after_pars choose arrange conn args w).2 = store w.
Proof.
  unfold execute_after_pars, find_recipes_given.
  unfold mbind, M_bind, lift.
  destruct (sequence (ingredients args)) as [its|]; [|done].
  destruct (sequence (meals args)) as [ms|]; [|done].
  pose proof (find_recipes_store choose arrange conn (its, ms) w) as Hs.
  destruct (find_recipes _ _ _ _ _) as [[names|e] w1]; [|done].
  by destruct (_ =? _)%nat.
Qed.

(** [main] as far as the reference data: the world in which the options
    are looked at. *)
Lemma main_start file given_ingredients given_meals w :
  fits_schema (store w) →
  ∃ w3,
    main choose arrange file given_ingredients given_meals w
    = (let args := parse_arguments file given_ingredients given_meals in
       if truthy (meals args) || truthy (ingredients args)
       then line ← execute_after_pars choose arrange (connection file) args;
            mret (Some line)
       else mret None) w3
    ∧ db_name w3 = file
    ∧ has_schema (store w3) = true
    ∧ (∀ name names, (name, names) ∈ data →
         rows_of (store w3) name = numbered 1 names)
    ∧ (∀ name, name ∉ data.*1 → rows_of (store w3) name = rows_of (store w) name).
Proof.
  intros Hfit.
  pose proof (fits_schema_created _ Hfit) as Hs1.
  set (db1 := foldl _ (store w) schema_script) in Hs1.
  destruct (schema_table db1 "meals" meals_schema Hs1) as (tm & Hm & Hsm).
  { unfold schema_script. rewrite !elem_of_cons. tauto. }
  destruct (schema_table db1 "ingredients" ingredients_schema Hs1)
    as (ti & Hi & Hsi).
  { unfold schema_script. rewrite !elem_of_cons. tauto. }
  destruct (schema_table db1 "measures" measures_schema Hs1) as (tu & Hu & Hsu).
  { unfold schema_script. rewrite !elem_of_cons. tauto. }
  set (w0 := World file (store w) (journal w)).
  set (w1 := set_store db1 w0).
  destruct (truncate_tables_run (connection file) w1 tm ti tu eq_refl eq_refl
              Hm Hi Hu) as (j2 & Htrunc).
  set (db2 := <["measures" := with_rows tu []]>
                (<["ingredients" := with_rows ti []]>
                   (<["meals" := with_rows tm []]> db1))) in Htrunc.
  cbn [db_name w1 set_store w0 store] in Htrunc.
  set (w2 := World file db2 j2) in Htrunc.
  destruct (insert_many_db_empty (connection file) w2 "meals" "meal_name"
              meals_schema (with_rows tm [])
              ["breakfast"; "brunch"; "lunch"; "supper"]) as (j3 & Hseed1);
    [rewrite !elem_of_cons; tauto
    |by unfold w2, db2; cbn [store];
        rewrite 2!lookup_insert_ne, lookup_insert_eq by done
    |done|done|apply (bool_decide_unpack _); vm_compute; exact I|].
  cbn [db_name w2 store] in Hseed1.
  set (db3 := <["meals" := _]> db2) in Hseed1.
  set (w3 := World file db3 j3) in Hseed1.
  destruct (insert_many_db_empty (connection file) w3 "ingredients"
              "ingredient_name" ingredients_schema (with_rows ti [])
              ["milk"; "cacao"; "strawberry"; "blueberry"; "blackberry"; "sugar"])
    as (j4 & Hseed2);
    [rewrite !elem_of_cons; tauto
    |by unfold w3, db3, db2; cbn [store];
        rewrite 2!lookup_insert_ne, lookup_insert_eq by done
    |done|done|apply (bool_decide_unpack _); vm_compute; exact I|].
  cbn [db_name w3 store] in Hseed2.
  set (db4 := <["ingredients" := _]> db3) in Hseed2.
  set (w4 := World file db4 j4) in Hseed2.
  destruct (insert_many_db_empty (connection file) w4 "measures"
              "measure_name" measures_schema (with_rows tu [])
              ["ml"; "g"; "l"; "cup"; "tbsp"; "tsp"; "dsp"; ""])
    as (j5 & Hseed3);
    [rewrite !elem_of_cons; tauto
    |by unfold w4, db4, db3, db2; cbn [store];
        rewrite 2!lookup_insert_ne, lookup_insert_eq by done
    |done|done|apply (bool_decide_unpack _); vm_compute; exact I|].
  cbn [db_name w4 store] in Hseed3.
  set (db5 := <["measures" := _]> db4) in Hseed3.
  exists (World file db5 j5).
  split; [|split; [done|split; [|split]]].
  - unfold main. cbn [parse_arguments database_file].
    rewrite (M_bind_returned (set_db_name file) _ w () w0) by done.
    rewrite (M_bind_returned get_db_name _ w0 file w0) by done.
    cbv zeta.
    rewrite (M_bind_returned (generate_tables (connection file)) _ w0 () w1)
      by apply generate_tables_run.
    rewrite (M_bind_returned _ _ w1 () w2 Htrunc).
    unfold data. cbn [for_each fst snd].
    rewrite (M_bind_returned (_ ≫= _) _ w2 () (World file db5 j5)); [done|].
    rewrite (M_bind_returned _ _ w2 () w3 Hseed1).
    rewrite (M_bind_returned _ _ w3 () w4 Hseed2).
    rewrite (M_bind_returned _ _ w4 () (World file db5 j5) Hseed3).
    done.
  - cbn [store]. unfold db5, db4, db3, db2.
    repeat (eapply has_schema_insert;
            [|by repeat first [rewrite lookup_insert_eq
                              |rewrite lookup_insert_ne by done]
             |done]).
    done.
  - intros name names. unfold data. rewrite !elem_of_cons, elem_of_nil.
    cbn [store]. unfold db5, db4, db3, db2, rows_of.
    intros [H|[H|[H|[]]]]; injection H as -> ->.
    + by rewrite 2!lookup_insert_ne, lookup_insert_eq by done.
    + by rewrite lookup_insert_ne, lookup_insert_eq by done.
    + by rewrite lookup_insert_eq.
  - intros name. unfold data. cbn [fmap list_fmap fst].
    rewrite !not_elem_of_cons. intros (H1 & H2 & H3 & _).
    cbn [store]. unfold db5, db4, db3, db2, rows_of.
    rewrite !lookup_insert_ne by done.
    apply (created_rows (store w) name).
Qed.

End Start.

Lemma has_schema_fits db : has_schema db = true → fits_schema db.
Proof.
  intros Hs name sch t Hin Hdb.
  destruct (schema_table db name sch Hs Hin) as (t' & Hdb' & Hsch). congruence.
Qed.



(** ** The options of the command line *)

Lemma split_nonempty sep s : split sep s ≠ [].
Proof.
  destruct s as [|c s]; [done|]. simpl.
  destruct (Ascii.eqb c sep); [done|]. by destruct (split sep s).
Qed.

(** Without the separator the text is the one piece. *)
Lemma split_whole sep s : occurs sep s = false → split sep s = [s].
Proof.
  induction s as [|c s IH]; [done|]. simpl.
  intros H. apply orb_false_elim in H as [Hc Hs].
  rewrite Hc. by rewrite IH.
Qed.

(** The pieces, joined by the separator, are the text. *)
Lemma join_split sep s : join (String sep "") (split sep s) = s.
Proof.
  induction s as [|c s IH]; [done|]. cbn [split].
  destruct (Ascii.eqb_spec c sep) as [->|Hne].
  - pose proof (split_nonempty sep s).
    destruct (split sep s) as [|p ps] eqn:Hsp; [done|].
    cbn [join]. cbn [join] in IH. by rewrite IH.
  - pose proof (split_nonempty sep s).
    destruct (split sep s) as [|p ps] eqn:Hsp; [done|].
    cbn [join] in *. destruct ps; [by rewrite IH|].
    rewrite append_cons. by rewrite IH.
Qed.

Lemma truthy_split_option s : s ≠ "" → truthy (split_option (Some s)) = true.
Proof.
  intros Hs. destruct s as [|c s]; [done|]. cbn [split_option].
  pose proof (split_nonempty "," (String c s)).
  by destruct (split "," (String c s)).
Qed.

Lemma M_bind_ext {A B} (m : M A) (f g : A → M B) w :
  (∀ a w1, f a w1 = g a w1) → (m ≫= f) w = (m ≫= g) w.
Proof.
  intros H. unfold mbind, M_bind. by destruct (m w) as [[a|e] w1].
Qed.



(** A single ingredient on the command line (an [--ingredients] text
    without a comma) has no influence on the run: [main] does the same,
    prints the same and leaves the same world for any two such texts. *)
Theorem main_one_ingredient_ignored choose arrange file (s s' : string)
    given_meals w :
  s ≠ "" → s' ≠ "" →
  occurs "," s = false → occurs "," s' = false →
  main choose arrange file (Some s) given_meals w
  = main choose arrange file (Some s') given_meals w.
Proof.
  intros Hs Hs' Hc Hc'.
  assert (Hopt : ∀ x, x ≠ "" → occurs "," x = false →
                      split_option (Some x) = Items [x]).
  { intros x Hx Hcx. destruct x as [|c x]; [done|]. cbn [split_option].
    by rewrite split_whole. }
  unfold main, parse_arguments. cbn [database_file meals ingredients].
  rewrite (Hopt s Hs Hc), (Hopt s' Hs' Hc').
  repeat (apply M_bind_ext; intros ? ?).
  cbn [truthy]. rewrite !orb_true_r.
  unfold execute_after_pars, find_recipes_given.
  cbn [meals ingredients sequence lift].
  unfold mbind, M_bind, lift.
  by destruct (sequence (split_option given_meals)).
Qed.

Lemma main_one_ingredient_ignored_witness :
  main first_row keep_order blog_db (Some "milk") (Some "breakfast") cocoa
  = main first_row keep_order blog_db (Some "sugar") (Some "breakfast") cocoa.
Proof.
  apply (main_one_ingredient_ignored first_row keep_order blog_db "milk" "sugar");
    (discriminate || reflexivity).
Defined.

(** ** A name that is missing *)

Section NoName.

Variable choose : list jrow → jrow.
Variable arrange : list (list jrow) → list (list jrow).

(** [insert_ingredient_measure] of [None] into a reference table. *)
Lemma insert_no_name_run conn w name col sch t :
  (name, (col, sch)) ∈ [("meals", ("meal_name", meals_schema));
                         ("ingredients", ("ingredient_name", ingredients_schema));
                         ("measures", ("measure_name", measures_schema))] →
  store w !! name = Some t →
  tbl_schema t = sch →
  insert_ingredient_measure choose arrange conn [PStr name; PNone] w
  = let w1 := log_statement
                ("INSERT INTO " +:+ name +:+ "(" +:+ col +:+ ") VALUES (:value);")
                [[("value", VNull)]] w in
    if bool_decide (name = "measures")
    then (Returned (),
          set_store (<[name := with_rows t (tbl_rows t
                                  ++ [[VInt (next_key t 0); VNull]])]> (store w))
                    w1)
    else (Raised IntegrityError, w1).
Proof.
  intros Hin Hdb Hsch. unfold insert_ingredient_measure. rewrite db_connect_fresh.
  destruct (parse_insert_name name col sch (reference_registry _ _ _ Hin))
    as (Hnul & Hparse & _).
  unfold insert_ingredient_measure_wrapped.
  cbn [length Nat.eqb negb unpack2 lift].
  unfold mbind at 1; unfold M_bind at 1; unfold lift; cbv beta iota.
  rewrite (attribute_conf_entry name col sch (reference_registry _ _ _ Hin)).
  cbn [py_str adapt].
  rewrite committed by done.
  rewrite (execute_run choose arrange (connection (db_name w)) _ _ _ _ eq_refl
             Hnul Hparse).
  cbn [conn_foreign_keys connection run_statement].
  rewrite (run_insert_no_name (store w) name col sch t Hin Hdb Hsch).
  destruct (bool_decide _); cbn [mbind outcome_bind]; [done|].
  unfold set_store, log_statement. cbn. reflexivity.
Qed.

End NoName.

(** [insert_ingredient_measure] of [None]: meals and ingredients refuse it
    with [IntegrityError] (the name is NOT NULL there) and the store stays
    as it was; measures takes it, however many rows without a name it
    already has, as one more last row under a new key.  [select_db] asked
    for [None] afterwards still finds nothing. *)
Theorem insert_without_name choose arrange conn conn' w :
  has_schema (store w) = true →
  (∀ table_name, table_name ∈ ["meals"; "ingredients"] →
     (insert_ingredient_measure choose arrange conn [PStr table_name; PNone] w).1
     = Raised IntegrityError
     ∧ store (after (insert_ingredient_measure choose arrange conn
                       [PStr table_name; PNone]) w) = store w)
  ∧ let w' := after (insert_ingredient_measure choose arrange conn
                       [PStr "measures"; PNone]) w in
    (insert_ingredient_measure choose arrange conn [PStr "measures"; PNone] w).1
    = Returned ()
    ∧ (∃ k, (∀ k1, k1 ∈ keys_of 0 (rows_of (store w) "measures") → k1 < k)
            ∧ rows_of (store w') "measures"
              = rows_of (store w) "measures" ++ [[VInt k; VNull]])
    ∧ (select_db choose arrange conn' [PStr "measures"; PNone] w').1
      = Returned None.
Proof.
  intros Hs. split.
  - intros table_name Hin.
    destruct (reference_entry (store w) table_name Hs)
      as (col & sch & t & He & Hdb & Hsch).
    { revert Hin. rewrite !elem_of_cons. tauto. }
    unfold after.
    rewrite (insert_no_name_run choose arrange conn w table_name col sch t
               He Hdb Hsch).
    cbv zeta. rewrite bool_decide_eq_false_2; [done|].
    revert Hin. rewrite !elem_of_cons, elem_of_nil. by intros [->|[->|[]]].
  - destruct (reference_entry (store w) "measures" Hs)
      as (col & sch & t & He & Hdb & Hsch).
    { rewrite !elem_of_cons. tauto. }
    rewrite (rows_of_lookup _ _ _ Hdb). unfold after.
    rewrite (insert_no_name_run choose arrange conn w "measures" col sch t
               He Hdb Hsch).
    cbv zeta. rewrite bool_decide_eq_true_2 by done. cbn [fst snd].
    set (w' := set_store _ _).
    assert (Hdb' : store w' !! "measures"
                   = Some (with_rows t (tbl_rows t ++ [[VInt (next_key t 0); VNull]]))).
    { unfold w'. cbn [store set_store]. by rewrite lookup_insert_eq. }
    split; [done|]. split.
    + exists (next_key t 0). split; [apply next_key_above|].
      by rewrite (rows_of_lookup _ _ _ Hdb').
    + rewrite (select_db_run choose arrange conn' w' "measures" col sch _ PNone
                 (reference_registry _ _ _ He) Hdb' Hsch).
      cbn [fst adapt]. by rewrite filter_no_name.
Qed.

Lemma insert_without_name_witness :
  (insert_ingredient_measure first_row keep_order blog_conn
     [PStr "measures"; PNone] seeded).1 = Returned ().
Proof.
  apply (insert_without_name first_row keep_order blog_conn blog_conn seeded).
  vm_compute. reflexivity.
Defined.

(** ** Looking up the reference data *)

(** In a run of different names, a name is found under its own key. *)
Lemma numbered_lookup k names (i : nat) x :
  NoDup names →
  names !! i = Some x →
  head (filter (λ r, cell r 1 = VText x) (numbered k names))
  = Some [VInt (k + Z.of_nat i); VText x].
Proof.
  induction names as [|y names IH] in k, i |- *; [done|].
  intros Hnd Hi. apply NoDup_cons in Hnd as [Hy Hnd]. cbn [numbered].
  destruct i as [|i].
  - injection Hi as ->. rewrite filter_cons_True by done.
    cbn [head]. do 3 f_equal. lia.
  - cbn [lookup list_lookup] in Hi.
    assert (y ≠ x).
    { intros ->. apply Hy. by eapply list_elem_of_lookup_2. }
    rewrite filter_cons_False by (cbn; congruence).
    rewrite (IH (k + 1) i Hnd Hi). do 3 f_equal. lia.
Qed.

Lemma data_distinct name names : (name, names) ∈ data → NoDup names.
Proof.
  unfold data. rewrite !elem_of_cons, elem_of_nil.
  intros [H|[H|[H|[]]]]; injection H as -> ->;
    apply (bool_decide_unpack _); vm_compute; exact I.
Qed.



(** ** No meal asked for *)

